(** * VengeanceUI MCP server: component loader, cache and search ranker

    A shallow embedding of [src/server.ts] and [src/componentLoader.ts].

    Strings are sequences of code units below 256 (Rocq's [string]); on
    that range the functions below follow ECMAScript's
    [String.prototype] methods exactly.  Numbers that the program only
    uses as integers (scores, lengths, millisecond instants) are in [Z];
    the limits of the tools, which their schemas let be any number, are
    in [Number]. *)

From Stdlib Require Import List String Ascii ZArith Lia Bool Arith.
From Stdlib Require Import Sorting.Sorted Sorting.Permutation.
From Stdlib Require Import DecimalString QArith.
Import ListNotations.

Local Open Scope string_scope.
Local Open Scope list_scope.
Local Open Scope nat_scope.

(* ================================================================== *)
(** ** String primitives *)
(* ================================================================== *)

Module JsString.

Definition code (c : ascii) : nat := nat_of_ascii c.

(** [String.prototype.toLowerCase] on one code unit below 256: the
    letters A-Z and the Latin-1 capitals U+00C0..U+00DE (U+00D7, the
    multiplication sign, excepted) move up by 32. *)
Definition lower_char (c : ascii) : ascii :=
  let n := code c in
  if ((65 <=? n) && (n <=? 90))
     || ((192 <=? n) && (n <=? 222) && negb (n =? 215))
  then ascii_of_nat (n + 32) else c.

Fixpoint toLowerCase (s : string) : string :=
  match s with
  | EmptyString => EmptyString
  | String c s' => String (lower_char c) (toLowerCase s')
  end.

(** [s.startsWith(p)] *)
Fixpoint startsWith (s p : string) : bool :=
  match p, s with
  | EmptyString, _ => true
  | String _ _, EmptyString => false
  | String a p', String b s' => Ascii.eqb a b && startsWith s' p'
  end.

(** [s.includes(p)]: [p] occurs in [s] as a contiguous substring. *)
Fixpoint includes (s p : string) : bool :=
  startsWith s p ||
  match s with
  | EmptyString => false
  | String _ s' => includes s' p
  end.

Fixpoint rev_onto (s acc : string) : string :=
  match s with
  | EmptyString => acc
  | String c s' => rev_onto s' (String c acc)
  end.

Definition reverse (s : string) : string := rev_onto s EmptyString.

(** [s.endsWith(p)] *)
Definition endsWith (s p : string) : bool :=
  startsWith (reverse s) (reverse p).

(** White space and line terminators below 256: TAB, LF, VT, FF, CR,
    SPACE and NBSP.  This is the class of the pattern atom [\s] and
    the set that [trim] strips. *)
Definition is_space (c : ascii) : bool :=
  let n := code c in
  ((9 <=? n) && (n <=? 13)) || (n =? 32) || (n =? 160).

Fixpoint trimStart (s : string) : string :=
  match s with
  | EmptyString => EmptyString
  | String c s' => if is_space c then trimStart s' else s
  end.

Fixpoint trimEnd (s : string) : string :=
  match s with
  | EmptyString => EmptyString
  | String c s' =>
      match trimEnd s' with
      | EmptyString => if is_space c then EmptyString else String c EmptyString
      | kept => String c kept
      end
  end.

Definition trim (s : string) : string := trimEnd (trimStart s).

(** [s.slice(0, n)] for [0 <= n]. *)
Fixpoint take (n : nat) (s : string) : string :=
  match n, s with
  | O, _ => EmptyString
  | S _, EmptyString => EmptyString
  | S n', String c s' => String c (take n' s')
  end.

(** Every code unit of [s] satisfies [p]. *)
Fixpoint allChars (p : ascii -> bool) (s : string) : bool :=
  match s with
  | EmptyString => true
  | String c s' => p c && allChars p s'
  end.

End JsString.

Import JsString.

(* ================================================================== *)
(** ** Category extraction ([extractCategory]) *)
(* ================================================================== *)

(** The object literal [categoryMap]; [Object.entries] lists its
    string keys in insertion order, which is the order below. *)
Definition categoryMap : list (string * string) :=
  [ ("button", "Buttons"); ("btn", "Buttons");
    ("card", "Cards");
    ("input", "Forms"); ("form", "Forms"); ("select", "Forms");
    ("checkbox", "Forms"); ("radio", "Forms"); ("toggle", "Forms");
    ("switch", "Forms");
    ("nav", "Navigation"); ("header", "Navigation");
    ("footer", "Navigation"); ("sidebar", "Navigation");
    ("menu", "Navigation");
    ("modal", "Overlays"); ("dialog", "Overlays"); ("popover", "Overlays");
    ("tooltip", "Overlays"); ("dropdown", "Overlays"); ("sheet", "Overlays");
    ("drawer", "Overlays");
    ("badge", "Data Display"); ("avatar", "Data Display");
    ("list", "Data Display"); ("table", "Data Display");
    ("tabs", "Navigation");
    ("accordion", "Data Display"); ("carousel", "Data Display");
    ("slider", "Forms");
    ("progress", "Feedback"); ("spinner", "Feedback"); ("loader", "Feedback");
    ("skeleton", "Feedback"); ("alert", "Feedback"); ("toast", "Feedback");
    ("notification", "Feedback");
    ("layout", "Layout"); ("container", "Layout"); ("grid", "Layout");
    ("flex", "Layout"); ("section", "Layout"); ("divider", "Layout");
    ("separator", "Layout"); ("space", "Layout");
    ("typography", "Typography"); ("text", "Typography");
    ("heading", "Typography"); ("title", "Typography");
    ("label", "Typography");
    ("icon", "Icons");
    ("image", "Media"); ("video", "Media");
    ("animation", "Animation"); ("transition", "Animation");
    ("effect", "Animation");
    ("gradient", "Styles"); ("theme", "Styles");
    ("chart", "Data Visualization"); ("graph", "Data Visualization") ].

(** The [for (const [key, category] of entries)] loop with its early
    [return]: [Some category] at the first key found in the name. *)
Fixpoint firstKeyword (entries : list (string * string)) (nameLower : string)
  : option string :=
  match entries with
  | [] => None
  | (key, category) :: rest =>
      if includes nameLower key then Some category
      else firstKeyword rest nameLower
  end.

(** The chain of [if (code.includes(..)) return ..] that follows the loop. *)
Definition inferFromCode (code : string) : string :=
  if includes code "Button" || includes code "btn" then "Buttons"
  else if includes code "Card" then "Cards"
  else if includes code "Input" || includes code "Form" then "Forms"
  else if includes code "Modal" || includes code "Dialog" then "Overlays"
  else if includes code "Nav" then "Navigation"
  else "Components".

Definition extractCategory (componentName code : string) : string :=
  let nameLower := toLowerCase componentName in
  match firstKeyword categoryMap nameLower with
  | Some category => category
  | None => inferFromCode code
  end.

(** *** The specification's reference definition

    Written from the specification's words: the keyword table in the
    order in which the specification lists it, group by group, then the
    content markers in the stated priority order, then the default. *)
Module SpecCategory.

Definition group (keys : list string) (category : string)
  : list (string * string) :=
  map (fun k => (k, category)) keys.

Definition table : list (string * string) :=
  group ["button"; "btn"] "Buttons"
  ++ group ["card"] "Cards"
  ++ group ["input"; "form"; "select"; "checkbox"; "radio"; "toggle";
            "switch"; "slider"] "Forms"
  ++ group ["nav"; "header"; "footer"; "sidebar"; "menu"; "tabs"]
           "Navigation"
  ++ group ["modal"; "dialog"; "popover"; "tooltip"; "dropdown"; "sheet";
            "drawer"] "Overlays"
  ++ group ["badge"; "avatar"; "list"; "table"; "accordion"; "carousel"]
           "Data Display"
  ++ group ["progress"; "spinner"; "loader"; "skeleton"; "alert"; "toast";
            "notification"] "Feedback"
  ++ group ["layout"; "container"; "grid"; "flex"; "section"; "divider";
            "separator"; "space"] "Layout"
  ++ group ["typography"; "text"; "heading"; "title"; "label"] "Typography"
  ++ group ["icon"] "Icons"
  ++ group ["image"; "video"] "Media"
  ++ group ["animation"; "transition"; "effect"] "Animation"
  ++ group ["gradient"; "theme"] "Styles"
  ++ group ["chart"; "graph"] "Data Visualization".

(** An ordered rule table evaluated with [find]: first match wins. *)
Definition byKeyword (rules : list (string * string)) (nameLower : string)
  : option string :=
  option_map snd (find (fun rule => includes nameLower (fst rule)) rules).

(** The structural markers, in priority order; each rule lists the
    element names that count as a hit. *)
Definition markers : list (list string * string) :=
  [ (["Button"; "btn"], "Buttons");
    (["Card"], "Cards");
    (["Input"; "Form"], "Forms");
    (["Modal"; "Dialog"], "Overlays");
    (["Nav"], "Navigation") ].

Definition byContent (content : string) : option string :=
  option_map snd
    (find (fun rule => existsb (includes content) (fst rule)) markers).

Definition categoryWith (rules : list (string * string))
           (name content : string) : string :=
  match byKeyword rules (toLowerCase name) with
  | Some c => c
  | None =>
      match byContent content with
      | Some c => c
      | None => "Components"
      end
  end.

Definition category : string -> string -> string := categoryWith table.

End SpecCategory.

(* ================================================================== *)
(** ** Pattern matching ([RegExp]) *)
(* ================================================================== *)

(** The loader uses five regular expressions.  They are embedded as
    syntax trees and run by a backtracking matcher that follows the
    ECMAScript semantics: alternatives left to right, greedy quantifiers
    longest first, lazy quantifiers shortest first, an iteration of [*]
    that consumes nothing is rejected, and the captures of a quantified
    atom are cleared when an iteration starts.  Each pattern has at most
    one capture group, so one slot holds [match[1]]. *)
Module RegExp.

Inductive regex : Type :=
| Eps : regex
| Class : (ascii -> bool) -> regex
| Seq : regex -> regex -> regex
| Alt : regex -> regex -> regex
| Star : bool -> regex -> regex          (* [true]: greedy, [false]: lazy *)
| Group : regex -> regex.

Definition Chr (c : ascii) : regex := Class (Ascii.eqb c).

Fixpoint Lit (s : string) : regex :=
  match s with
  | EmptyString => Eps
  | String c s' => Seq (Chr c) (Lit s')
  end.

(** [r+] and [r?] (both greedy), for atoms [r] that consume input. *)
Definition Plus (r : regex) : regex := Seq r (Star true r).
Definition Opt (r : regex) : regex := Alt r Eps.

Fixpoint has_group (r : regex) : bool :=
  match r with
  | Eps | Class _ => false
  | Seq a b | Alt a b => has_group a || has_group b
  | Star _ a => has_group a
  | Group _ => true
  end.

(** The answer of a successful match: the input left after it and
    the capture. *)
Definition answer : Type := string * option string.
Definition cont : Type := string -> option string -> option answer.

Definition orElse (x y : option answer) : option answer :=
  match x with Some _ => x | None => y end.

(** The iterations of a quantified atom; [step] runs the atom once.
    Every accepted iteration consumes input, so [String.length s]
    iterations are enough: [fuel] never cuts a match short. *)
Fixpoint star (step : string -> option string -> cont -> option answer)
         (greedy clear : bool) (k : cont) (fuel : nat)
         (s : string) (cap : option string) : option answer :=
  match fuel with
  | O => k s cap
  | S fuel' =>
      let again :=
        step s (if clear then None else cap)
             (fun s' cap' =>
                if String.length s' <? String.length s
                then star step greedy clear k fuel' s' cap'
                else None) in
      if greedy then orElse again (k s cap) else orElse (k s cap) again
  end.

Fixpoint run (r : regex) (s : string) (cap : option string) (k : cont)
  : option answer :=
  match r with
  | Eps => k s cap
  | Class p =>
      match s with
      | String c s' => if p c then k s' cap else None
      | EmptyString => None
      end
  | Seq a b => run a s cap (fun s' cap' => run b s' cap' k)
  | Alt a b => orElse (run a s cap k) (run b s cap k)
  | Star greedy a =>
      star (run a) greedy (has_group a) k (String.length s) s cap
  | Group a =>
      run a s cap
          (fun s' _ => k s' (Some (take (String.length s - String.length s') s)))
  end.

(** The array that [exec] returns: [match[0]], [match[1]] and what
    follows the match in the input. *)
Record MatchResult : Type := mkMatch
  { whole : string; group1 : option string; after : string }.

(** One attempt at the start of [s]. *)
Definition matchHere (r : regex) (s : string) : option MatchResult :=
  match run r s None (fun s' cap => Some (s', cap)) with
  | Some (s', cap) =>
      Some (mkMatch (take (String.length s - String.length s') s) cap s')
  | None => None
  end.

(** [s.match(r)] for a pattern without the [g] flag: the attempt at
    the leftmost index that succeeds. *)
Fixpoint exec (r : regex) (s : string) : option MatchResult :=
  match matchHere r s with
  | Some m => Some m
  | None =>
      match s with
      | EmptyString => None
      | String _ s' => exec r s'
      end
  end.

(** [s.matchAll(r)] for a pattern with the [g] flag, as the list of
    its matches.  After a match the search resumes where the match
    ended, and one code unit further when the match was empty; [skip]
    counts the code units still covered by the last match. *)
Fixpoint matchAllFrom (r : regex) (s : string) (skip : nat)
  : list MatchResult :=
  match s with
  | EmptyString =>
      match skip, matchHere r s with
      | O, Some m => [m]
      | _, _ => []
      end
  | String _ s' =>
      match skip with
      | S skip' => matchAllFrom r s' skip'
      | O =>
          match matchHere r s with
          | Some m => m :: matchAllFrom r s' (String.length (whole m) - 1)
          | None => matchAllFrom r s' 0
          end
      end
  end.

Definition matchAll (r : regex) (s : string) : list MatchResult :=
  matchAllFrom r s 0.

(** [match[1]]; the group takes part in every match of the patterns
    that read it, so the [undefined] case does not arise for them. *)
Definition capture (m : MatchResult) : string :=
  match group1 m with Some g => g | None => EmptyString end.

(** *** What a pattern matches

    The words of a pattern, read off its syntax: the matcher only ever
    consumes such a word ([run_sound]). *)
Inductive lang : regex -> string -> Prop :=
| lang_eps : lang Eps EmptyString
| lang_class p c : p c = true -> lang (Class p) (String c EmptyString)
| lang_seq a b u v : lang a u -> lang b v -> lang (Seq a b) (u ++ v)
| lang_alt_l a b u : lang a u -> lang (Alt a b) u
| lang_alt_r a b u : lang b u -> lang (Alt a b) u
| lang_star_nil g a : lang (Star g a) EmptyString
| lang_star_cons g a u v :
    lang a u -> lang (Star g a) v -> lang (Star g a) (u ++ v)
| lang_group a u : lang a u -> lang (Group a) u.

(** A run of the matcher, with the capture before and after it: the
    word consumed and what [match[1]] holds then.  An iteration of a
    quantified atom consumes input and starts with the captures of the
    atom cleared. *)
Inductive matches : regex -> option string -> string -> option string -> Prop :=
| matches_eps cap : matches Eps cap EmptyString cap
| matches_class p c cap :
    p c = true -> matches (Class p) cap (String c EmptyString) cap
| matches_seq a b u v c0 c1 c2 :
    matches a c0 u c1 -> matches b c1 v c2 ->
    matches (Seq a b) c0 (u ++ v) c2
| matches_alt_l a b u c0 c1 : matches a c0 u c1 -> matches (Alt a b) c0 u c1
| matches_alt_r a b u c0 c1 : matches b c0 u c1 -> matches (Alt a b) c0 u c1
| matches_star_nil g a cap : matches (Star g a) cap EmptyString cap
| matches_star_cons g a u v c0 c1 c2 :
    u <> EmptyString ->
    matches a (if has_group a then None else c0) u c1 ->
    matches (Star g a) c1 v c2 ->
    matches (Star g a) c0 (u ++ v) c2
| matches_group a u c0 c1 :
    matches a c0 u c1 -> matches (Group a) c0 u (Some u).

(** A matcher step looks at its continuation only on what is left of
    its input, and succeeds only through it. *)
Definition local (step : string -> option string -> cont -> option answer)
  : Prop :=
  forall s cap k1 k2,
    (forall s' cap', String.length s' <= String.length s ->
                     k1 s' cap' = k2 s' cap') ->
    step s cap k1 = step s cap k2.

Definition needsContinuation
           (step : string -> option string -> cont -> option answer) : Prop :=
  forall s cap, step s cap (fun _ _ => None) = None.

(** *** Character classes *)

Definition space : regex := Class is_space.

(** [.]: any code unit but the line terminators LF and CR. *)
Definition is_dot (c : ascii) : bool :=
  negb ((code c =? 10) || (code c =? 13)).
Definition dot : regex := Class is_dot.

(** [\w]: letters, digits and the underscore. *)
Definition is_word (c : ascii) : bool :=
  let n := code c in
  ((48 <=? n) && (n <=? 57)) || ((65 <=? n) && (n <=? 90))
  || ((97 <=? n) && (n <=? 122)) || (n =? 95).

Definition but (c : ascii) : regex := Class (fun x => negb (Ascii.eqb c x)).

Definition quote : regex :=
  Class (fun x => (code x =? 39) || (code x =? 34)).

End RegExp.

Import RegExp.

(* ================================================================== *)
(** ** Metadata extraction *)
(* ================================================================== *)

(** A [Set<string>] read back with [Array.from]: the elements in the
    order of their first insertion. *)
Definition StringSet : Type := list string.

Definition has (x : string) (set : StringSet) : bool :=
  existsb (String.eqb x) set.

Definition add (x : string) (set : StringSet) : StringSet :=
  if has x set then set else set ++ [x].

(** [if (cond) tags.add(tag)] *)
Definition addIf (cond : bool) (tag : string) (set : StringSet) : StringSet :=
  if cond then add tag set else set.

Definition extractTags (code : string) : list string :=
  let tags : StringSet := [] in
  let tags := addIf (includes code "@keyframes" || includes code "animation")
                    "animation" tags in
  let tags := addIf (includes code "transition" || includes code "transform")
                    "animated" tags in
  let tags := addIf (includes code "onClick" || includes code "onChange"
                     || includes code "onHover") "interactive" tags in
  let tags := addIf (includes code "gradient") "gradient" tags in
  let tags := addIf (includes code "Tailwind" || includes code "className")
                    "tailwind" tags in
  let tags := addIf (includes code "styled") "styled-components" tags in
  let tags := addIf (includes code "flex" || includes code "grid")
                    "layout" tags in
  let tags := addIf (includes code "responsive" || includes code "md:"
                     || includes code "lg:") "responsive" tags in
  let tags := addIf (includes code "useRef" || includes code "useEffect"
                     || includes code "useState") "hooks" tags in
  let tags := addIf (includes code "forwardRef") "composable" tags in
  let tags := addIf (includes code "children") "compound" tags in
  tags.

(** [(@?[\w/-]+)] *)
Definition specifier : regex :=
  Group (Seq (Opt (Chr "@")) (Plus (Class (fun c =>
    is_word c || Ascii.eqb c "/" || Ascii.eqb c "-")))).

(** [/import\s+.*?\s+from\s+['"](@?[\w/-]+)['"]/g] *)
Definition importPattern : regex :=
  Seq (Lit "import") (Seq (Plus space) (Seq (Star false dot) (Seq (Plus space)
  (Seq (Lit "from") (Seq (Plus space) (Seq quote (Seq specifier quote))))))).

(** [/require\(['"](@?[\w/-]+)['"]\)/g] *)
Definition requirePattern : regex :=
  Seq (Lit "require(") (Seq quote (Seq specifier (Seq quote (Chr ")")))).

(** The body shared by the two [for (const match of ...)] loops. *)
Definition addDependency (dependencies : StringSet) (m : MatchResult)
  : StringSet :=
  let dependency := capture m in
  if negb (startsWith dependency ".") && negb (startsWith dependency "node:")
  then add dependency dependencies
  else dependencies.

Definition extractDependencies (code : string) : list string :=
  let dependencies : StringSet := [] in
  let dependencies :=
    fold_left addDependency (matchAll importPattern code) dependencies in
  let dependencies :=
    fold_left addDependency (matchAll requirePattern code) dependencies in
  dependencies.

(** [/\/\*\*\s*\n([^*]|\*[^/])*\*\//] *)
Definition jsdocPattern : regex :=
  Seq (Lit "/**") (Seq (Star true space) (Seq (Chr (ascii_of_nat 10))
  (Seq (Star true (Group (Alt (but "*") (Seq (Chr "*") (but "/")))))
       (Lit "*/")))).

(** [[^@\n]] *)
Definition descriptionChar (c : ascii) : bool :=
  negb (Ascii.eqb c "@" || (JsString.code c =? 10)).

(** [/\*\s*([^@\n]+)/] *)
Definition descriptionPattern : regex :=
  Seq (Chr "*") (Seq (Star true space) (Group (Plus (Class descriptionChar)))).

(** [/\/\/\s*(.+)/] *)
Definition commentPattern : regex :=
  Seq (Lit "//") (Seq (Star true space) (Group (Plus dot))).

Definition library : string := "VengeanceUI".

Definition generated (componentName : string) : string :=
  componentName ++ " component from " ++ library.

Definition fromComment (code componentName : string) : string :=
  match exec commentPattern code with
  | Some commentMatch => trim (capture commentMatch)
  | None => generated componentName
  end.

Definition extractDescription (code componentName : string) : string :=
  match exec jsdocPattern code with
  | Some jsdocMatch =>
      let comment := whole jsdocMatch in
      match exec descriptionPattern comment with
      | Some descriptionMatch => trim (capture descriptionMatch)
      | None => fromComment code componentName
      end
  | None => fromComment code componentName
  end.

(** [filename.replace(/\.(tsx?|jsx?)$/, "")]: the pattern is anchored at
    the end, so it can only match one of the four suffixes, and at most
    one of them ends a given name at the leftmost index. *)
Definition extractComponentName (filename : string) : string :=
  let n := String.length filename in
  if endsWith filename ".tsx" || endsWith filename ".jsx"
  then take (n - 4) filename
  else if endsWith filename ".ts" || endsWith filename ".js"
  then take (n - 3) filename
  else filename.

(* ================================================================== *)
(** ** Data model ([types.ts]) *)
(* ================================================================== *)

Record ComponentMetadata : Type := mkComponent
  { name : string;
    category : string;
    description : string;
    sourceUrl : string;
    demoUrl : option string;
    tags : list string;
    code : string;
    dependencies : option (list string);
    path : option string;
    size : option Z }.

Record ComponentSummary : Type := mkSummary
  { summaryName : string;
    summaryCategory : string;
    summaryDescription : string;
    summaryTags : list string;
    summarySourceUrl : string }.

Record GitHubContentItem : Type := mkItem
  { itemName : string;
    itemPath : string;
    itemType : string;
    download_url : option string;
    html_url : string;
    itemSize : option Z }.

Record SearchResult : Type := mkResult
  { component : ComponentMetadata;
    score : Z;
    matchedFields : list string }.

(* ================================================================== *)
(** ** Remote access *)
(* ================================================================== *)

(** [codeResponse.data], as axios hands it over.  The request of
    [fetchComponentMetadata] names no [responseType], so axios first
    tries [JSON.parse] on the body: a body that is not valid JSON
    arrives as it is, a body that is a JSON string literal arrives as
    the string it denotes, and any other valid JSON (an object, an
    array, a number, [true], [false], [null]) arrives as a value that
    is not a string. *)
Inductive Data : Type :=
| Text (delivered : string)
| NonString.

(** What the GitHub API answers during one crawl.  An entry of a
    directory listing comes with the two answers the loader may ask for
    about it: the listing of [item.path] when the entry is a directory,
    and the data axios delivers for [item.download_url] when it is a
    file.  [None] is a request that fails (axios rejects). *)
#[warnings="-register-all"]
Inductive Entry : Type :=
| mkEntry (item : GitHubContentItem)
          (listing : option (list Entry))
          (raw : option Data).

(** The answers for the three paths [loadComponentsFromGitHub] starts
    from: the two search paths and the repository root. *)
Record Remote : Type := mkRemote
  { registryNewYork : option (list Entry);
    srcComponents : option (list Entry);
    repositoryRoot : option (list Entry) }.

Inductive Request : Type :=
| GetContents (path : string)
| GetRaw (url : string).

(** An asynchronous computation: the requests it sent, in order, and
    its outcome, [None] when the promise rejects. *)
Module Fetch.

Definition t (A : Type) : Type := list Request * option A.

Definition ret {A} (a : A) : t A := ([], Some a).

Definition throw {A} : t A := ([], None).

Definition bind {A B} (m : t A) (f : A -> t B) : t B :=
  match m with
  | (log, Some a) => let (log', r) := f a in (log ++ log', r)
  | (log, None) => (log, None)
  end.

(** [try { m } catch { handler }] *)
Definition try {A} (m : t A) (handler : t A) : t A :=
  match m with
  | (log, Some a) => (log, Some a)
  | (log, None) => let (log', r) := handler in (log ++ log', r)
  end.

(** [axios.get]: one request, answered by [response]. *)
Definition get {A} (req : Request) (response : option A) : t A :=
  ([req], response).

Definition requests {A} (m : t A) : list Request := fst m.
Definition outcome {A} (m : t A) : option A := snd m.

End Fetch.

Notation "x <- m ;; k" := (Fetch.bind m (fun x => k))
  (at level 61, m at next level, right associativity).

(* ================================================================== *)
(** ** Repository crawler ([componentLoader.ts]) *)
(* ================================================================== *)

(** [!item.download_url]: [null] and the empty string are falsy. *)
Definition downloadUrl (item : GitHubContentItem) : option string :=
  match download_url item with
  | Some EmptyString => None
  | other => other
  end.

(** On data that is not a string the function throws before it
    returns: [extractDescription] calls [code.match], and no value that
    JSON denotes other than a string has a method of that name (a
    TypeError, at the latest there).  The request has been sent by
    then. *)
Definition fetchComponentMetadata (item : GitHubContentItem)
           (raw : option Data) : Fetch.t (option ComponentMetadata) :=
  match downloadUrl item with
  | None => Fetch.ret None
  | Some url =>
      data <- Fetch.get (GetRaw url) raw ;;
      match data with
      | Text code =>
          let componentName := extractComponentName (itemName item) in
          Fetch.ret (Some
            {| name := componentName;
               category := extractCategory componentName code;
               description := extractDescription code componentName;
               sourceUrl := html_url item;
               demoUrl := None;
               tags := extractTags code;
               code := code;
               dependencies := Some (extractDependencies code);
               path := Some (itemPath item);
               size := itemSize item |})
      | NonString => Fetch.throw
      end
  end.

Definition isComponentFile (fileName : string) : bool :=
  endsWith fileName ".tsx" || endsWith fileName ".ts"
  || endsWith fileName ".jsx" || endsWith fileName ".js".

(** The condition of the [continue] that skips tests, stories and
    private files. *)
Definition skipped (fileName : string) : bool :=
  negb (isComponentFile fileName)
  || includes fileName ".test." || includes fileName ".spec."
  || includes fileName ".stories." || startsWith fileName "_".

(** One turn of the [for (const item of response.data)] loop of
    [fetchComponentsFromDirectory], and with it the recursive call on a
    subdirectory: the components the turn pushes. *)
Fixpoint visit (e : Entry) : Fetch.t (list ComponentMetadata) :=
  match e with
  | mkEntry item listing raw =>
      if String.eqb (itemType item) "dir" then
        Fetch.try
          (items <- Fetch.get (GetContents (itemPath item)) listing ;;
           (fix loop (items : list Entry) : Fetch.t (list ComponentMetadata) :=
              match items with
              | [] => Fetch.ret []
              | e' :: rest =>
                  pushed <- visit e' ;;
                  more <- loop rest ;;
                  Fetch.ret (pushed ++ more)
              end) items)
          (Fetch.ret [])
      else if negb (String.eqb (itemType item) "file") then Fetch.ret []
      else if skipped (itemName item) then Fetch.ret []
      else
        Fetch.try
          (component <- fetchComponentMetadata item raw ;;
           match component with
           | Some c => Fetch.ret [c]
           | None => Fetch.ret []
           end)
          (Fetch.ret [])
  end.

Fixpoint visitAll (items : list Entry) : Fetch.t (list ComponentMetadata) :=
  match items with
  | [] => Fetch.ret []
  | e :: rest =>
      pushed <- visit e ;;
      more <- visitAll rest ;;
      Fetch.ret (pushed ++ more)
  end.

(** [fetchComponentsFromDirectory(path)], given the answer to its
    listing request; it rejects when that request fails. *)
Definition fetchComponentsFromDirectory (path : string)
           (response : option (list Entry)) : Fetch.t (list ComponentMetadata) :=
  items <- Fetch.get (GetContents path) response ;;
  visitAll items.

Definition loadComponentsFromGitHub (remote : Remote)
  : Fetch.t (list ComponentMetadata) :=
  Fetch.try
    (fromRegistry <-
       Fetch.try (fetchComponentsFromDirectory "registry/new-york"
                                               (registryNewYork remote))
                 (Fetch.ret []) ;;
     fromSrc <-
       Fetch.try (fetchComponentsFromDirectory "src/components"
                                               (srcComponents remote))
                 (Fetch.ret []) ;;
     let components := fromRegistry ++ fromSrc in
     if (List.length components =? 0)%nat then
       rootComponents <-
         fetchComponentsFromDirectory "" (repositoryRoot remote) ;;
       Fetch.ret (components ++ rootComponents)
     else Fetch.ret components)
    (Fetch.ret []).

(* ================================================================== *)
(** ** Component cache ([server.ts]) *)
(* ================================================================== *)

(** The two module-level variables. *)
Record Cache : Type := mkCache
  { componentsCache : list ComponentMetadata;
    lastCacheUpdate : Z }.

Definition initialCache : Cache :=
  {| componentsCache := []; lastCacheUpdate := 0%Z |}.

Definition CACHE_DURATION : Z := (5 * 60 * 1000)%Z.

(** The guard of the early [return componentsCache]. *)
Definition fresh (forceRefresh : bool) (now : Z) (cache : Cache) : bool :=
  negb forceRefresh
  && (0 <? List.length (componentsCache cache))%nat
  && (now - lastCacheUpdate cache <? CACHE_DURATION)%Z.

(** [loadComponents(forceRefresh)] called at instant [now] ([Date.now()])
    on the cache [cache], with [remote] answering its requests: the
    cache afterwards, and the requests sent with the value returned.
    The two assignments happen only once the awaited promise is
    fulfilled. *)
Definition loadComponents (forceRefresh : bool) (now : Z) (remote : Remote)
           (cache : Cache) : Cache * Fetch.t (list ComponentMetadata) :=
  if fresh forceRefresh now cache
  then (cache, Fetch.ret (componentsCache cache))
  else
    match loadComponentsFromGitHub remote with
    | (log, Some loaded) =>
        ({| componentsCache := loaded; lastCacheUpdate := now |},
         (log, Some loaded))
    | (log, None) => (cache, (log, None))
    end.

(* ================================================================== *)
(** ** Array helpers *)
(* ================================================================== *)

(** A JavaScript number other than NaN: a rational (every finite
    double is one) or an infinity.  The [limit] of a tool is such a
    number: its schema is [z.number()], which accepts fractions and
    negative numbers and refuses NaN, and a JSON number too large for a
    double is read as an infinity. *)
Inductive Number : Type :=
| Finite (q : Q)
| PlusInfinity
| MinusInfinity.

(** The number of an integer. *)
Definition ofZ (z : Z) : Number := Finite (inject_Z z).

(** The one falsy number among these: zero. *)
Definition isZero (n : Number) : bool :=
  match n with
  | Finite q => (Qnum q =? 0)%Z
  | _ => false
  end.

(** [ToIntegerOrInfinity] on a finite number: the fraction is dropped,
    towards zero. *)
Definition truncate (q : Q) : Z := Z.quot (Qnum q) (Z.pos (Qden q)).

(** [array.slice(0, end)] once [end] has been converted to an integer:
    a negative [end] counts from the end of the array. *)
Definition slice0 {A : Type} (l : list A) (n : Z) : list A :=
  if (n <? 0)%Z
  then firstn (Z.to_nat (Z.max (Z.of_nat (List.length l) + n) 0)) l
  else firstn (Z.to_nat n) l.

(** [array.slice(0, end)] for a number [end]: [slice] converts it with
    [ToIntegerOrInfinity] first. *)
Definition slice {A : Type} (l : list A) (final : Number) : list A :=
  match final with
  | Finite q => slice0 l (truncate q)
  | PlusInfinity => l
  | MinusInfinity => []
  end.

(** [array.sort(compare)].  ECMAScript requires the sort to be stable:
    elements that compare equal keep their order.  For a consistent
    comparator this determines the result; it is computed here by
    insertion, [a] going before [b] when [compare(a, b) <= 0] and [a]
    came first. *)
Section Sort.

Context {A : Type} (compare : A -> A -> Z).

Fixpoint insert (a : A) (sorted : list A) : list A :=
  match sorted with
  | [] => [a]
  | b :: rest =>
      if (compare a b <=? 0)%Z then a :: sorted else b :: insert a rest
  end.

Fixpoint sort (l : list A) : list A :=
  match l with
  | [] => []
  | a :: rest => insert a (sort rest)
  end.

End Sort.

(* ================================================================== *)
(** ** Tool handlers ([server.ts]) *)
(* ================================================================== *)

Definition formatComponentSummary (c : ComponentMetadata) : ComponentSummary :=
  {| summaryName := name c;
     summaryCategory := category c;
     summaryDescription := description c;
     summaryTags := tags c;
     summarySourceUrl := sourceUrl c |}.

(** *** list_components *)

Record ListParams : Type := mkListParams
  { listCategory : option string;
    listLimit : option Number }.

(** The object that the handler serialises. *)
Record ListResponse : Type := mkListResponse
  { total : nat;
    components : list ComponentSummary }.

(** [if (params.category)]: absent and empty are falsy. *)
Definition truthyString (s : option string) : option string :=
  match s with
  | Some EmptyString => None
  | other => other
  end.

(** [if (params.limit)]: absent and zero are falsy. *)
Definition truthyNumber (n : option Number) : option Number :=
  match n with
  | Some x => if isZero x then None else Some x
  | None => None
  end.

(** [if (params.category) { ... filter ... }] *)
Definition filterByCategory (wanted : option string)
           (loaded : list ComponentMetadata) : list ComponentMetadata :=
  match truthyString wanted with
  | Some c =>
      let category' := toLowerCase c in
      filter (fun c => String.eqb (toLowerCase (category c)) category') loaded
  | None => loaded
  end.

(** [if (params.limit) { filtered = filtered.slice(0, params.limit) }] *)
Definition applyLimit (limit : option Number)
           (filtered : list ComponentMetadata) : list ComponentMetadata :=
  match truthyNumber limit with
  | Some n => slice filtered n
  | None => filtered
  end.

Definition list_components (params : ListParams)
           (loaded : list ComponentMetadata) : ListResponse :=
  let filtered := filterByCategory (listCategory params) loaded in
  let filtered := applyLimit (listLimit params) filtered in
  {| total := List.length filtered;
     components := map formatComponentSummary filtered |}.

(** *** search_components *)

Record SearchParams : Type := mkSearchParams
  { searchQuery : string;
    searchLimit : option Number }.

(** The body of the [for (const component of components)] loop up to
    the test [score > 0]: the score and the matched fields of one
    component. *)
Definition scoreComponent (query : string) (c : ComponentMetadata)
  : SearchResult :=
  let score := 0%Z in
  let matchedFields : list string := [] in
  (* name match (highest weight) *)
  let '(score, matchedFields) :=
    if includes (toLowerCase (name c)) query
    then ((score + 50)%Z, matchedFields ++ ["name"])
    else (score, matchedFields) in
  (* category match (high weight) *)
  let '(score, matchedFields) :=
    if includes (toLowerCase (category c)) query
    then ((score + 30)%Z, matchedFields ++ ["category"])
    else (score, matchedFields) in
  (* tags (medium weight): the loop breaks at the first tag that matches *)
  let '(score, matchedFields) :=
    if existsb (fun tag => includes (toLowerCase tag) query) (tags c)
    then ((score + 20)%Z, matchedFields ++ ["tags"])
    else (score, matchedFields) in
  (* description (lower weight) *)
  let '(score, matchedFields) :=
    if includes (toLowerCase (description c)) query
    then ((score + 10)%Z, matchedFields ++ ["description"])
    else (score, matchedFields) in
  (* bonus for exact matches *)
  let score :=
    if String.eqb (toLowerCase (name c)) query
    then (score + 30)%Z else score in
  {| component := c; score := score; matchedFields := matchedFields |}.

(** The array [results] when the loop ends. *)
Fixpoint collectResults (query : string) (loaded : list ComponentMetadata)
  : list SearchResult :=
  match loaded with
  | [] => []
  | c :: rest =>
      let r := scoreComponent query c in
      if (score r >? 0)%Z then r :: collectResults query rest
      else collectResults query rest
  end.

(** [(a, b) => b.score - a.score] *)
Definition byScore (a b : SearchResult) : Z := (score b - score a)%Z.

(** [results] after [results.sort(...)]. *)
Definition sortedResults (query : string) (loaded : list ComponentMetadata)
  : list SearchResult :=
  sort byScore (collectResults query loaded).

(** [params.limit ?? 10] *)
Definition limitOf (params : SearchParams) : Number :=
  match searchLimit params with
  | Some limit => limit
  | None => ofZ 10
  end.

Definition topResults (query : string) (limit : Number)
           (loaded : list ComponentMetadata) : list SearchResult :=
  slice (sortedResults query loaded) limit.

Inductive SearchResponse : Type :=
| PleaseProvideQuery
| Ranked (query : string) (results : list SearchResult).

(** [params.query.toLowerCase().trim()] *)
Definition normalize (query : string) : string := trim (toLowerCase query).

Definition search_components (params : SearchParams)
           (loaded : list ComponentMetadata) : SearchResponse :=
  let query := normalize (searchQuery params) in
  let limit := limitOf params in
  if String.eqb query EmptyString then PleaseProvideQuery
  else Ranked query (topResults query limit loaded).

(* ================================================================== *)
(** ** Vocabulary of the statements *)
(* ================================================================== *)

(** The element names that [inferFromCode] looks for. *)
Definition structuralMarkers : list string :=
  ["Button"; "btn"; "Card"; "Input"; "Form"; "Modal"; "Dialog"; "Nav"].

(** A weight that counts when its field matches. *)
Definition weightIf (matches : bool) (weight : Z) : Z :=
  if matches then weight else 0%Z.

(** The weight the ranker adds when it records a matched field. *)
Definition fieldWeight (field : string) : Z :=
  if String.eqb field "name" then 50%Z
  else if String.eqb field "category" then 30%Z
  else if String.eqb field "tags" then 20%Z
  else if String.eqb field "description" then 10%Z
  else 0%Z.

Definition sumZ (l : list Z) : Z := fold_right Z.add 0%Z l.

(** Descending by score. *)
Definition outranks (a b : SearchResult) : Prop := (score b <= score a)%Z.

(** The results of one score, in the order of the list. *)
Definition withScore (v : Z) (l : list SearchResult) : list SearchResult :=
  filter (fun r => (score r =? v)%Z) l.

(** A component with the given name, category, tags and description. *)
Definition sample (n c : string) (t : list string) (d : string)
  : ComponentMetadata :=
  {| name := n; category := c; description := d; sourceUrl := "";
     demoUrl := None; tags := t; code := ""; dependencies := None;
     path := None; size := None |}.

(** A remote none of whose listings can be fetched. *)
Definition offline : Remote :=
  {| registryNewYork := None; srcComponents := None; repositoryRoot := None |}.

(** A cache filled at instant 0 with one component. *)
Definition populated : Cache :=
  {| componentsCache := [sample "Button" "Buttons" [] "Press me"];
     lastCacheUpdate := 0%Z |}.

(** The tags in the order in which [extractTags] tests for them. *)
Definition tagOrder : list string :=
  ["animation"; "animated"; "interactive"; "gradient"; "tailwind";
   "styled-components"; "layout"; "responsive"; "hooks"; "composable";
   "compound"].

(** Ascending in the order of the code units, the order of a default
    [Array.prototype.sort]. *)
Definition sortedStrings (l : list string) : Prop :=
  Sorted (fun a b => String.leb a b = true) l.

(** The specifiers that the two patterns capture in a content, in the
    order in which [extractDependencies] meets them. *)
Definition importSpecifiers (content : string) : list string :=
  map capture (matchAll importPattern content).

Definition requireSpecifiers (content : string) : list string :=
  map capture (matchAll requirePattern content).

Definition capturedSpecifiers (content : string) : list string :=
  importSpecifiers content ++ requireSpecifiers content.

(** The test that lets a specifier into the set. *)
Definition external (dependency : string) : bool :=
  negb (startsWith dependency ".") && negb (startsWith dependency "node:").

(** A list of specifiers put into an empty set one by one. *)
Definition collectDependencies (specifiers : list string) : list string :=
  fold_left (fun set d => add d set) (filter external specifiers) [].

(** The elements of [l] not in [seen], each at its first occurrence. *)
Fixpoint firstOccurrences (seen l : list string) : list string :=
  match l with
  | [] => []
  | x :: rest =>
      if has x seen then firstOccurrences seen rest
      else x :: firstOccurrences (seen ++ [x]) rest
  end.

(** The line feed. *)
Definition LF : string := String (ascii_of_nat 10) EmptyString.

(** A component file that opens with a documentation block. *)
Definition documentedFile : string :=
  "/**" ++ LF ++ " * A glowing call-to-action button." ++ LF ++
  " * @param label the caption" ++ LF ++ " */" ++ LF ++
  "export const GlowButton = () => null;".

(** Two files that declare the same two dependencies in the two orders,
    and mention an animation and a transition. *)
Definition reactThenAxios : string :=
  "import React from 'react';" ++ LF ++ "import axios from 'axios';" ++ LF ++
  "const css = 'transition: all; animation: spin';".

Definition axiosThenReact : string :=
  "import axios from 'axios';" ++ LF ++ "import React from 'react';" ++ LF ++
  "const css = 'transition: all; animation: spin';".

(** The example of the specification: an import of "react" and one of
    "./local-util", in the two orders. *)
Definition reactAndLocal : string :=
  "import React from 'react';" ++ LF ++ "import { cn } from './local-util';".

Definition localAndReact : string :=
  "import { cn } from './local-util';" ++ LF ++ "import React from 'react';".

(* ================================================================== *)
(** ** The other tools ([server.ts]) and [getCategories] *)
(* ================================================================== *)

(** A template literal's rendering of a length. *)
Definition numberToString (n : nat) : string :=
  NilZero.string_of_uint (Nat.to_uint n).

(** The double quote. *)
Definition DQ : string := String (ascii_of_nat 34) EmptyString.

(** [array.join(sep)] *)
Definition join (sep : string) (l : list string) : string :=
  String.concat sep l.

Record CategoryInfo : Type := mkCategoryInfo
  { infoName : string;
    infoCount : nat;
    infoDescription : string }.

(** The [Map<string, ComponentMetadata[]>] of [getCategories]: its
    entries in insertion order. *)
Definition Groups : Type := list (string * list ComponentMetadata).

(** [categoryMap.has(key)] *)
Definition hasKey (key : string) (groups : Groups) : bool :=
  existsb (fun entry => String.eqb (fst entry) key) groups.

(** [categoryMap.get(key)!.push(c)] *)
Fixpoint pushInto (key : string) (c : ComponentMetadata) (groups : Groups)
  : Groups :=
  match groups with
  | [] => []
  | (k, members) :: rest =>
      if String.eqb k key then (k, members ++ [c]) :: rest
      else (k, members) :: pushInto key c rest
  end.

(** One turn of the [for (const component of components)] loop. *)
Definition groupStep (groups : Groups) (c : ComponentMetadata) : Groups :=
  let groups :=
    if negb (hasKey (category c) groups)
    then groups ++ [(category c, [])]
    else groups in
  pushInto (category c) c groups.

Definition groupByCategory (loaded : list ComponentMetadata) : Groups :=
  fold_left groupStep loaded [].

Definition getCategories (loaded : list ComponentMetadata)
  : list CategoryInfo :=
  map (fun entry =>
         let n := List.length (snd entry) in
         {| infoName := fst entry;
            infoCount := n;
            infoDescription :=
              (numberToString n ++ " " ++ toLowerCase (fst entry)
               ++ " component" ++ (if negb (n =? 1)%nat then "s" else ""))%string |})
      (groupByCategory loaded).

(** *** get_component_code *)

Record CodeParams : Type := mkCodeParams
  { component_name : string;
    include_metadata : option bool }.

(** [components.find((c) => c.name.toLowerCase() === componentName.toLowerCase())] *)
Definition findByName (componentName : string)
           (loaded : list ComponentMetadata) : option ComponentMetadata :=
  find (fun c => String.eqb (toLowerCase (name c)) (toLowerCase componentName))
       loaded.

(** [components.filter(... includes ...).slice(0, 5)] *)
Definition similarTo (componentName : string)
           (loaded : list ComponentMetadata) : list ComponentMetadata :=
  slice0 (filter (fun c => includes (toLowerCase (name c))
                                    (toLowerCase componentName)) loaded) 5.

Definition didYouMean (componentName : string)
           (similar : list ComponentMetadata) : string :=
  let suggestions := join LF (map (fun c => ("  - " ++ name c)%string) similar) in
  ("Component " ++ DQ ++ componentName ++ DQ ++ " not found. Did you mean:"
   ++ LF ++ suggestions)%string.

Definition notFound (componentName : string) : string :=
  ("Component " ++ DQ ++ componentName ++ DQ
   ++ " not found. Use 'search_components' to find available components."
  )%string.

(** The page built in [output]. *)
Definition codePage (c : ComponentMetadata) (includeMetadata : bool)
  : string :=
  (let output := "# " ++ name c ++ LF ++ LF in
  let output :=
    if includeMetadata then
      let output :=
        output ++ "**Description:** " ++ description c ++ LF ++ LF in
      let output := output ++ "**Category:** " ++ category c ++ LF ++ LF in
      let output :=
        output ++ "**Tags:** "
        ++ (match join ", " (tags c) with
            | EmptyString => "None"
            | joined => joined
            end) ++ LF ++ LF in
      let output := output ++ "**Source:** " ++ sourceUrl c ++ LF ++ LF in
      match dependencies c with
      | Some (d :: ds) =>
          output ++ "**Dependencies:**" ++ LF
          ++ join LF (map (fun d => ("  - " ++ d)%string) (d :: ds)) ++ LF ++ LF
      | _ => output
      end
    else output in
  output ++ "## Code:" ++ LF ++ LF ++ "```tsx" ++ LF ++ code c ++ LF ++ "```"
  )%string.

Definition get_component_code (params : CodeParams)
           (loaded : list ComponentMetadata) : string :=
  let componentName := trim (component_name params) in
  let includeMetadata :=
    match include_metadata params with
    | Some b => b
    | None => true
    end in
  if String.eqb componentName EmptyString
  then "Please provide a component name"
  else
    match findByName componentName loaded with
    | None =>
        match similarTo componentName loaded with
        | [] => notFound componentName
        | similar => didYouMean componentName similar
        end
    | Some c => codePage c includeMetadata
    end.

(** *** get_components_by_category *)

(** [components.filter((c) => c.category.toLowerCase() === category.toLowerCase())] *)
Definition inCategory (wanted : string) (loaded : list ComponentMetadata)
  : list ComponentMetadata :=
  filter (fun c => String.eqb (toLowerCase (category c)) (toLowerCase wanted))
         loaded.

Definition noSuchCategory (wanted : string)
           (loaded : list ComponentMetadata) : string :=
  let categories := getCategories loaded in
  let availableCategories :=
    join LF (map (fun c => ("  - " ++ infoName c)%string) categories) in
  ("No components found in category " ++ DQ ++ wanted ++ DQ ++ "." ++ LF ++ LF
   ++ "Available categories:" ++ LF ++ availableCategories)%string.

(** The lines pushed for one component. *)
Definition categoryLines (c : ComponentMetadata) : list string :=
  [("### " ++ name c)%string; ("**Description:** " ++ description c)%string]
  ++ (match tags c with
      | [] => []
      | _ => [("**Tags:** " ++ join ", " (tags c))%string]
      end)
  ++ [("**Source:** " ++ sourceUrl c)%string; EmptyString].

Definition categoryPage (wanted : string) (results : list ComponentMetadata)
  : string :=
  let n := List.length results in
  join LF
    (("## " ++ wanted ++ " Category (" ++ numberToString n ++ " component"
      ++ (if (1 <? n)%nat then "s" else "") ++ ")" ++ LF)%string
     :: flat_map categoryLines results).

Definition get_components_by_category (wantedParam : string)
           (loaded : list ComponentMetadata) : string :=
  let wanted := trim wantedParam in
  if String.eqb wanted EmptyString
  then "Please provide a category name"
  else
    let results := inCategory wanted loaded in
    match results with
    | [] => noSuchCategory wanted loaded
    | _ => categoryPage wanted results
    end.

(** *** list_categories *)

Definition categoryEntryLines (info : CategoryInfo) : list string :=
  [("### " ++ infoName info)%string;
   ("**Count:** " ++ numberToString (infoCount info) ++ " component"
    ++ (if negb (infoCount info =? 1)%nat then "s" else ""))%string;
   ("**Description:** " ++ infoDescription info)%string;
   EmptyString].

Definition list_categories (loaded : list ComponentMetadata) : string :=
  let categories := getCategories loaded in
  match categories with
  | [] => "No categories found"
  | _ =>
      join LF
        (("## VengeanceUI Categories ("
          ++ numberToString (List.length categories) ++ " total)" ++ LF)%string
         :: flat_map categoryEntryLines categories)
  end.

(** *** refresh_cache *)

Definition refresh_cache (now : Z) (remote : Remote) (cache : Cache)
  : Cache * Fetch.t string :=
  let (cache', answer) := loadComponents true now remote cache in
  (cache',
   loaded <- answer ;;
   Fetch.ret ("Successfully refreshed component cache. Loaded "
              ++ numberToString (List.length loaded)
              ++ " components from VengeanceUI.")%string).

(* ================================================================== *)
(** ** The crawl, read as a traversal *)
(* ================================================================== *)

(** The record that [fetchComponentMetadata] returns for an item whose
    content is [content]. *)
Definition recordOf (item : GitHubContentItem) (content : string)
  : ComponentMetadata :=
  let componentName := extractComponentName (itemName item) in
  {| name := componentName;
     category := extractCategory componentName content;
     description := extractDescription content componentName;
     sourceUrl := html_url item;
     demoUrl := None;
     tags := extractTags content;
     code := content;
     dependencies := Some (extractDependencies content);
     path := Some (itemPath item);
     size := itemSize item |}.

(** The file entries under an entry, depth first in listing order,
    through the directories whose listing can be fetched; each comes
    with the answer to its download request. *)
Fixpoint reachedFiles (e : Entry) : list (GitHubContentItem * option Data) :=
  match e with
  | mkEntry item listing raw =>
      if String.eqb (itemType item) "dir" then
        match listing with
        | Some items => flat_map reachedFiles items
        | None => []
        end
      else if String.eqb (itemType item) "file" then [(item, raw)]
      else []
  end.

(** What a reached file contributes: its record, when its name passes
    the filter, it has a download URL and a string is delivered for
    it. *)
Definition fileRecords (file : GitHubContentItem * option Data)
  : list ComponentMetadata :=
  let (item, raw) := file in
  if skipped (itemName item) then []
  else
    match downloadUrl item, raw with
    | Some _, Some (Text content) => [recordOf item content]
    | _, _ => []
    end.

Definition componentsUnder (items : list Entry) : list ComponentMetadata :=
  flat_map fileRecords (flat_map reachedFiles items).

(** A record whose derived fields are the extractions of its own name
    and code. *)
Definition consistent (c : ComponentMetadata) : Prop :=
  category c = extractCategory (name c) (code c)
  /\ description c = extractDescription (code c) (name c)
  /\ tags c = extractTags (code c)
  /\ dependencies c = Some (extractDependencies (code c))
  /\ demoUrl c = None.

(** What the two search paths give together, a failed listing counting
    for nothing, and what the repository root gives. *)
Definition underPath (response : option (list Entry))
  : list ComponentMetadata :=
  match response with
  | Some items => componentsUnder items
  | None => []
  end.

Definition fromSearchPaths (remote : Remote) : list ComponentMetadata :=
  underPath (registryNewYork remote) ++ underPath (srcComponents remote).

(** The source extensions that [isComponentFile] accepts and
    [extractComponentName] strips. *)
Definition sourceExtensions : list string := [".tsx"; ".ts"; ".jsx"; ".js"].

(** The categories [extractCategory] can give. *)
Definition knownCategories : list string :=
  ["Buttons"; "Cards"; "Forms"; "Navigation"; "Overlays"; "Data Display";
   "Feedback"; "Layout"; "Typography"; "Icons"; "Media"; "Animation";
   "Styles"; "Data Visualization"; "Components"].

(** The tags with the substrings that [extractTags] looks for, in the
    order of its tests. *)
Definition tagRules : list (string * list string) :=
  [ ("animation", ["@keyframes"; "animation"]);
    ("animated", ["transition"; "transform"]);
    ("interactive", ["onClick"; "onChange"; "onHover"]);
    ("gradient", ["gradient"]);
    ("tailwind", ["Tailwind"; "className"]);
    ("styled-components", ["styled"]);
    ("layout", ["flex"; "grid"]);
    ("responsive", ["responsive"; "md:"; "lg:"]);
    ("hooks", ["useRef"; "useEffect"; "useState"]);
    ("composable", ["forwardRef"]);
    ("compound", ["children"]) ].

(** What the capture slot can hold after a match of a pattern, given
    what it could hold before: the word of a group that took part, or
    what was there. *)
Fixpoint captured (r : regex) (before : option string -> Prop)
  : option string -> Prop :=
  match r with
  | Eps | Class _ => before
  | Seq a b => captured b (captured a before)
  | Alt a b => fun c => captured a before c \/ captured b before c
  | Star _ a => fun c => before c \/ captured a (fun _ => True) c
  | Group a => fun c => exists w, c = Some w /\ lang a w
  end.

(** [[\w/-]], and the code units a captured specifier is made of. *)
Definition specifierChar (c : ascii) : bool :=
  is_word c || Ascii.eqb c "/" || Ascii.eqb c "-".

Definition scopedChar (c : ascii) : bool :=
  specifierChar c || Ascii.eqb c "@".

(** [\s+from\s+['"](@?[\w/-]+)['"]], the end of the import pattern. *)
Definition fromClause : regex :=
  Seq (Plus space) (Seq (Lit "from") (Seq (Plus space)
  (Seq quote (Seq specifier quote)))).

(** The two quotation marks. *)
Definition isQuote (c : ascii) : bool :=
  (JsString.code c =? 39) || (JsString.code c =? 34).

(** A module specifier as the two patterns read one: letters, digits,
    "_", "/" and "-", at least one of them, after an optional "@". *)
Definition unscoped (d : string) : string :=
  match d with
  | String c w => if Ascii.eqb c "@" then w else d
  | EmptyString => d
  end.

Definition isPackageName (d : string) : bool :=
  negb (String.eqb (unscoped d) EmptyString)
  && allChars specifierChar (unscoped d).

(** White space, at least one code unit of it: [\s+]. *)
Definition blank (w : string) : bool :=
  negb (String.eqb w EmptyString) && allChars is_space w.

(** The clause of an import declaration that the pattern can place:
    on one line, without a quotation mark, and not white space only. *)
Definition plainClause (clause : string) : bool :=
  allChars is_dot clause
  && allChars (fun c => negb (isQuote c)) clause
  && negb (allChars is_space clause).

(** The text of an import declaration and of a require call. *)
Definition importDeclaration (w1 clause w2 w3 : string) (q1 : ascii)
           (d : string) (q2 : ascii) : string :=
  "import" ++ w1 ++ clause ++ w2 ++ "from" ++ w3
  ++ String q1 (d ++ String q2 EmptyString).

Definition requireCall (q1 : ascii) (d : string) (q2 : ascii) : string :=
  "require(" ++ String q1 (d ++ String q2 ")").

(** The categories of a record list, each once, in the order of first
    appearance, and the records of one category. *)
Definition categoriesOf (loaded : list ComponentMetadata) : list string :=
  fold_left (fun set d => add d set) (map category loaded) [].

Definition members (loaded : list ComponentMetadata) (key : string)
  : list ComponentMetadata :=
  filter (fun c => String.eqb (category c) key) loaded.

(* ================================================================== *)
(** * Properties *)
(* ================================================================== *)

(** ** Strings *)

Lemma startsWith_refl (s : string) : startsWith s s = true.
Proof.
  induction s as [|c s IH]; simpl; [reflexivity|].
  now rewrite Ascii.eqb_refl, IH.
Qed.

Lemma includes_refl (s : string) : includes s s = true.
Proof.
  destruct s; simpl; [reflexivity|].
  now rewrite Ascii.eqb_refl, startsWith_refl.
Qed.

Lemma includes_of_eqb (s q : string) :
  String.eqb s q = true -> includes s q = true.
Proof.
  intros H; apply String.eqb_eq in H; subst; apply includes_refl.
Qed.

(** ** Pattern matching *)

(** Facts on [++] and [take] that the standard library leaves out. *)
Lemma append_assoc (a b c : string) : ((a ++ b) ++ c = a ++ (b ++ c))%string.
Proof. induction a; simpl; congruence. Qed.

Lemma append_nil_r (a : string) : (a ++ "")%string = a.
Proof. induction a; simpl; congruence. Qed.

Lemma length_append (a b : string) :
  String.length (a ++ b) = String.length a + String.length b.
Proof. induction a; simpl; congruence. Qed.

Lemma take_append (u s : string) :
  take (String.length (u ++ s) - String.length s) (u ++ s) = u.
Proof.
  rewrite length_append, Nat.add_sub.
  induction u; simpl; [destruct s; reflexivity|congruence].
Qed.

Lemma orElse_Some (x y : option answer) (a : answer) :
  orElse x y = Some a -> x = Some a \/ (x = None /\ y = Some a).
Proof. destruct x; simpl; intros H; [left|right]; auto. Qed.

(** Whatever the matcher answers, it answers through its continuation,
    called on what is left after a word of the pattern. *)
Lemma run_sound (r : regex) :
  forall s cap k ans,
    run r s cap k = Some ans ->
    exists u s' cap', s = (u ++ s')%string /\ lang r u /\ k s' cap' = Some ans.
Proof.
  induction r as [|p|a IHa b IHb|a IHa b IHb|g a IHa|a IHa];
    intros s cap k ans H; simpl in H.
  - exists "", s, cap. repeat split; [constructor|exact H].
  - destruct s as [|c s]; [discriminate|].
    destruct (p c) eqn:Hp; [|discriminate].
    exists (String c ""), s, cap. repeat split; [now constructor|exact H].
  - apply IHa in H as (u & s1 & c1 & -> & La & H).
    apply IHb in H as (v & s2 & c2 & -> & Lb & H).
    exists (u ++ v)%string, s2, c2.
    rewrite append_assoc. repeat split; [now constructor|exact H].
  - apply orElse_Some in H as [H|[_ H]].
    + apply IHa in H as (u & s' & c' & -> & La & H).
      exists u, s', c'. repeat split; [now apply lang_alt_l|exact H].
    + apply IHb in H as (u & s' & c' & -> & Lb & H).
      exists u, s', c'. repeat split; [now apply lang_alt_r|exact H].
  - remember (String.length s) as fuel eqn:Hfuel. clear Hfuel.
    revert s cap ans H.
    induction fuel as [|fuel IH]; intros s cap ans H; simpl in H.
    + exists "", s, cap. repeat split; [constructor|exact H].
    + assert (Hagain : forall c0,
                 run a s c0
                     (fun s' cap' =>
                        if String.length s' <? String.length s
                        then star (run a) g (has_group a) k fuel s' cap'
                        else None) = Some ans ->
                 exists u s' cap',
                   s = (u ++ s')%string /\ lang (Star g a) u
                   /\ k s' cap' = Some ans).
      { intros c0 Hr.
        apply IHa in Hr as (u & s1 & c1 & -> & La & Hr).
        destruct (String.length s1 <? String.length (u ++ s1));
          [|discriminate].
        apply IH in Hr as (v & s2 & c2 & -> & Ls & Hr).
        exists (u ++ v)%string, s2, c2.
        rewrite append_assoc. repeat split; [now constructor|exact Hr]. }
      assert (Hstop : k s cap = Some ans ->
                 exists u s' cap',
                   s = (u ++ s')%string /\ lang (Star g a) u
                   /\ k s' cap' = Some ans).
      { intros Hk. exists "", s, cap. repeat split; [constructor|exact Hk]. }
      destruct g; apply orElse_Some in H as [H|[_ H]]; eauto.
  - apply IHa in H as (u & s' & c' & -> & La & H).
    exists u, s', (Some (take (String.length (u ++ s') - String.length s')
                              (u ++ s'))).
    repeat split; [now constructor|exact H].
Qed.

(** [match[0]] is a word of the pattern. *)
Lemma matchHere_sound (r : regex) (s : string) (m : MatchResult) :
  matchHere r s = Some m ->
  s = (whole m ++ after m)%string /\ lang r (whole m).
Proof.
  unfold matchHere.
  destruct (run r s None (fun s' cap => Some (s', cap))) as [[s' cap]|] eqn:H;
    [|discriminate].
  apply run_sound in H as (u & s1 & c1 & -> & L & H).
  injection H as -> ->. intros Hm. injection Hm as <-. simpl.
  rewrite take_append. split; [reflexivity|exact L].
Qed.

Lemma exec_sound (r : regex) (s : string) (m : MatchResult) :
  exec r s = Some m -> lang r (whole m).
Proof.
  induction s as [|c s IH]; simpl; intros H.
  - destruct (matchHere r "") eqn:Hm; [|discriminate].
    injection H as ->. now apply matchHere_sound in Hm.
  - destruct (matchHere r (String c s)) eqn:Hm.
    + injection H as ->. now apply matchHere_sound in Hm.
    + now apply IH.
Qed.

(** The fuel of [star]: once it covers the length of the input, more of
    it changes nothing, so the matcher is exact on every input. *)
Lemma star_local step g c :
  local step ->
  forall fuel s cap k1 k2,
    (forall s' cap', String.length s' <= String.length s ->
                     k1 s' cap' = k2 s' cap') ->
    star step g c k1 fuel s cap = star step g c k2 fuel s cap.
Proof.
  intros Hstep fuel.
  induction fuel as [|fuel IH]; intros s cap k1 k2 Hk; simpl.
  - apply Hk. lia.
  - rewrite (Hk s cap) by lia.
    rewrite (Hstep s (if c then None else cap) _
               (fun s' cap' =>
                  if String.length s' <? String.length s
                  then star step g c k2 fuel s' cap' else None)).
    + reflexivity.
    + intros s' cap' Hle.
      destruct (String.length s' <? String.length s) eqn:Hlt; [|reflexivity].
      apply IH. intros s2 cap2 H2. apply Hk. lia.
Qed.

Lemma star_needsContinuation step g c :
  local step -> needsContinuation step ->
  forall fuel s cap, star step g c (fun _ _ => None) fuel s cap = None.
Proof.
  intros Hl Hn fuel.
  induction fuel as [|fuel IH]; intros s cap; simpl; [reflexivity|].
  rewrite (Hl s (if c then None else cap) _ (fun _ _ => None)).
  - rewrite Hn. now destruct g.
  - intros s' cap' _. rewrite IH. now destruct (_ <? _).
Qed.

Lemma run_local_and_needs (r : regex) :
  local (run r) /\ needsContinuation (run r).
Proof.
  induction r as [|p|a [La Na] b [Lb Nb]|a [La Na] b [Lb Nb]|g a [La Na]|a [La Na]].
  - split; [intros s cap k1 k2 Hk; simpl; apply Hk; lia|intros s cap; reflexivity].
  - split.
    + intros s cap k1 k2 Hk; simpl. destruct s as [|c s]; [reflexivity|].
      destruct (p c); [|reflexivity]. apply Hk. simpl. lia.
    + intros s cap; simpl. destruct s as [|c s]; [reflexivity|].
      now destruct (p c).
  - split.
    + intros s cap k1 k2 Hk; simpl. apply La.
      intros s' cap' Hle. apply Lb. intros s2 cap2 H2. apply Hk. lia.
    + intros s cap; simpl.
      rewrite (La s cap _ (fun _ _ => None)); [apply Na|].
      intros s' cap' _. apply Nb.
  - split.
    + intros s cap k1 k2 Hk; simpl.
      now rewrite (La s cap k1 k2 Hk), (Lb s cap k1 k2 Hk).
    + intros s cap; simpl. now rewrite Na, Nb.
  - split.
    + intros s cap k1 k2 Hk; simpl. now apply star_local.
    + intros s cap; simpl. now apply star_needsContinuation.
  - split.
    + intros s cap k1 k2 Hk; simpl. apply La.
      intros s' cap' Hle. now apply Hk.
    + intros s cap; simpl. apply Na.
Qed.

Lemma star_fuel_enough (r : regex) (g c : bool) (k : cont) :
  forall fuel fuel' s cap,
    String.length s <= fuel -> String.length s <= fuel' ->
    star (run r) g c k fuel s cap = star (run r) g c k fuel' s cap.
Proof.
  destruct (run_local_and_needs r) as [Hl Hn].
  assert (Hzero : forall fuel cap,
             star (run r) g c k fuel "" cap = k "" cap).
  { intros [|fuel] cap; simpl; [reflexivity|].
    rewrite Hn. destruct g; simpl; [reflexivity|now destruct (k "" cap)]. }
  induction fuel as [|fuel IH]; intros fuel' s cap H H'.
  - destruct s; [|simpl in H; lia]. now rewrite !Hzero.
  - destruct fuel' as [|fuel'].
    + destruct s; [|simpl in H'; lia]. now rewrite !Hzero.
    + simpl.
      rewrite (Hl s (if c then None else cap) _
                 (fun s' cap' =>
                    if String.length s' <? String.length s
                    then star (run r) g c k fuel' s' cap' else None)).
      * reflexivity.
      * intros s' cap' Hle.
        destruct (String.length s' <? String.length s) eqn:Hlt; [|reflexivity].
        apply Nat.ltb_lt in Hlt. apply IH; lia.
Qed.

(** Inversions of [lang] on the shapes the patterns are made of. *)
Lemma lang_Seq_inv a b u :
  lang (Seq a b) u -> exists v w, u = (v ++ w)%string /\ lang a v /\ lang b w.
Proof. inversion 1; subst; eauto. Qed.

Lemma lang_Chr_inv c u : lang (Chr c) u -> u = String c "".
Proof.
  unfold Chr. inversion 1 as [|p c' Hp| | | | | |]; subst.
  apply Ascii.eqb_eq in Hp. now subst.
Qed.

Lemma lang_Lit_inv s : forall u, lang (Lit s) u -> u = s.
Proof.
  induction s as [|c s IH]; simpl; intros u H.
  - now inversion H.
  - apply lang_Seq_inv in H as (v & w & -> & Hv & Hw).
    apply lang_Chr_inv in Hv as ->. apply IH in Hw as ->. reflexivity.
Qed.

Lemma lang_star_class g p w :
  lang (Star g (Class p)) w -> allChars p w = true.
Proof.
  remember (Star g (Class p)) as r eqn:Hr. intros H.
  induction H as [|q c Hq|a b u v _ _ _ _|a b u _ _|a b u _ _|g' a
                  |g' a u v Hu _ Hv IHv|a u _ _];
    try discriminate; injection Hr as -> ->.
  - reflexivity.
  - inversion Hu as [|q c Hq| | | | | |]; subst. simpl.
    rewrite Hq. now apply IHv.
Qed.

(** A documentation block opens with a slash, two asterisks, white
    space and a line feed. *)
Lemma jsdoc_shape u :
  lang jsdocPattern u ->
  exists w t,
    u = ("/**" ++ w ++ String (ascii_of_nat 10) t)%string
    /\ allChars is_space w = true.
Proof.
  unfold jsdocPattern. intros H.
  apply lang_Seq_inv in H as (u1 & u2 & -> & H1 & H).
  apply lang_Lit_inv in H1 as ->.
  apply lang_Seq_inv in H as (w & u3 & -> & Hw & H).
  apply lang_Seq_inv in H as (n & t & -> & Hn & _).
  apply lang_Chr_inv in Hn as ->.
  apply lang_star_class in Hw.
  exists w, t. split; [reflexivity|exact Hw].
Qed.

(** The white space after the opening, up to the first code unit that
    [p] rejects. *)
Lemma first_stop (p : ascii -> bool) (w : string) (stop : ascii) (t : string) :
  allChars is_space w = true ->
  p stop = false ->
  exists w1 c t1,
    (w ++ String stop t)%string = (w1 ++ String c t1)%string
    /\ allChars is_space w1 = true
    /\ allChars p w1 = true
    /\ p c = false.
Proof.
  intros Hw Hstop. induction w as [|x w IH]; simpl in *.
  - exists "", stop, t. auto.
  - apply andb_true_iff in Hw as [Hx Hw].
    destruct (p x) eqn:Hpx.
    + destruct (IH Hw) as (w1 & c & t1 & -> & Hs & Hp & Hc).
      exists (String x w1), c, t1. simpl. rewrite Hx, Hpx. auto.
    + exists "", x, (w ++ String stop t)%string. auto.
Qed.

(** A greedy [[..]*] whose continuation accepts takes the whole run. *)
Lemma greedy_class (p : ascii -> bool) (k : cont) (c : ascii) (t : string)
      (a : answer) :
  p c = false ->
  forall w fuel cap,
    allChars p w = true ->
    String.length (w ++ String c t) <= fuel ->
    k (String c t) cap = Some a ->
    star (run (Class p)) true false k fuel (w ++ String c t) cap = Some a.
Proof.
  intros Hc w. induction w as [|x w IH]; intros fuel cap Hw Hfuel Hk.
  - destruct fuel as [|fuel]; [simpl in Hfuel; lia|].
    simpl. now rewrite Hc.
  - destruct fuel as [|fuel]; [simpl in Hfuel; lia|].
    simpl in Hw. apply andb_true_iff in Hw as [Hx Hw].
    simpl in Hfuel.
    cbn [star append run]. rewrite Hx.
    replace (String.length (w ++ String c t)
             <? String.length (String x (w ++ String c t))) with true
      by (symmetry; apply Nat.ltb_lt; simpl; lia).
    assert (Hrec := IH fuel cap Hw ltac:(lia) Hk).
    cbn [run] in Hrec. rewrite Hrec. reflexivity.
Qed.


(** The equations of [run] used below. *)
Lemma run_Seq_eq a b s cap k :
  run (Seq a b) s cap k = run a s cap (fun s' cap' => run b s' cap' k).
Proof. reflexivity. Qed.

Lemma run_Class_cons p c s cap k :
  run (Class p) (String c s) cap k = if p c then k s cap else None.
Proof. reflexivity. Qed.

Lemma run_Group_eq a s cap k :
  run (Group a) s cap k
  = run a s cap
        (fun s' _ => k s' (Some (take (String.length s - String.length s') s))).
Proof. reflexivity. Qed.

Lemma run_Star_class_skip g p x s cap k :
  p x = false ->
  run (Star g (Class p)) (String x s) cap k = k (String x s) cap.
Proof.
  intros Hx. simpl. rewrite Hx. destruct g; simpl; [reflexivity|].
  now destruct (k (String x s) cap).
Qed.

Lemma run_Star_class_greedy p w c t cap k a :
  allChars p w = true ->
  p c = false ->
  k (String c t) cap = Some a ->
  run (Star true (Class p)) (w ++ String c t) cap k = Some a.
Proof.
  intros Hw Hc Hk. cbn [run has_group].
  now apply greedy_class.
Qed.

(** On a documentation block the description pattern matches at index
    1: its [\*] takes the first asterisk of the opening, its [\s*]
    nothing, and its group the second asterisk with the rest of the
    line. *)
Lemma description_at_block (w : string) (c : ascii) (t : string) :
  allChars descriptionChar w = true ->
  descriptionChar c = false ->
  exec descriptionPattern ("/**" ++ w ++ String c t)
  = Some (mkMatch ("**" ++ w) (Some ("*" ++ w)%string) (String c t)).
Proof.
  intros Hw Hc.
  change ("/**" ++ w ++ String c t)%string
    with (String "/" (String "*" (String "*" (w ++ String c t)))).
  assert (Hfirst : matchHere descriptionPattern
                     (String "/" (String "*" (String "*" (w ++ String c t))))
                   = None).
  { unfold matchHere, descriptionPattern, Chr.
    rewrite run_Seq_eq, run_Class_cons. reflexivity. }
  assert (Hsecond : matchHere descriptionPattern
                      (String "*" (String "*" (w ++ String c t)))
                    = Some (mkMatch ("**" ++ w) (Some ("*" ++ w)%string)
                                    (String c t))).
  { unfold matchHere, descriptionPattern, Plus, Chr, space.
    rewrite run_Seq_eq, run_Class_cons, Ascii.eqb_refl.
    rewrite run_Seq_eq, run_Star_class_skip by reflexivity.
    rewrite run_Group_eq, run_Seq_eq, run_Class_cons.
    erewrite (run_Star_class_greedy descriptionChar w c t);
      [|exact Hw|exact Hc|reflexivity].
    cbv beta.
    change (descriptionChar "*") with true.
    cbv iota.
    change (String "*" (String "*" (w ++ String c t)))
      with (String "*" (String "*" w) ++ String c t)%string.
    change (String "*" (w ++ String c t))
      with (String "*" w ++ String c t)%string.
    rewrite !take_append. reflexivity. }
  cbn [exec]. rewrite Hfirst, Hsecond. reflexivity.
Qed.

Lemma trimEnd_spaces (w : string) :
  allChars is_space w = true -> trimEnd w = "".
Proof.
  induction w as [|x w IH]; simpl; [reflexivity|].
  intros H. apply andb_true_iff in H as [Hx Hw].
  now rewrite (IH Hw), Hx.
Qed.

Lemma trim_asterisk (w : string) :
  allChars is_space w = true -> trim (String "*" w) = "*".
Proof.
  intros Hw. unfold trim.
  change (trimStart (String "*" w)) with (String "*" w).
  cbn [trimEnd]. now rewrite (trimEnd_spaces w Hw).
Qed.

(** So a file with a documentation block is described as an asterisk,
    whatever the block says. *)
Lemma jsdoc_description (content componentName : string) (m : MatchResult) :
  exec jsdocPattern content = Some m ->
  extractDescription content componentName = "*".
Proof.
  intros Hm. unfold extractDescription. rewrite Hm.
  apply exec_sound, jsdoc_shape in Hm as (w & t & -> & Hw).
  destruct (first_stop descriptionChar w (ascii_of_nat 10) t Hw eq_refl)
    as (w1 & c & t1 & Heq & Hs & Hp & Hc).
  rewrite Heq, (description_at_block w1 c t1 Hp Hc).
  unfold capture. simpl group1. now apply trim_asterisk.
Qed.

(** ** Category extraction *)

Lemma firstKeyword_find (entries : list (string * string)) (n : string) :
  firstKeyword entries n = SpecCategory.byKeyword entries n.
Proof.
  unfold SpecCategory.byKeyword.
  induction entries as [|[k c] rest IH]; simpl; [reflexivity|].
  destruct (includes n k); simpl; [reflexivity|exact IH].
Qed.

Lemma inferFromCode_markers (content : string) :
  inferFromCode content =
  match SpecCategory.byContent content with
  | Some c => c
  | None => "Components"
  end.
Proof.
  unfold inferFromCode, SpecCategory.byContent, SpecCategory.markers; simpl.
  repeat rewrite orb_false_r.
  destruct (includes content "Button"), (includes content "btn"),
    (includes content "Card"); simpl; try reflexivity;
  destruct (includes content "Input"), (includes content "Form");
    simpl; try reflexivity;
  destruct (includes content "Modal"), (includes content "Dialog");
    simpl; try reflexivity;
  destruct (includes content "Nav"); reflexivity.
Qed.

Lemma firstKeyword_none (entries : list (string * string)) (n : string) :
  (forall k c, In (k, c) entries -> includes n k = false) ->
  firstKeyword entries n = None.
Proof.
  induction entries as [|[k c] rest IH]; simpl; intros H; [reflexivity|].
  rewrite (H k c) by now left.
  apply IH; intros k' c' Hin; apply (H k' c'); now right.
Qed.

(** The keyword of a rule of the code's table and of the specification's
    table: the two tables hold the same rules. *)
Lemma tables_same_rules (rule : string * string) :
  In rule categoryMap <-> In rule SpecCategory.table.
Proof.
  assert (Hin : forall l : list (string * string),
             existsb (fun r => String.eqb (fst r) (fst rule)
                               && String.eqb (snd r) (snd rule)) l = true
             <-> In rule l).
  { intros l. rewrite existsb_exists. destruct rule as [k c]; simpl.
    split.
    - intros [[k' c'] [Hl Heq]]. simpl in Heq.
      apply andb_true_iff in Heq as [Hk Hc].
      apply String.eqb_eq in Hk, Hc. now subst.
    - intros Hl. exists (k, c). simpl. now rewrite !String.eqb_refl. }
  split; intros H; apply Hin; vm_compute in H;
    repeat (destruct H as [<-|H]; [reflexivity|]); contradiction.
Qed.

(** With "slider" and "tabs" out of the way, the code's table and the
    specification's table test the same keywords in the same order. *)
Lemma firstKeyword_spec_order (n : string) :
  includes n "slider" = false ->
  includes n "tabs" = false ->
  firstKeyword categoryMap n = firstKeyword SpecCategory.table n.
Proof.
  intros Hslider Htabs.
  unfold categoryMap, SpecCategory.table, SpecCategory.group; simpl.
  rewrite Hslider, Htabs.
  reflexivity.
Qed.

(** C2, as the code has it.  [extractCategory] evaluates its keyword
    table against the lower-cased name, first substring match first,
    then the content markers in the order button, card, input/form,
    modal/dialog, navigation, then the default; the table is the one of
    the source, where "tabs" is tested after "table" and "slider" after
    "carousel".  It agrees with the specification's table order on every
    name whose lower-cased form contains neither "slider" nor "tabs";
    a name containing "button" in any letter case gives "Buttons"; and
    with no keyword in the name and no marker in the content the
    category is "Components". *)
Theorem extractCategory_first_match (componentName content : string) :
  let nameLower := toLowerCase componentName in
  extractCategory componentName content
  = SpecCategory.categoryWith categoryMap componentName content
  /\ (includes nameLower "slider" = false ->
      includes nameLower "tabs" = false ->
      extractCategory componentName content
      = SpecCategory.category componentName content)
  /\ (includes nameLower "button" = true ->
      extractCategory componentName content = "Buttons")
  /\ ((forall k c, In (k, c) categoryMap -> includes nameLower k = false) ->
      (forall m, In m structuralMarkers -> includes content m = false) ->
      extractCategory componentName content = "Components").
Proof.
  intros nameLower.
  assert (Hcode : extractCategory componentName content
                  = SpecCategory.categoryWith categoryMap componentName content).
  { unfold extractCategory, SpecCategory.categoryWith.
    rewrite <- firstKeyword_find, inferFromCode_markers. reflexivity. }
  split; [exact Hcode|]. split; [|split].
  - intros Hslider Htabs. rewrite Hcode.
    unfold SpecCategory.category, SpecCategory.categoryWith.
    rewrite <- !firstKeyword_find.
    fold nameLower. now rewrite (firstKeyword_spec_order _ Hslider Htabs).
  - intros Hbutton. unfold extractCategory. fold nameLower.
    unfold categoryMap; simpl. now rewrite Hbutton.
  - intros Hkeys Hmarkers. unfold extractCategory. fold nameLower.
    rewrite (firstKeyword_none _ _ Hkeys).
    unfold inferFromCode.
    rewrite !Hmarkers by (unfold structuralMarkers; simpl; auto 10).
    reflexivity.
Qed.

Lemma extractCategory_first_match_witness :
  extractCategory "GlowButton.Slim" "<Card/>" = "Buttons"
  /\ extractCategory "NavBar" "" = SpecCategory.category "NavBar" ""
  /\ extractCategory "Orb" "<div/>" = "Components".
Proof.
  split; [|split].
  - apply (extractCategory_first_match "GlowButton.Slim" "<Card/>").
    reflexivity.
  - apply (extractCategory_first_match "NavBar" ""); reflexivity.
  - apply (extractCategory_first_match "Orb" "<div/>").
    + intros k c Hin. vm_compute in Hin.
      repeat (destruct Hin as [Hin|Hin];
              [injection Hin as <- <-; reflexivity|]).
      contradiction.
    + intros m Hin. vm_compute in Hin.
      repeat (destruct Hin as [<-|Hin]; [reflexivity|]).
      contradiction.
Defined.

(** C2, as stated, fails: the specification lists "slider" among the
    Forms keywords, ahead of the Data Display ones, and the code tests
    "carousel" first. *)
Lemma extractCategory_differs_from_spec_table :
  extractCategory "CarouselSlider" "" = "Data Display"
  /\ SpecCategory.category "CarouselSlider" "" = "Forms"
  /\ extractCategory "CarouselSlider" ""
     <> SpecCategory.category "CarouselSlider" "".
Proof.
  repeat split; try reflexivity.
  vm_compute. discriminate.
Qed.

(** ** Search scores *)

Lemma score_formula (query : string) (c : ComponentMetadata) :
  score (scoreComponent query c)
  = (weightIf (includes (toLowerCase (name c)) query) 50
     + weightIf (includes (toLowerCase (category c)) query) 30
     + weightIf (existsb (fun tag => includes (toLowerCase tag) query) (tags c)) 20
     + weightIf (includes (toLowerCase (description c)) query) 10
     + weightIf (String.eqb (toLowerCase (name c)) query) 30)%Z.
Proof.
  unfold scoreComponent, weightIf.
  destruct (includes (toLowerCase (name c)) query),
    (includes (toLowerCase (category c)) query),
    (existsb (fun tag => includes (toLowerCase tag) query) (tags c)),
    (includes (toLowerCase (description c)) query),
    (String.eqb (toLowerCase (name c)) query); reflexivity.
Qed.

Lemma fields_formula (query : string) (c : ComponentMetadata) :
  matchedFields (scoreComponent query c)
  = (if includes (toLowerCase (name c)) query then ["name"] else [])
    ++ (if includes (toLowerCase (category c)) query then ["category"] else [])
    ++ (if existsb (fun tag => includes (toLowerCase tag) query) (tags c)
        then ["tags"] else [])
    ++ (if includes (toLowerCase (description c)) query
        then ["description"] else []).
Proof.
  unfold scoreComponent.
  destruct (includes (toLowerCase (name c)) query),
    (includes (toLowerCase (category c)) query),
    (existsb (fun tag => includes (toLowerCase tag) query) (tags c)),
    (includes (toLowerCase (description c)) query),
    (String.eqb (toLowerCase (name c)) query); reflexivity.
Qed.

Lemma score_nonneg (query : string) (c : ComponentMetadata) :
  (0 <= score (scoreComponent query c))%Z.
Proof.
  rewrite score_formula. unfold weightIf.
  repeat match goal with |- context [if ?b then _ else _] => destruct b end;
    lia.
Qed.

Lemma score_exact_name (query : string) (c : ComponentMetadata) :
  toLowerCase (name c) = query ->
  (80 <= score (scoreComponent query c))%Z.
Proof.
  intros H. rewrite score_formula, H, includes_refl, String.eqb_refl.
  unfold weightIf.
  repeat match goal with |- context [if ?b then _ else _] => destruct b end;
    lia.
Qed.

Lemma score_description_only (query : string) (d : ComponentMetadata) :
  matchedFields (scoreComponent query d) = ["description"] ->
  score (scoreComponent query d) = 10%Z.
Proof.
  rewrite fields_formula, score_formula. unfold weightIf.
  destruct (String.eqb (toLowerCase (name d)) query) eqn:Heq.
  - rewrite (includes_of_eqb _ _ Heq). discriminate.
  - destruct (includes (toLowerCase (name d)) query),
      (includes (toLowerCase (category d)) query),
      (existsb (fun tag => includes (toLowerCase tag) query) (tags d)),
      (includes (toLowerCase (description d)) query);
      simpl; intros H; try discriminate H; reflexivity.
Qed.

(** ** The stable sort *)

Section SortFacts.

Context {A : Type} (key : A -> Z).

Let compare (a b : A) : Z := (key b - key a)%Z.
Let desc (a b : A) : Prop := (key b <= key a)%Z.
Let keyed (v : Z) (l : list A) : list A :=
  filter (fun a => (key a =? v)%Z) l.

Lemma insert_perm (a : A) (l : list A) :
  Permutation (insert compare a l) (a :: l).
Proof.
  induction l as [|b l IH]; simpl; [reflexivity|].
  destruct (compare a b <=? 0)%Z; [reflexivity|].
  rewrite IH. apply perm_swap.
Qed.

Lemma sort_perm (l : list A) : Permutation (sort compare l) l.
Proof.
  induction l as [|a l IH]; simpl; [reflexivity|].
  rewrite insert_perm. now constructor.
Qed.

Lemma insert_sorted (a : A) (l : list A) :
  StronglySorted desc l -> StronglySorted desc (insert compare a l).
Proof.
  induction 1 as [|b l Hl IH Hb]; simpl.
  - repeat constructor.
  - destruct (compare a b <=? 0)%Z eqn:Hab; unfold compare in Hab.
    + apply Z.leb_le in Hab.
      constructor; [now constructor|].
      constructor; [unfold desc; lia|].
      eapply Forall_impl; [|exact Hb]. unfold desc; intros; lia.
    + apply Z.leb_gt in Hab.
      constructor; [exact IH|].
      eapply Permutation_Forall; [symmetry; apply insert_perm|].
      constructor; [unfold desc; lia|exact Hb].
Qed.

Lemma sort_sorted (l : list A) : StronglySorted desc (sort compare l).
Proof.
  induction l as [|a l IH]; simpl; [constructor|].
  now apply insert_sorted.
Qed.

(** Stability: insertion never moves an element past one of its key. *)
Lemma insert_keyed (v : Z) (a : A) (l : list A) :
  keyed v (insert compare a l) = keyed v (a :: l).
Proof.
  induction l as [|b l IH]; [reflexivity|].
  simpl insert.
  destruct (compare a b <=? 0)%Z eqn:Hab; [reflexivity|].
  unfold compare in Hab. apply Z.leb_gt in Hab.
  unfold keyed in *. simpl in *. rewrite IH.
  destruct (key a =? v)%Z eqn:Ha, (key b =? v)%Z eqn:Hb; try reflexivity.
  apply Z.eqb_eq in Ha, Hb. lia.
Qed.

Lemma sort_keyed (v : Z) (l : list A) :
  keyed v (sort compare l) = keyed v l.
Proof.
  induction l as [|a l IH]; [reflexivity|].
  simpl sort. rewrite insert_keyed.
  unfold keyed in *. simpl. now rewrite IH.
Qed.

(** Descending order and the order within each key leave one list. *)
Lemma sorted_keyed_unique (l1 l2 : list A) :
  StronglySorted desc l1 ->
  StronglySorted desc l2 ->
  (forall v, keyed v l1 = keyed v l2) ->
  l1 = l2.
Proof.
  intros H1; revert l2.
  induction H1 as [|a l1 Hl1 IH Ha]; intros l2 H2 Hk.
  - destruct l2 as [|b l2]; [reflexivity|].
    specialize (Hk (key b)). unfold keyed in Hk; simpl in Hk.
    rewrite Z.eqb_refl in Hk. discriminate.
  - destruct H2 as [|b l2 Hl2 Hb].
    + specialize (Hk (key a)). unfold keyed in Hk; simpl in Hk.
      rewrite Z.eqb_refl in Hk. discriminate.
    + assert (Hab : key a = key b).
      { assert (Ina : In a (keyed (key a) (b :: l2))).
        { rewrite <- Hk. unfold keyed; simpl.
          rewrite Z.eqb_refl. now left. }
        assert (Inb : In b (keyed (key b) (a :: l1))).
        { rewrite Hk. unfold keyed; simpl.
          rewrite Z.eqb_refl. now left. }
        apply filter_In in Ina as [Ina _], Inb as [Inb _].
        assert (key a <= key b)%Z.
        { destruct Ina as [->|Ina]; [lia|].
          rewrite Forall_forall in Hb. apply (Hb _ Ina). }
        assert (key b <= key a)%Z.
        { destruct Inb as [->|Inb]; [lia|].
          rewrite Forall_forall in Ha. apply (Ha _ Inb). }
        lia. }
      assert (Heq : a = b).
      { specialize (Hk (key a)). unfold keyed in Hk; simpl in Hk.
        rewrite <- Hab, Z.eqb_refl in Hk. congruence. }
      subst b. f_equal. apply IH; [exact Hl2|].
      intros v. specialize (Hk v). unfold keyed in *; simpl in Hk.
      destruct (key a =? v)%Z; congruence.
Qed.

Lemma sorted_firstn (n : nat) (l : list A) :
  StronglySorted desc l -> StronglySorted desc (firstn n l).
Proof.
  intros H; revert n.
  induction H as [|a l Hl IH Ha]; intros [|n]; simpl; try constructor.
  - apply IH.
  - rewrite Forall_forall in *. intros x Hx.
    apply Ha. rewrite <- (firstn_skipn n l). apply in_or_app. now left.
Qed.

Lemma sorted_positions (l : list A) (i j : nat) (a b : A) :
  StronglySorted desc l ->
  nth_error l i = Some a ->
  nth_error l j = Some b ->
  (key b < key a)%Z ->
  (i < j)%nat.
Proof.
  intros H; revert i j.
  induction H as [|x l Hl IH Hx]; intros i j Hi Hj Hlt.
  - destruct i; discriminate.
  - destruct i as [|i], j as [|j]; simpl in Hi, Hj.
    + injection Hi as ->. injection Hj as ->. lia.
    + lia.
    + injection Hj as ->. apply nth_error_In in Hi.
      rewrite Forall_forall in Hx. specialize (Hx _ Hi).
      unfold desc in Hx. lia.
    + specialize (IH _ _ Hi Hj Hlt). lia.
Qed.

End SortFacts.

(** ** The search pipeline *)

Lemma collectResults_filter (query : string) (loaded : list ComponentMetadata) :
  collectResults query loaded
  = filter (fun r => (0 <? score r)%Z) (map (scoreComponent query) loaded).
Proof.
  induction loaded as [|c rest IH]; simpl; [reflexivity|].
  rewrite Z.gtb_ltb, IH. reflexivity.
Qed.

Lemma slice0_nonneg {A : Type} (l : list A) (n : Z) :
  (0 <= n)%Z -> slice0 l n = firstn (Z.to_nat n) l.
Proof.
  intros H. unfold slice0.
  destruct (n <? 0)%Z eqn:Hn; [apply Z.ltb_lt in Hn; lia|reflexivity].
Qed.

Lemma slice0_prefix {A : Type} (l : list A) (n : Z) :
  exists k, slice0 l n = firstn k l.
Proof.
  unfold slice0. destruct (n <? 0)%Z; eauto.
Qed.

(** An integer has no fraction to drop. *)
Lemma truncate_inject_Z (z : Z) : truncate (inject_Z z) = z.
Proof.
  unfold truncate. simpl. apply Z.quot_1_r.
Qed.

Lemma slice_ofZ {A : Type} (l : list A) (z : Z) : slice l (ofZ z) = slice0 l z.
Proof.
  unfold slice, ofZ. now rewrite truncate_inject_Z.
Qed.

Lemma truncate_nonneg (q : Q) : (0 <= q)%Q -> (0 <= truncate q)%Z.
Proof.
  unfold Qle, truncate. simpl. intros H. apply Z.quot_pos; lia.
Qed.

Lemma slice_nonneg {A : Type} (l : list A) (q : Q) :
  (0 <= q)%Q -> slice l (Finite q) = firstn (Z.to_nat (truncate q)) l.
Proof.
  intros H. apply slice0_nonneg, truncate_nonneg, H.
Qed.

Lemma slice_prefix {A : Type} (l : list A) (n : Number) :
  exists k, slice l n = firstn k l.
Proof.
  destruct n as [q| |]; simpl.
  - apply slice0_prefix.
  - exists (List.length l). symmetry. apply firstn_all.
  - now exists 0.
Qed.

Lemma sortedResults_sorted (query : string) (loaded : list ComponentMetadata) :
  StronglySorted outranks (sortedResults query loaded).
Proof.
  unfold sortedResults. apply (sort_sorted score).
Qed.

Lemma topResults_sorted (query : string) (limit : Number)
      (loaded : list ComponentMetadata) :
  StronglySorted outranks (topResults query limit loaded).
Proof.
  unfold topResults.
  destruct (slice_prefix (sortedResults query loaded) limit) as [k ->].
  apply (sorted_firstn score), sortedResults_sorted.
Qed.

Lemma topResults_in (query : string) (limit : Number)
      (loaded : list ComponentMetadata) (r : SearchResult) :
  In r (topResults query limit loaded) ->
  exists c, In c loaded /\ r = scoreComponent query c /\ (0 < score r)%Z.
Proof.
  unfold topResults.
  destruct (slice_prefix (sortedResults query loaded) limit) as [k ->].
  intros H.
  assert (Hs : In r (sortedResults query loaded)).
  { rewrite <- (firstn_skipn k). apply in_or_app. now left. }
  unfold sortedResults in Hs.
  apply (Permutation_in _ (sort_perm score _)) in Hs.
  rewrite collectResults_filter in Hs.
  apply filter_In in Hs as [Hm Hpos]. apply Z.ltb_lt in Hpos.
  apply in_map_iff in Hm as [c [<- Hc]]. eauto.
Qed.



(** C6.  For the result computed for a record, the score is positive
    exactly when the list of matched fields is non-empty: the score is
    the sum of the weights of the listed fields, each positive, plus
    the exact-name bonus, and the bonus is only given when "name" is
    listed.  Every result in the output has a positive score and a
    non-empty list of matched fields. *)
Theorem score_positive_iff_matched (query : string) (c : ComponentMetadata) :
  let r := scoreComponent query c in
  ((0 < score r)%Z <-> matchedFields r <> [])
  /\ score r
     = (sumZ (map fieldWeight (matchedFields r))
        + weightIf (String.eqb (toLowerCase (name c)) query) 30)%Z
  /\ (forall field, In field (matchedFields r) -> (0 < fieldWeight field)%Z)
  /\ (String.eqb (toLowerCase (name c)) query = true ->
      In "name" (matchedFields r))
  /\ (forall loaded limit r',
         In r' (topResults query limit loaded) ->
         (0 < score r')%Z /\ matchedFields r' <> []).
Proof.
  assert (Hiff : forall c',
             (0 < score (scoreComponent query c'))%Z
             <-> matchedFields (scoreComponent query c') <> []).
  { intros c'. rewrite fields_formula, score_formula. unfold weightIf.
    destruct (String.eqb (toLowerCase (name c')) query) eqn:Heq.
    - rewrite (includes_of_eqb _ _ Heq).
      split; [discriminate|intros _].
      repeat match goal with |- context [if ?b then _ else _] => destruct b end;
        lia.
    - destruct (includes (toLowerCase (name c')) query),
        (includes (toLowerCase (category c')) query),
        (existsb (fun tag => includes (toLowerCase tag) query) (tags c')),
        (includes (toLowerCase (description c')) query); simpl;
        split; intros H; try discriminate; try lia; congruence. }
  intros r. subst r.
  split; [apply Hiff|]. split; [|split; [|split]].
  - rewrite fields_formula, score_formula. unfold weightIf.
    destruct (includes (toLowerCase (name c)) query),
      (includes (toLowerCase (category c)) query),
      (existsb (fun tag => includes (toLowerCase tag) query) (tags c)),
      (includes (toLowerCase (description c)) query); reflexivity.
  - intros field. rewrite fields_formula.
    destruct (includes (toLowerCase (name c)) query),
      (includes (toLowerCase (category c)) query),
      (existsb (fun tag => includes (toLowerCase tag) query) (tags c)),
      (includes (toLowerCase (description c)) query); simpl;
      intros H; repeat (destruct H as [<-|H]; [reflexivity|]);
      contradiction.
  - intros Heq. rewrite fields_formula, (includes_of_eqb _ _ Heq).
    now left.
  - intros loaded limit r' Hin.
    apply topResults_in in Hin as [c' [_ [-> Hpos]]].
    split; [exact Hpos|]. now apply Hiff.
Qed.

Lemma score_positive_iff_matched_witness :
  In "name" (matchedFields (scoreComponent "button"
                              (sample "Button" "Buttons" [] "Press me")))
  /\ (0 < fieldWeight "name")%Z.
Proof.
  pose proof (score_positive_iff_matched "button"
                (sample "Button" "Buttons" [] "Press me"))
    as [_ [_ [Hweight [Hname _]]]].
  assert (H : In "name" (matchedFields (scoreComponent "button"
                           (sample "Button" "Buttons" [] "Press me")))).
  { apply Hname. reflexivity. }
  split; [exact H|]. apply (Hweight _ H).
Defined.

(** C5.  The search output is made in three steps, in this order: the
    records of score 0 are left out; what remains is sorted by score,
    highest first, records of equal score keeping the order of the
    record list (and this fixes the sorted list); the sorted list is cut
    to the limit, which is the one the caller gives and 10 when none is
    given: the output is the first [limit] results of the sorted list,
    the fraction of a limit that has one being dropped, and all of them
    when the limit is the positive infinity. *)
Theorem search_filters_sorts_truncates
        (params : SearchParams) (loaded : list ComponentMetadata) :
  let query := normalize (searchQuery params) in
  let kept := filter (fun r => (0 <? score r)%Z)
                     (map (scoreComponent query) loaded) in
  let sorted := sortedResults query loaded in
  (forall c, In c loaded ->
     (In (scoreComponent query c) kept
      <-> score (scoreComponent query c) <> 0%Z))
  /\ Permutation sorted kept
  /\ StronglySorted outranks sorted
  /\ (forall v, withScore v sorted = withScore v kept)
  /\ (forall l, StronglySorted outranks l ->
                (forall v, withScore v l = withScore v kept) ->
                l = sorted)
  /\ (query <> EmptyString ->
      search_components params loaded
      = Ranked query (slice sorted (limitOf params)))
  /\ (searchLimit params = None -> limitOf params = ofZ 10)
  /\ (forall limit, searchLimit params = Some limit ->
                    limitOf params = limit)
  /\ (query <> EmptyString -> searchLimit params = None ->
      search_components params loaded = Ranked query (firstn 10 sorted))
  /\ (forall n : Z,
         query <> EmptyString -> searchLimit params = Some (ofZ n) ->
         (0 <= n)%Z ->
         search_components params loaded
         = Ranked query (firstn (Z.to_nat n) sorted))
  /\ (forall q : Q,
         query <> EmptyString -> searchLimit params = Some (Finite q) ->
         (0 <= q)%Q ->
         search_components params loaded
         = Ranked query (firstn (Z.to_nat (truncate q)) sorted))
  /\ (query <> EmptyString -> searchLimit params = Some PlusInfinity ->
      search_components params loaded = Ranked query sorted).
Proof.
  intros query kept sorted.
  assert (Hkept : collectResults query loaded = kept)
    by apply collectResults_filter.
  assert (Hstable : forall v, withScore v sorted = withScore v kept).
  { intros v. subst sorted. unfold sortedResults, withScore.
    rewrite Hkept. apply (sort_keyed score). }
  assert (Hout : query <> EmptyString ->
                 search_components params loaded
                 = Ranked query (slice sorted (limitOf params))).
  { intros Hq. unfold search_components. fold query.
    destruct (String.eqb query EmptyString) eqn:He.
    - apply String.eqb_eq in He. contradiction.
    - reflexivity. }
  assert (Hgiven : forall limit, searchLimit params = Some limit ->
                                 limitOf params = limit).
  { intros limit Hl. unfold limitOf. now rewrite Hl. }
  split; [|split; [|split; [|split; [|split]]]].
  - intros c Hc. subst kept. rewrite filter_In, Z.ltb_lt.
    pose proof (score_nonneg query c) as Hnn.
    split; [intros [_ H]; lia|intros H].
    split; [now apply in_map|lia].
  - subst sorted. unfold sortedResults. rewrite Hkept.
    apply (sort_perm score).
  - apply sortedResults_sorted.
  - exact Hstable.
  - intros l Hl Hv.
    apply (sorted_keyed_unique score); [exact Hl|apply sortedResults_sorted|].
    intros v. change (withScore v l = withScore v sorted).
    now rewrite Hstable.
  - split; [exact Hout|]. split; [unfold limitOf; now intros ->|].
    split; [exact Hgiven|]. split; [|split; [|split]].
    + intros Hq Hl. rewrite (Hout Hq). unfold limitOf. rewrite Hl.
      now rewrite slice_ofZ, slice0_nonneg by lia.
    + intros n Hq Hl Hn. rewrite (Hout Hq), (Hgiven _ Hl).
      now rewrite slice_ofZ, slice0_nonneg by lia.
    + intros q Hq Hl Hn. rewrite (Hout Hq), (Hgiven _ Hl).
      now rewrite slice_nonneg.
    + intros Hq Hl. now rewrite (Hout Hq), (Hgiven _ Hl).
Qed.

Lemma search_filters_sorts_truncates_witness :
  search_components
    {| searchQuery := " Button "; searchLimit := None |}
    [sample "Link" "Navigation" [] "Looks like a button";
     sample "Card" "Cards" [] "A card";
     sample "Button" "Buttons" [] "Press me"]
  = Ranked "button"
      [scoreComponent "button" (sample "Button" "Buttons" [] "Press me");
       scoreComponent "button"
         (sample "Link" "Navigation" [] "Looks like a button")].
Proof.
  pose proof (search_filters_sorts_truncates
                {| searchQuery := " Button "; searchLimit := None |}
                [sample "Link" "Navigation" [] "Looks like a button";
                 sample "Card" "Cards" [] "A card";
                 sample "Button" "Buttons" [] "Press me"])
    as [_ [_ [_ [_ [_ [_ [_ [_ [Hdefault _]]]]]]]]].
  rewrite Hdefault; [reflexivity|vm_compute; discriminate|reflexivity].
Defined.

(** ** Listing *)

(** C10.  In [list_components] a limit of 0 is no limit: the result is
    the one obtained without a limit, every record that passes the
    category filter; the list is cut only for a limit other than 0,
    whole or not. *)
Theorem list_limit_zero_is_no_limit
        (wanted : option string) (loaded : list ComponentMetadata) :
  list_components {| listCategory := wanted; listLimit := Some (ofZ 0) |}
                  loaded
  = list_components {| listCategory := wanted; listLimit := None |} loaded
  /\ components (list_components
                   {| listCategory := wanted; listLimit := Some (ofZ 0) |}
                   loaded)
     = map formatComponentSummary (filterByCategory wanted loaded)
  /\ total (list_components
              {| listCategory := wanted; listLimit := Some (ofZ 0) |} loaded)
     = List.length (filterByCategory wanted loaded)
  /\ (forall limit, limit <> 0%Z ->
        components (list_components
                      {| listCategory := wanted;
                         listLimit := Some (ofZ limit) |}
                      loaded)
        = map formatComponentSummary
              (slice0 (filterByCategory wanted loaded) limit))
  /\ (forall limit, isZero limit = false ->
        components (list_components
                      {| listCategory := wanted; listLimit := Some limit |}
                      loaded)
        = map formatComponentSummary
              (slice (filterByCategory wanted loaded) limit))
  /\ (forall limit, isZero limit = true ->
        list_components {| listCategory := wanted; listLimit := Some limit |}
                        loaded
        = list_components {| listCategory := wanted; listLimit := None |}
                          loaded).
Proof.
  assert (Hcut : forall limit, isZero limit = false ->
            components (list_components
                          {| listCategory := wanted; listLimit := Some limit |}
                          loaded)
            = map formatComponentSummary
                  (slice (filterByCategory wanted loaded) limit)).
  { intros limit Hlimit. unfold list_components, applyLimit; simpl.
    now rewrite Hlimit. }
  split; [reflexivity|]. split; [reflexivity|]. split; [reflexivity|].
  split; [|split; [exact Hcut|]].
  - intros limit Hlimit. rewrite Hcut, slice_ofZ; [reflexivity|].
    simpl. now apply Z.eqb_neq.
  - intros limit Hlimit. unfold list_components, applyLimit; simpl.
    now rewrite Hlimit.
Qed.

Lemma list_limit_zero_is_no_limit_witness :
  components (list_components
                {| listCategory := Some "cards"; listLimit := Some (ofZ 1) |}
                [sample "Link" "Navigation" [] "";
                 sample "Card" "Cards" [] "";
                 sample "GlowCard" "Cards" [] ""])
  = [formatComponentSummary (sample "Card" "Cards" [] "")].
Proof.
  pose proof (list_limit_zero_is_no_limit (Some "cards")
                [sample "Link" "Navigation" [] "";
                 sample "Card" "Cards" [] "";
                 sample "GlowCard" "Cards" [] ""]) as [_ [_ [_ [Hcut _]]]].
  rewrite (Hcut 1%Z) by discriminate.
  reflexivity.
Defined.

(** ** The cache *)

Lemma try_fulfils {A : Type} (m : Fetch.t A) (a : A) :
  exists log r, Fetch.try m (Fetch.ret a) = (log, Some r).
Proof.
  destruct m as [log [r|]]; simpl; eauto.
Qed.

(** The catch-all of [loadComponentsFromGitHub]: its promise is always
    fulfilled. *)
Lemma loadComponentsFromGitHub_fulfils (remote : Remote) :
  exists log loaded, loadComponentsFromGitHub remote = (log, Some loaded).
Proof.
  unfold loadComponentsFromGitHub. apply try_fulfils.
Qed.

Lemma bind_first_request {A B : Type} (req : Request)
      (m : Fetch.t A) (f : A -> Fetch.t B) :
  (exists rest, Fetch.requests m = req :: rest) ->
  exists rest, Fetch.requests (Fetch.bind m f) = req :: rest.
Proof.
  destruct m as [log [a|]]; simpl; intros [rest ->]; [|eauto].
  destruct (f a) as [log' r]; simpl. eauto.
Qed.

Lemma try_first_request {A : Type} (req : Request) (m handler : Fetch.t A) :
  (exists rest, Fetch.requests m = req :: rest) ->
  exists rest, Fetch.requests (Fetch.try m handler) = req :: rest.
Proof.
  destruct m as [log [a|]]; simpl; intros [rest ->]; [eauto|].
  destruct handler as [log' r]; simpl. eauto.
Qed.

(** A recrawl starts by listing the first search path. *)
Lemma loadComponentsFromGitHub_requests (remote : Remote) :
  exists rest,
    Fetch.requests (loadComponentsFromGitHub remote)
    = GetContents "registry/new-york" :: rest.
Proof.
  unfold loadComponentsFromGitHub.
  apply try_first_request, bind_first_request, try_first_request.
  unfold fetchComponentsFromDirectory.
  apply bind_first_request. simpl. eauto.
Qed.

Lemma fresh_true_iff (forceRefresh : bool) (now : Z) (cache : Cache) :
  fresh forceRefresh now cache = true
  <-> forceRefresh = false
      /\ componentsCache cache <> []
      /\ (now - lastCacheUpdate cache < CACHE_DURATION)%Z.
Proof.
  unfold fresh. rewrite !andb_true_iff, negb_true_iff, Z.ltb_lt, Nat.ltb_lt.
  destruct (componentsCache cache); simpl; split; intros [H1 H2].
  - destruct H1; lia.
  - destruct H2 as [H2 _]; contradiction.
  - repeat split; [tauto|discriminate|exact H2].
  - repeat split; [exact H1|lia|tauto].
Qed.

Lemma loadComponents_fresh (now : Z) (remote : Remote) (cache : Cache) :
  componentsCache cache <> [] ->
  (now - lastCacheUpdate cache < CACHE_DURATION)%Z ->
  loadComponents false now remote cache
  = (cache, ([], Some (componentsCache cache))).
Proof.
  intros Hne Hage. unfold loadComponents.
  assert (H : fresh false now cache = true) by now apply fresh_true_iff.
  now rewrite H.
Qed.

Lemma loadComponents_refresh (forceRefresh : bool) (now : Z)
      (remote : Remote) (cache : Cache) :
  fresh forceRefresh now cache = false ->
  exists log loaded,
    loadComponentsFromGitHub remote = (log, Some loaded)
    /\ loadComponents forceRefresh now remote cache
       = ({| componentsCache := loaded; lastCacheUpdate := now |},
          (log, Some loaded)).
Proof.
  intros Hf.
  destruct (loadComponentsFromGitHub_fulfils remote) as [log [loaded H]].
  exists log, loaded. split; [exact H|].
  unfold loadComponents. now rewrite Hf, H.
Qed.

(** C4.  The cache lives 5 minutes.  [loadComponents(false)] on a
    non-empty cache refreshed less than 5 minutes ago returns the cached
    list, leaves the cache as it is and sends no request, so two such
    calls see the same timestamp; [loadComponents(true)] recrawls
    whatever the age of the cache: it sends the listing requests and
    stores the list it loaded with the instant of the call. *)
Theorem cache_ttl_policy (now : Z) (remote : Remote) (cache : Cache) :
  CACHE_DURATION = 300000%Z
  /\ (componentsCache cache <> [] ->
      (now - lastCacheUpdate cache < CACHE_DURATION)%Z ->
      loadComponents false now remote cache
      = (cache, ([], Some (componentsCache cache))))
  /\ (forall (later : Z) (remote' : Remote),
         componentsCache cache <> [] ->
         (now - lastCacheUpdate cache < CACHE_DURATION)%Z ->
         (later - lastCacheUpdate cache < CACHE_DURATION)%Z ->
         let first := loadComponents false now remote cache in
         let second := loadComponents false later remote' (fst first) in
         lastCacheUpdate (fst first) = lastCacheUpdate cache
         /\ lastCacheUpdate (fst second) = lastCacheUpdate cache
         /\ snd second = snd first
         /\ Fetch.requests (snd second) = [])
  /\ (exists rest loaded,
         loadComponentsFromGitHub remote
         = (GetContents "registry/new-york" :: rest, Some loaded)
         /\ loadComponents true now remote cache
            = ({| componentsCache := loaded; lastCacheUpdate := now |},
               (GetContents "registry/new-york" :: rest, Some loaded))).
Proof.
  split; [reflexivity|]. split; [apply loadComponents_fresh|]. split.
  - intros later remote' Hne Hnow Hlater first second.
    subst second first.
    rewrite (loadComponents_fresh now remote cache Hne Hnow). simpl.
    rewrite (loadComponents_fresh later remote' cache Hne Hlater). simpl.
    repeat split.
  - destruct (loadComponents_refresh true now remote cache eq_refl)
      as [log [loaded [Hload Hcall]]].
    destruct (loadComponentsFromGitHub_requests remote) as [rest Hreq].
    rewrite Hload in Hreq. simpl in Hreq. subst log.
    exists rest, loaded. split; assumption.
Qed.

Lemma cache_ttl_policy_witness :
  loadComponents false 299999%Z offline populated
  = (populated, ([], Some (componentsCache populated)))
  /\ lastCacheUpdate
       (fst (loadComponents false 1000%Z offline
               (fst (loadComponents false 299999%Z offline populated))))
     = 0%Z.
Proof.
  pose proof (cache_ttl_policy 299999%Z offline populated)
    as [_ [Hhit [Htwice _]]].
  split.
  - apply Hhit; [discriminate|reflexivity].
  - apply (Htwice 1000%Z offline); [discriminate|reflexivity|reflexivity].
Defined.

(** C1, as the code has it.  A forced or expired refresh stores the
    list that the recrawl returns, with the instant of the call, and
    hands that list to the caller.  The recrawl never raises: it catches
    every failure, and when none of the three listings can be fetched it
    returns the empty list, which then replaces the cache. *)
Theorem refresh_stores_what_recrawl_returns
        (forceRefresh : bool) (now : Z) (remote : Remote) (cache : Cache) :
  fresh forceRefresh now cache = false ->
  exists log loaded,
    loadComponentsFromGitHub remote = (log, Some loaded)
    /\ loadComponents forceRefresh now remote cache
       = ({| componentsCache := loaded; lastCacheUpdate := now |},
          (log, Some loaded))
    /\ (registryNewYork remote = None ->
        srcComponents remote = None ->
        repositoryRoot remote = None ->
        loaded = []).
Proof.
  intros Hf.
  destruct (loadComponents_refresh forceRefresh now remote cache Hf)
    as [log [loaded [Hload Hcall]]].
  exists log, loaded. repeat split; try assumption.
  intros H1 H2 H3. revert Hload.
  unfold loadComponentsFromGitHub, fetchComponentsFromDirectory, Fetch.get.
  rewrite H1, H2, H3. simpl. congruence.
Qed.

Lemma refresh_stores_what_recrawl_returns_witness :
  exists log,
    loadComponents false 300000%Z offline populated
    = ({| componentsCache := []; lastCacheUpdate := 300000%Z |},
       (log, Some [])).
Proof.
  destruct (refresh_stores_what_recrawl_returns false 300000%Z offline
              populated eq_refl) as [log [loaded [_ [Hcall Hempty]]]].
  exists log. rewrite Hcall, (Hempty eq_refl eq_refl eq_refl). reflexivity.
Defined.

(** C1, as stated, fails: a forced refresh while GitHub cannot be
    reached empties a populated cache, moves its timestamp, and returns
    the empty list instead of raising. *)
Lemma failed_refresh_empties_cache :
  let after := loadComponents true 1%Z offline populated in
  fst after = {| componentsCache := []; lastCacheUpdate := 1%Z |}
  /\ Fetch.outcome (snd after) = Some []
  /\ fst after <> populated.
Proof.
  vm_compute. repeat split. discriminate.
Qed.

(** ** Sets of strings *)

Lemma has_In (x : string) (set : StringSet) : has x set = true <-> In x set.
Proof.
  unfold has. rewrite existsb_exists. split.
  - intros [y [Hy Heq]]. apply String.eqb_eq in Heq. now subst.
  - intros H. exists x. now rewrite String.eqb_refl.
Qed.

Lemma add_In (x y : string) (set : StringSet) :
  In y (add x set) <-> y = x \/ In y set.
Proof.
  unfold add. destruct (has x set) eqn:Hx.
  - apply has_In in Hx. split; [tauto|]. intros [->|H]; assumption.
  - rewrite in_app_iff. simpl. split; intros H; intuition congruence.
Qed.

Lemma add_NoDup (x : string) (set : StringSet) :
  NoDup set -> NoDup (add x set).
Proof.
  intros Hnd. unfold add. destruct (has x set) eqn:Hx; [exact Hnd|].
  assert (Hnot : ~ In x set).
  { intros Hin. apply has_In in Hin. congruence. }
  apply NoDup_app; [exact Hnd|repeat constructor; simpl; tauto|].
  intros y Hy [<-|[]]. contradiction.
Qed.

Section Collect.

Let addAll (l : list string) (set : StringSet) : StringSet :=
  fold_left (fun set d => add d set) l set.

Lemma addAll_In (l : list string) (set : StringSet) (y : string) :
  In y (addAll l set) <-> In y set \/ In y l.
Proof.
  revert set. induction l as [|x l IH]; intros set; simpl.
  - tauto.
  - unfold addAll in *. simpl. rewrite IH, add_In. intuition congruence.
Qed.

Lemma addAll_NoDup (l : list string) (set : StringSet) :
  NoDup set -> NoDup (addAll l set).
Proof.
  revert set. induction l as [|x l IH]; intros set H; simpl; [exact H|].
  apply IH, add_NoDup, H.
Qed.

(** Putting in what is already there changes nothing. *)
Lemma addAll_present (l : list string) (set : StringSet) :
  (forall x, In x l -> In x set) -> addAll l set = set.
Proof.
  induction l as [|x l IH]; intros H; simpl; [reflexivity|].
  assert (Hx : add x set = set).
  { unfold add. replace (has x set) with true; [reflexivity|].
    symmetry. apply has_In, H. now left. }
  unfold addAll in *. simpl. rewrite Hx.
  apply IH. intros y Hy. apply H. now right.
Qed.

Lemma addAll_firstOccurrences (l : list string) (set : StringSet) :
  addAll l set = set ++ firstOccurrences set l.
Proof.
  revert set. induction l as [|x l IH]; intros set; simpl.
  - now rewrite app_nil_r.
  - unfold addAll in *. simpl. rewrite IH. unfold add.
    destruct (has x set); [reflexivity|].
    now rewrite <- app_assoc.
Qed.

End Collect.

Lemma fold_addDependency (ms : list MatchResult) (set : StringSet) :
  fold_left addDependency ms set
  = fold_left (fun set d => add d set) (filter external (map capture ms)) set.
Proof.
  revert set. induction ms as [|m ms IH]; intros set; simpl; [reflexivity|].
  rewrite IH. unfold addDependency, external.
  destruct (negb (startsWith (capture m) ".")
            && negb (startsWith (capture m) "node:")); reflexivity.
Qed.

Lemma extractDependencies_collect (content : string) :
  extractDependencies content
  = collectDependencies (capturedSpecifiers content).
Proof.
  unfold extractDependencies, collectDependencies, capturedSpecifiers,
    importSpecifiers, requireSpecifiers.
  rewrite !fold_addDependency, filter_app, fold_left_app. reflexivity.
Qed.

Lemma collectDependencies_In (specifiers : list string) (d : string) :
  In d (collectDependencies specifiers)
  <-> In d specifiers /\ external d = true.
Proof.
  unfold collectDependencies. rewrite addAll_In, filter_In. simpl. tauto.
Qed.

Lemma collectDependencies_NoDup (specifiers : list string) :
  NoDup (collectDependencies specifiers).
Proof.
  apply addAll_NoDup. constructor.
Qed.

Lemma external_iff (d : string) :
  external d = true
  <-> startsWith d "." = false /\ startsWith d "node:" = false.
Proof.
  unfold external. rewrite andb_true_iff, !negb_true_iff. tauto.
Qed.

(** ** Tags and dependencies *)

Lemma addIf_NoDup (cond : bool) (tag : string) (set : StringSet) :
  NoDup set -> NoDup (addIf cond tag set).
Proof.
  intros H. unfold addIf. destruct cond; [now apply add_NoDup|exact H].
Qed.

Lemma extractTags_NoDup (content : string) : NoDup (extractTags content).
Proof.
  unfold extractTags. repeat apply addIf_NoDup. constructor.
Qed.

Lemma extractTags_in_order (content : string) :
  exists keep : string -> bool, extractTags content = filter keep tagOrder.
Proof.
  unfold extractTags.
  generalize (includes content "@keyframes" || includes content "animation").
  generalize (includes content "transition" || includes content "transform").
  generalize (includes content "onClick" || includes content "onChange"
              || includes content "onHover").
  generalize (includes content "gradient").
  generalize (includes content "Tailwind" || includes content "className").
  generalize (includes content "styled").
  generalize (includes content "flex" || includes content "grid").
  generalize (includes content "responsive" || includes content "md:"
              || includes content "lg:").
  generalize (includes content "useRef" || includes content "useEffect"
              || includes content "useState").
  generalize (includes content "forwardRef").
  generalize (includes content "children").
  intros b11 b10 b9 b8 b7 b6 b5 b4 b3 b2 b1.
  exists (fun t =>
            if String.eqb t "animation" then b1
            else if String.eqb t "animated" then b2
            else if String.eqb t "interactive" then b3
            else if String.eqb t "gradient" then b4
            else if String.eqb t "tailwind" then b5
            else if String.eqb t "styled-components" then b6
            else if String.eqb t "layout" then b7
            else if String.eqb t "responsive" then b8
            else if String.eqb t "hooks" then b9
            else if String.eqb t "composable" then b10
            else b11).
  destruct b1, b2, b3, b4, b5, b6, b7, b8, b9, b10, b11; reflexivity.
Qed.

(** C7, as the code has it.  The tag list and the dependency list have
    no duplicates and are in insertion order: the tags in the order in
    which the code tests for them, the dependencies in the order in
    which the content first declares them, imports before requires. *)
Theorem tags_and_dependencies_in_insertion_order (content : string) :
  NoDup (extractTags content)
  /\ NoDup (extractDependencies content)
  /\ (exists keep : string -> bool,
         extractTags content = filter keep tagOrder)
  /\ extractDependencies content
     = firstOccurrences [] (filter external (capturedSpecifiers content)).
Proof.
  split; [apply extractTags_NoDup|].
  split; [rewrite extractDependencies_collect;
          apply collectDependencies_NoDup|].
  split; [apply extractTags_in_order|].
  rewrite extractDependencies_collect. unfold collectDependencies.
  apply (addAll_firstOccurrences _ []).
Qed.

(** C7, as stated, fails: neither list is sorted.  A file that mentions
    an animation and a transition gets "animation" before "animated",
    and two files with the same imports in different orders get
    different dependency lists. *)
Lemma tags_and_dependencies_not_sorted :
  extractTags reactThenAxios = ["animation"; "animated"]
  /\ extractDependencies reactThenAxios = ["react"; "axios"]
  /\ extractDependencies axiosThenReact = ["axios"; "react"]
  /\ ~ sortedStrings (extractTags reactThenAxios)
  /\ ~ sortedStrings (extractDependencies reactThenAxios).
Proof.
  assert (Htags : extractTags reactThenAxios = ["animation"; "animated"])
    by (vm_compute; reflexivity).
  assert (Hdeps : extractDependencies reactThenAxios = ["react"; "axios"])
    by (vm_compute; reflexivity).
  split; [exact Htags|]. split; [exact Hdeps|].
  split; [vm_compute; reflexivity|].
  rewrite Htags, Hdeps. unfold sortedStrings.
  split; intros H; inversion H as [|a l Hl Hhd]; subst;
    inversion Hhd as [|b l' Hle]; subst; vm_compute in Hle; discriminate.
Qed.

(** ** Descriptions *)

(** C9 against the code.  Whenever the content holds a documentation
    block, [extractDescription] returns "*" and not the first text line
    of the block: its second pattern matches at the opening of the
    block and captures the second asterisk.  So it does for a file
    whose block starts with "A glowing call-to-action button.".  For a
    file whose only comment is "// " the description is empty.  The
    other two cases are as the claim has them: the text of the first
    single-line comment, trimmed, and otherwise the generated
    sentence. *)
Theorem description_of_documented_file :
  (forall content componentName m,
      exec jsdocPattern content = Some m ->
      extractDescription content componentName = "*")
  /\ extractDescription documentedFile "GlowButton" = "*"
  /\ extractDescription "// " "GlowButton" = EmptyString
  /\ extractDescription ("// A glowing button" ++ LF ++ "export {}")
                        "GlowButton"
     = "A glowing button"
  /\ extractDescription "export {}" "GlowButton"
     = "GlowButton component from VengeanceUI".
Proof.
  split; [exact jsdoc_description|].
  repeat split; vm_compute; reflexivity.
Qed.

Lemma description_of_documented_file_witness :
  extractDescription
    ("/**" ++ LF ++ " * Card with a gradient border." ++ LF ++ " */")
    "GradientCard"
  = "*".
Proof.
  destruct description_of_documented_file as [Hblock _].
  eapply Hblock. vm_compute. reflexivity.
Defined.

(** ** The crawl *)

Lemma Entry_induction (P : Entry -> Prop) :
  (forall item listing raw,
      match listing with
      | Some items => Forall P items
      | None => True
      end ->
      P (mkEntry item listing raw)) ->
  forall e, P e.
Proof.
  intros H. fix IH 1. intros [item listing raw]. apply H.
  destruct listing as [items|]; [|exact I].
  induction items as [|e items IHitems]; constructor; [apply IH|exact IHitems].
Qed.

Lemma outcome_bind {A B : Type} (m : Fetch.t A) (f : A -> Fetch.t B) :
  Fetch.outcome (Fetch.bind m f)
  = match Fetch.outcome m with
    | Some a => Fetch.outcome (f a)
    | None => None
    end.
Proof.
  destruct m as [log [a|]]; simpl; [|reflexivity].
  now destruct (f a).
Qed.

Lemma requests_bind {A B : Type} (m : Fetch.t A) (f : A -> Fetch.t B) :
  Fetch.requests (Fetch.bind m f)
  = Fetch.requests m
    ++ match Fetch.outcome m with
       | Some a => Fetch.requests (f a)
       | None => []
       end.
Proof.
  destruct m as [log [a|]]; simpl; [|now rewrite app_nil_r].
  now destruct (f a).
Qed.

Lemma outcome_try {A : Type} (m handler : Fetch.t A) :
  Fetch.outcome (Fetch.try m handler)
  = match Fetch.outcome m with
    | Some a => Some a
    | None => Fetch.outcome handler
    end.
Proof.
  destruct m as [log [a|]]; simpl; [reflexivity|]. now destruct handler.
Qed.

Lemma requests_try {A : Type} (m handler : Fetch.t A) :
  Fetch.requests (Fetch.try m handler)
  = Fetch.requests m
    ++ match Fetch.outcome m with
       | Some _ => []
       | None => Fetch.requests handler
       end.
Proof.
  destruct m as [log [a|]]; simpl; [now rewrite app_nil_r|].
  now destruct handler.
Qed.

(** The loop inside [visit] is [visitAll]. *)
Lemma visit_dir (item : GitHubContentItem) (listing : option (list Entry))
      (raw : option Data) :
  String.eqb (itemType item) "dir" = true ->
  visit (mkEntry item listing raw)
  = Fetch.try (items <- Fetch.get (GetContents (itemPath item)) listing ;;
               visitAll items)
              (Fetch.ret []).
Proof.
  intros Hdir. simpl. rewrite Hdir.
  assert (Hloop : forall items,
             (fix loop (items0 : list Entry)
                : Fetch.t (list ComponentMetadata) :=
                match items0 with
                | [] => Fetch.ret []
                | e' :: rest =>
                    pushed <- visit e' ;;
                    more <- loop rest ;;
                    Fetch.ret (pushed ++ more)
                end) items = visitAll items).
  { induction items as [|e items IH]; simpl; [reflexivity|]. now rewrite IH. }
  destruct listing as [items|]; simpl; [|reflexivity].
  now rewrite Hloop.
Qed.

Lemma visitAll_cons_outcome (e : Entry) (rest : list Entry)
      (x y : list ComponentMetadata) :
  Fetch.outcome (visit e) = Some x ->
  Fetch.outcome (visitAll rest) = Some y ->
  Fetch.outcome (visitAll (e :: rest)) = Some (x ++ y).
Proof.
  intros Hx Hy. simpl. rewrite outcome_bind, Hx, outcome_bind, Hy.
  reflexivity.
Qed.

Lemma visit_file_outcome (item : GitHubContentItem) (raw : option Data) :
  Fetch.outcome
    (Fetch.try
       (component <- fetchComponentMetadata item raw ;;
        match component with
        | Some c => Fetch.ret [c]
        | None => Fetch.ret []
        end)
       (Fetch.ret []))
  = Some match downloadUrl item, raw with
         | Some _, Some (Text content) => [recordOf item content]
         | _, _ => []
         end.
Proof.
  unfold fetchComponentMetadata.
  destruct (downloadUrl item) as [url|]; [|reflexivity].
  destruct raw as [[content|]|]; reflexivity.
Qed.

Lemma visit_outcome (e : Entry) :
  Fetch.outcome (visit e) = Some (flat_map fileRecords (reachedFiles e)).
Proof.
  induction e as [item listing raw IH] using Entry_induction.
  destruct (String.eqb (itemType item) "dir") eqn:Hdir.
  - rewrite (visit_dir _ _ _ Hdir), outcome_try, outcome_bind.
    simpl reachedFiles. rewrite Hdir.
    destruct listing as [items|]; simpl; [|reflexivity].
    assert (Hall : Fetch.outcome (visitAll items)
                   = Some (flat_map fileRecords (flat_map reachedFiles items))).
    { induction items as [|e items IHitems]; [reflexivity|].
      inversion IH as [|? ? He Hitems]; subst.
      rewrite (visitAll_cons_outcome _ _ _ _ He (IHitems Hitems)).
      simpl. now rewrite flat_map_app. }
    now rewrite Hall.
  - simpl. rewrite Hdir.
    destruct (String.eqb (itemType item) "file") eqn:Hfile; simpl;
      [|reflexivity].
    destruct (skipped (itemName item)) eqn:Hskip; simpl; [reflexivity|].
    rewrite visit_file_outcome, app_nil_r. reflexivity.
Qed.

Lemma visitAll_outcome (items : list Entry) :
  Fetch.outcome (visitAll items) = Some (componentsUnder items).
Proof.
  unfold componentsUnder.
  induction items as [|e items IH]; [reflexivity|].
  rewrite (visitAll_cons_outcome _ _ _ _ (visit_outcome e) IH).
  simpl. now rewrite flat_map_app.
Qed.

Lemma requests_visitAll (items : list Entry) :
  Fetch.requests (visitAll items)
  = flat_map (fun e => Fetch.requests (visit e)) items.
Proof.
  induction items as [|e items IH]; [reflexivity|].
  simpl visitAll. rewrite requests_bind, visit_outcome, requests_bind,
    visitAll_outcome, IH.
  simpl. now rewrite app_nil_r.
Qed.

Lemma requests_try_ret {A : Type} (m : Fetch.t A) (a : A) :
  Fetch.requests (Fetch.try m (Fetch.ret a)) = Fetch.requests m.
Proof.
  rewrite requests_try. simpl. destruct (Fetch.outcome m); apply app_nil_r.
Qed.

Lemma fileRecords_In (file : GitHubContentItem * option Data)
      (c : ComponentMetadata) :
  In c (fileRecords file)
  <-> exists content,
        snd file = Some (Text content)
        /\ skipped (itemName (fst file)) = false
        /\ downloadUrl (fst file) <> None
        /\ c = recordOf (fst file) content.
Proof.
  destruct file as [item raw]; simpl.
  destruct (skipped (itemName item)).
  - split; [contradiction|]. intros (content & _ & H & _). discriminate.
  - destruct (downloadUrl item) as [url|], raw as [[content|]|]; simpl; split;
      try contradiction.
    + intros [<-|[]]. exists content. repeat split. discriminate.
    + intros (content' & H & _ & _ & ->). injection H as ->. now left.
    + intros (content' & H & _). discriminate.
    + intros (content' & H & _). discriminate.
    + intros (content' & _ & _ & H & _). contradiction.
    + intros (content' & H & _). discriminate.
    + intros (content' & H & _). discriminate.
Qed.

Lemma fetchComponentsFromDirectory_outcome (dirPath : string)
      (response : option (list Entry)) :
  Fetch.outcome (fetchComponentsFromDirectory dirPath response)
  = option_map componentsUnder response.
Proof.
  unfold fetchComponentsFromDirectory, Fetch.get.
  rewrite outcome_bind. simpl.
  destruct response as [items|]; simpl; [apply visitAll_outcome|reflexivity].
Qed.

Lemma componentsUnder_In (items : list Entry) (c : ComponentMetadata) :
  In c (componentsUnder items)
  <-> exists item content,
        In (item, Some (Text content)) (flat_map reachedFiles items)
        /\ skipped (itemName item) = false
        /\ downloadUrl item <> None
        /\ c = recordOf item content.
Proof.
  unfold componentsUnder. rewrite in_flat_map. split.
  - intros [[item raw] [Hin Hc]].
    apply fileRecords_In in Hc as (content & Hraw & Hs & Hu & ->).
    simpl in *. subst raw. eauto 6.
  - intros (item & content & Hin & Hs & Hu & ->).
    exists (item, Some (Text content)). split; [exact Hin|].
    apply fileRecords_In. exists content. auto.
Qed.

(** X1.  [fetchComponentsFromDirectory] rejects exactly when its own
    listing request fails.  Otherwise it returns, depth first in listing
    order, the record of every file entry under the directory whose
    name passes the filter, which has a download URL and for which the
    download delivers a string; the record is made from that string.  A
    subdirectory that cannot be listed, a file that cannot be downloaded
    and a file for which the download delivers something else than a
    string (its body was valid JSON other than a string) are passed
    over: such a file is downloaded and gives no record. *)
Theorem directory_crawl_result (dirPath : string)
        (response : option (list Entry)) :
  Fetch.outcome (fetchComponentsFromDirectory dirPath response)
  = option_map componentsUnder response
  /\ (forall items c,
         In c (componentsUnder items)
         <-> exists item content,
               In (item, Some (Text content)) (flat_map reachedFiles items)
               /\ skipped (itemName item) = false
               /\ downloadUrl item <> None
               /\ c = recordOf item content)
  /\ (forall items items',
         componentsUnder (items ++ items')
         = componentsUnder items ++ componentsUnder items')
  /\ (forall item url,
         itemType item = "file" -> skipped (itemName item) = false ->
         downloadUrl item = Some url ->
         fetchComponentsFromDirectory dirPath
           (Some [mkEntry item None (Some NonString)])
         = ([GetContents dirPath; GetRaw url], Some [])).
Proof.
  split; [apply fetchComponentsFromDirectory_outcome|].
  split; [apply componentsUnder_In|].
  split.
  - intros items items'. unfold componentsUnder. now rewrite !flat_map_app.
  - intros item url Hfile Hskip Hurl.
    unfold fetchComponentsFromDirectory, fetchComponentMetadata. simpl.
    rewrite Hfile, Hskip. simpl.
    unfold fetchComponentMetadata. rewrite Hurl. reflexivity.
Qed.

Lemma directory_crawl_result_witness :
  In (recordOf (mkItem "Glow.tsx" "ui/Glow.tsx" "file"
                       (Some "https://raw/Glow.tsx") "https://html/Glow.tsx"
                       None)
               "export {}")
     (componentsUnder
        [mkEntry (mkItem "ui" "ui" "dir" None "" None)
                 (Some [mkEntry (mkItem "Glow.test.tsx" "ui/Glow.test.tsx"
                                        "file" (Some "https://raw/t") "" None)
                                None (Some (Text "test"));
                        mkEntry (mkItem "Glow.tsx" "ui/Glow.tsx" "file"
                                        (Some "https://raw/Glow.tsx")
                                        "https://html/Glow.tsx" None)
                                None (Some (Text "export {}"))])
                 None]).
Proof.
  apply (proj1 (proj2 (directory_crawl_result "ui" None))).
  exists (mkItem "Glow.tsx" "ui/Glow.tsx" "file"
                 (Some "https://raw/Glow.tsx") "https://html/Glow.tsx" None),
    "export {}".
  repeat split; [vm_compute; auto|discriminate].
Defined.

Lemma visit_raw_requests (e : Entry) (url : string) :
  In (GetRaw url) (Fetch.requests (visit e))
  <-> exists item raw,
        In (item, raw) (reachedFiles e)
        /\ skipped (itemName item) = false
        /\ downloadUrl item = Some url.
Proof.
  induction e as [item listing raw IH] using Entry_induction.
  destruct (String.eqb (itemType item) "dir") eqn:Hdir.
  - rewrite (visit_dir _ _ _ Hdir), requests_try_ret, requests_bind.
    simpl reachedFiles. rewrite Hdir.
    destruct listing as [items|]; simpl.
    + rewrite requests_visitAll.
      split.
      * intros [H|H]; [discriminate|].
        apply in_flat_map in H as [e [He H]].
        rewrite Forall_forall in IH. apply (IH e He) in H
          as (item' & raw' & Hin & Hs & Hu).
        exists item', raw'. split; [|auto].
        apply in_flat_map. eauto.
      * intros (item' & raw' & Hin & Hs & Hu). right.
        apply in_flat_map in Hin as [e [He Hin]].
        apply in_flat_map. exists e. split; [exact He|].
        rewrite Forall_forall in IH. apply (IH e He). eauto.
    + split; [intros [H|[]]; discriminate|].
      intros (item' & raw' & [] & _).
  - simpl. rewrite Hdir.
    destruct (String.eqb (itemType item) "file") eqn:Hfile; simpl.
    + destruct (skipped (itemName item)) eqn:Hskip; simpl.
      * split; [contradiction|].
        intros (item' & raw' & [H|[]] & Hs & _).
        injection H as <- <-. congruence.
      * unfold fetchComponentMetadata.
        destruct (downloadUrl item) as [u|] eqn:Hurl.
        -- destruct raw as [[content|]|]; simpl.
           ++ split.
              ** intros [H|[]]. injection H as ->. eauto 6.
              ** intros (item' & raw' & [H|[]] & _ & Hu).
                 injection H as <- <-. left. congruence.
           ++ split.
              ** intros [H|[]]. injection H as ->. eauto 6.
              ** intros (item' & raw' & [H|[]] & _ & Hu).
                 injection H as <- <-. left. congruence.
           ++ split.
              ** intros [H|[]]. injection H as ->. eauto 6.
              ** intros (item' & raw' & [H|[]] & _ & Hu).
                 injection H as <- <-. left. congruence.
        -- simpl. split; [contradiction|].
           intros (item' & raw' & [H|[]] & _ & Hu).
           injection H as <- <-. congruence.
    + split; [contradiction|]. intros (item' & raw' & [] & _).
Qed.

(** X2.  What the crawl downloads: a raw-content request is sent for a
    URL exactly when it is the download URL of a reached file whose
    name passes the filter.  No test, spec or story file, no file whose
    name starts with an underscore and no file without a source
    extension is ever downloaded. *)
Theorem crawl_downloads_only_component_files
        (dirPath : string) (items : list Entry) (url : string) :
  In (GetRaw url)
     (Fetch.requests (fetchComponentsFromDirectory dirPath (Some items)))
  <-> exists item raw,
        In (item, raw) (flat_map reachedFiles items)
        /\ skipped (itemName item) = false
        /\ downloadUrl item = Some url.
Proof.
  unfold fetchComponentsFromDirectory, Fetch.get.
  rewrite requests_bind. simpl. rewrite requests_visitAll.
  split.
  - intros [H|H]; [discriminate|].
    apply in_flat_map in H as [e [He H]].
    apply visit_raw_requests in H as (item & raw & Hin & Hs & Hu).
    exists item, raw. split; [|auto]. apply in_flat_map. eauto.
  - intros (item & raw & Hin & Hs & Hu). right.
    apply in_flat_map in Hin as [e [He Hin]].
    apply in_flat_map. exists e. split; [exact He|].
    apply visit_raw_requests. eauto.
Qed.

Lemma crawl_downloads_only_component_files_witness :
  ~ In (GetRaw "https://raw/t")
       (Fetch.requests
          (fetchComponentsFromDirectory "ui"
             (Some [mkEntry (mkItem "Glow.test.tsx" "ui/Glow.test.tsx" "file"
                                    (Some "https://raw/t") "" None)
                            None (Some (Text "test"))]))).
Proof.
  intros H.
  apply crawl_downloads_only_component_files in H
    as (item & raw & Hin & Hs & Hu).
  vm_compute in Hin. destruct Hin as [Hin|[]].
  injection Hin as <- <-. vm_compute in Hs. discriminate.
Defined.

Lemma recordOf_consistent (item : GitHubContentItem) (content : string) :
  consistent (recordOf item content).
Proof. repeat split. Qed.

Lemma componentsUnder_consistent (items : list Entry) :
  Forall consistent (componentsUnder items).
Proof.
  apply Forall_forall. intros c Hc.
  apply componentsUnder_In in Hc as (item & content & _ & _ & _ & ->).
  apply recordOf_consistent.
Qed.

Lemma loadComponentsFromGitHub_outcome (remote : Remote) :
  Fetch.outcome (loadComponentsFromGitHub remote)
  = Some match fromSearchPaths remote with
         | [] => underPath (repositoryRoot remote)
         | found => found
         end.
Proof.
  unfold loadComponentsFromGitHub, fromSearchPaths.
  pose proof (fetchComponentsFromDirectory_outcome "registry/new-york"
                (registryNewYork remote)) as H1.
  pose proof (fetchComponentsFromDirectory_outcome "src/components"
                (srcComponents remote)) as H2.
  pose proof (fetchComponentsFromDirectory_outcome ""
                (repositoryRoot remote)) as H3.
  rewrite outcome_try, outcome_bind, outcome_try, H1.
  assert (E1 : match option_map componentsUnder (registryNewYork remote) with
               | Some a => Some a
               | None => Fetch.outcome (Fetch.ret [])
               end = Some (underPath (registryNewYork remote))).
  { destruct (registryNewYork remote); reflexivity. }
  rewrite E1, outcome_bind, outcome_try, H2.
  assert (E2 : match option_map componentsUnder (srcComponents remote) with
               | Some a => Some a
               | None => Fetch.outcome (Fetch.ret [])
               end = Some (underPath (srcComponents remote))).
  { destruct (srcComponents remote); reflexivity. }
  rewrite E2.
  destruct (underPath (registryNewYork remote)
            ++ underPath (srcComponents remote)) as [|c found] eqn:Hfound.
  - simpl. rewrite outcome_bind, H3.
    destruct (repositoryRoot remote); reflexivity.
  - reflexivity.
Qed.

(** X3.  What a recrawl returns.  The components found under the two
    search paths, registry first, when there are any; a search path
    whose listing fails counts for nothing.  Only when the two give
    nothing is the repository root crawled, and a root that cannot be
    listed gives the empty list.  When the search paths give a
    component, the recrawl does not depend on the root at all.  A
    component is found for a file reached under a path when the name of
    the file passes the filter, it has a download URL and the download
    delivers a string; so a search path whose files are all delivered
    as something else counts for nothing as well. *)
Theorem recrawl_result (remote : Remote) :
  Fetch.outcome (loadComponentsFromGitHub remote)
  = Some match fromSearchPaths remote with
         | [] => underPath (repositoryRoot remote)
         | found => found
         end
  /\ (fromSearchPaths remote <> [] ->
      forall root,
        loadComponentsFromGitHub
          {| registryNewYork := registryNewYork remote;
             srcComponents := srcComponents remote;
             repositoryRoot := root |}
        = loadComponentsFromGitHub remote)
  /\ (forall c,
         In c (fromSearchPaths remote)
         <-> exists items item content,
               (registryNewYork remote = Some items
                \/ srcComponents remote = Some items)
               /\ In (item, Some (Text content)) (flat_map reachedFiles items)
               /\ skipped (itemName item) = false
               /\ downloadUrl item <> None
               /\ c = recordOf item content)
  /\ (forall item,
         registryNewYork remote = Some [mkEntry item None (Some NonString)] ->
         srcComponents remote = None ->
         Fetch.outcome (loadComponentsFromGitHub remote)
         = Some (underPath (repositoryRoot remote))).
Proof.
  split; [apply loadComponentsFromGitHub_outcome|].
  assert (Hnone : forall item,
             componentsUnder [mkEntry item None (Some NonString)] = []).
  { intros item. unfold componentsUnder. simpl.
    destruct (String.eqb (itemType item) "dir"); [reflexivity|].
    destruct (String.eqb (itemType item) "file"); [|reflexivity].
    simpl. destruct (skipped (itemName item)); [reflexivity|].
    destruct (downloadUrl item); reflexivity. }
  split; [|split].
  2:{ intros c. unfold fromSearchPaths. rewrite in_app_iff. split.
      - intros [H|H].
        + destruct (registryNewYork remote) as [items|]; [|contradiction].
          apply componentsUnder_In in H as (item & content & H).
          exists items, item, content. tauto.
        + destruct (srcComponents remote) as [items|]; [|contradiction].
          apply componentsUnder_In in H as (item & content & H).
          exists items, item, content. tauto.
      - intros (items & item & content & [Hp|Hp] & H); rewrite Hp;
          [left|right]; apply componentsUnder_In; eauto. }
  2:{ intros item Hreg Hsrc. rewrite loadComponentsFromGitHub_outcome.
      unfold fromSearchPaths. rewrite Hreg, Hsrc. simpl.
      now rewrite Hnone. }
  intros Hfound root.
  unfold loadComponentsFromGitHub; simpl.
  pose proof (fetchComponentsFromDirectory_outcome "registry/new-york"
                (registryNewYork remote)) as H1.
  pose proof (fetchComponentsFromDirectory_outcome "src/components"
                (srcComponents remote)) as H2.
  assert (E1 : Fetch.outcome
                 (Fetch.try (fetchComponentsFromDirectory "registry/new-york"
                               (registryNewYork remote)) (Fetch.ret []))
               = Some (underPath (registryNewYork remote))).
  { rewrite outcome_try, H1. destruct (registryNewYork remote); reflexivity. }
  assert (E2 : Fetch.outcome
                 (Fetch.try (fetchComponentsFromDirectory "src/components"
                               (srcComponents remote)) (Fetch.ret []))
               = Some (underPath (srcComponents remote))).
  { rewrite outcome_try, H2. destruct (srcComponents remote); reflexivity. }
  destruct (Fetch.try (fetchComponentsFromDirectory "registry/new-york"
                         (registryNewYork remote)) (Fetch.ret []))
    as [l1 [x|]]; [|discriminate].
  destruct (Fetch.try (fetchComponentsFromDirectory "src/components"
                         (srcComponents remote)) (Fetch.ret []))
    as [l2 [y|]]; [|discriminate].
  simpl in E1, E2. injection E1 as ->. injection E2 as ->.
  unfold fromSearchPaths in Hfound. simpl.
  destruct (underPath (registryNewYork remote)
            ++ underPath (srcComponents remote)); [contradiction|].
  reflexivity.
Qed.

Lemma recrawl_result_witness :
  loadComponentsFromGitHub
    {| registryNewYork :=
         Some [mkEntry (mkItem "Glow.tsx" "registry/new-york/Glow.tsx" "file"
                               (Some "https://raw/Glow.tsx")
                               "https://html/Glow.tsx" (Some 12%Z))
                       None (Some (Text "export {}"))];
       srcComponents := None;
       repositoryRoot := Some [] |}
  = loadComponentsFromGitHub
      {| registryNewYork :=
           Some [mkEntry (mkItem "Glow.tsx" "registry/new-york/Glow.tsx" "file"
                                 (Some "https://raw/Glow.tsx")
                                 "https://html/Glow.tsx" (Some 12%Z))
                         None (Some (Text "export {}"))];
         srcComponents := None;
         repositoryRoot := None |}.
Proof.
  apply (proj2 (recrawl_result
    {| registryNewYork :=
         Some [mkEntry (mkItem "Glow.tsx" "registry/new-york/Glow.tsx" "file"
                               (Some "https://raw/Glow.tsx")
                               "https://html/Glow.tsx" (Some 12%Z))
                       None (Some (Text "export {}"))];
       srcComponents := None;
       repositoryRoot := None |})).
  vm_compute. discriminate.
Defined.

Lemma recrawl_consistent (remote : Remote) (found : list ComponentMetadata) :
  Fetch.outcome (loadComponentsFromGitHub remote) = Some found ->
  Forall consistent found.
Proof.
  rewrite loadComponentsFromGitHub_outcome. intros H. injection H as <-.
  assert (Hpath : forall r, Forall consistent (underPath r)).
  { intros [items|]; [apply componentsUnder_consistent|constructor]. }
  destruct (fromSearchPaths remote) eqn:Hf; [apply Hpath|].
  rewrite <- Hf. unfold fromSearchPaths.
  apply Forall_app. split; apply Hpath.
Qed.

(** X4.  What every call of [loadComponents] keeps.  The list it
    returns is the list the cache holds afterwards; either the cache is
    left as it was and no request is sent, or its timestamp is the
    instant of the call; and if the derived fields of every cached
    record were the extractions of its own name and code before the
    call, they are so after it. *)
Theorem cache_invariant (forceRefresh : bool) (now : Z) (remote : Remote)
        (cache : Cache) :
  let after := fst (loadComponents forceRefresh now remote cache) in
  let answer := snd (loadComponents forceRefresh now remote cache) in
  Fetch.outcome answer = Some (componentsCache after)
  /\ ((after = cache /\ Fetch.requests answer = [])
      \/ lastCacheUpdate after = now)
  /\ (Forall consistent (componentsCache cache) ->
      Forall consistent (componentsCache after)).
Proof.
  unfold loadComponents.
  destruct (fresh forceRefresh now cache) eqn:Hfresh; simpl.
  - repeat split; auto.
  - destruct (loadComponentsFromGitHub_fulfils remote) as [log [found H]].
    rewrite H. simpl. repeat split; auto.
    intros _. apply (recrawl_consistent remote). now rewrite H.
Qed.

Lemma cache_invariant_witness :
  Forall consistent
    (componentsCache
       (fst (loadComponents true 5%Z
               {| registryNewYork :=
                    Some [mkEntry (mkItem "Glow.tsx" "Glow.tsx" "file"
                                          (Some "https://raw/Glow.tsx")
                                          "https://html/Glow.tsx" None)
                                  None (Some (Text "export {}"))];
                  srcComponents := None;
                  repositoryRoot := None |}
               initialCache))).
Proof.
  apply (cache_invariant true 5%Z). constructor.
Defined.

(** X5.  An empty cache is never served: with no cached component
    every call recrawls, whatever the age of the cache and without
    [forceRefresh].  So after a recrawl that found nothing, the next
    call sends the listing requests again. *)
Theorem empty_cache_always_recrawls (forceRefresh : bool) (now : Z)
        (remote : Remote) (cache : Cache) :
  componentsCache cache = [] ->
  (exists rest,
      Fetch.requests (snd (loadComponents forceRefresh now remote cache))
      = GetContents "registry/new-york" :: rest)
  /\ lastCacheUpdate (fst (loadComponents forceRefresh now remote cache))
     = now
  /\ forall later remote',
       componentsCache (fst (loadComponents forceRefresh now remote cache))
       = [] ->
       exists rest,
         Fetch.requests
           (snd (loadComponents false later remote'
                   (fst (loadComponents forceRefresh now remote cache))))
         = GetContents "registry/new-york" :: rest.
Proof.
  assert (Hempty : forall f t r c,
             componentsCache c = [] ->
             (exists rest,
                 Fetch.requests (snd (loadComponents f t r c))
                 = GetContents "registry/new-york" :: rest)
             /\ lastCacheUpdate (fst (loadComponents f t r c)) = t).
  { intros f t r c Hc.
    assert (Hf : fresh f t c = false).
    { unfold fresh. rewrite Hc. simpl. now rewrite andb_false_r. }
    destruct (loadComponents_refresh f t r c Hf) as [log [found [Hl ->]]].
    destruct (loadComponentsFromGitHub_requests r) as [rest Hr].
    rewrite Hl in Hr. simpl in *. subst log. eauto. }
  intros Hc. destruct (Hempty forceRefresh now remote cache Hc) as [H1 H2].
  split; [exact H1|]. split; [exact H2|].
  intros later remote' Hstill. apply (Hempty false later remote' _ Hstill).
Qed.

Lemma empty_cache_always_recrawls_witness :
  lastCacheUpdate (fst (loadComponents false 7%Z offline initialCache)) = 7%Z.
Proof.
  apply (empty_cache_always_recrawls false 7%Z offline initialCache).
  reflexivity.
Defined.

(** ** More on strings *)

Lemma rev_onto_append (s acc : string) :
  rev_onto s acc = (reverse s ++ acc)%string.
Proof.
  unfold reverse. revert acc.
  induction s as [|c s IH]; intros acc; simpl; [reflexivity|].
  rewrite IH, (IH (String c EmptyString)), append_assoc. reflexivity.
Qed.

Lemma reverse_append (a b : string) :
  reverse (a ++ b) = (reverse b ++ reverse a)%string.
Proof.
  induction a as [|c a IH]; simpl.
  - now rewrite append_nil_r.
  - unfold reverse in *. simpl.
    rewrite (rev_onto_append (a ++ b)), (rev_onto_append a).
    unfold reverse. rewrite IH, append_assoc. reflexivity.
Qed.

Lemma reverse_involutive (s : string) : reverse (reverse s) = s.
Proof.
  induction s as [|c s IH]; [reflexivity|].
  change (String c s) with (String c EmptyString ++ s)%string at 1.
  rewrite reverse_append, reverse_append, IH. reflexivity.
Qed.

Lemma startsWith_iff (s p : string) :
  startsWith s p = true <-> exists t, s = (p ++ t)%string.
Proof.
  revert s. induction p as [|a p IH]; intros [|b s]; simpl.
  - split; eauto.
  - split; eauto.
  - split; [discriminate|]. intros [t H]. discriminate.
  - rewrite andb_true_iff, Ascii.eqb_eq, IH. split.
    + intros [-> [t ->]]. eauto.
    + intros [t H]. injection H as -> ->. eauto.
Qed.

Lemma endsWith_iff (s p : string) :
  endsWith s p = true <-> exists t, s = (t ++ p)%string.
Proof.
  unfold endsWith. rewrite startsWith_iff. split.
  - intros [t H]. exists (reverse t).
    rewrite <- (reverse_involutive s), H, reverse_append, reverse_involutive.
    reflexivity.
  - intros [t ->]. exists (reverse t). apply reverse_append.
Qed.

Lemma includes_iff (s p : string) :
  includes s p = true <-> exists a b, s = (a ++ p ++ b)%string.
Proof.
  induction s as [|c s IH]; cbn [includes].
  - rewrite orb_false_r, startsWith_iff. split.
    + intros [t H]. exists EmptyString, t. exact H.
    + intros (a & b & H). destruct a; simpl in H; [eauto|discriminate].
  - rewrite orb_true_iff, IH. split.
    + intros [H|(a & b & ->)].
      * apply startsWith_iff in H as [t H]. exists EmptyString, t. exact H.
      * exists (String c a), b. reflexivity.
    + intros (a & b & H). destruct a as [|c' a]; simpl in H.
      * left. apply startsWith_iff. eauto.
      * injection H as -> ->. right. eauto.
Qed.

Lemma includes_append_l (s t p : string) :
  includes s p = true -> includes (s ++ t) p = true.
Proof.
  rewrite !includes_iff. intros (a & b & ->). exists a, (b ++ t)%string.
  now rewrite !append_assoc.
Qed.

Lemma includes_append_r (s t p : string) :
  includes s p = true -> includes (t ++ s) p = true.
Proof.
  rewrite !includes_iff. intros (a & b & ->). exists (t ++ a)%string, b.
  now rewrite !append_assoc.
Qed.

Lemma take_length_append (u s : string) :
  take (String.length u) (u ++ s) = u.
Proof.
  induction u as [|c u IH]; simpl; [now destruct s|now rewrite IH].
Qed.

(** ** Component names *)

Lemma endsWith_append (base ext : string) :
  endsWith (base ++ ext) ext = true.
Proof. apply endsWith_iff. eauto. Qed.

(** X6.  Component file names.  A name made of a base and one of the
    four source extensions is a component file, and
    [extractComponentName] gives back the base.  Conversely every
    component file name is its component name followed by one of the
    four extensions, and any other name is left as it is. *)
Theorem component_name_strips_extension :
  (forall base ext,
      In ext sourceExtensions ->
      isComponentFile (base ++ ext) = true
      /\ extractComponentName (base ++ ext) = base)
  /\ (forall fileName,
         isComponentFile fileName = true ->
         exists ext,
           In ext sourceExtensions
           /\ fileName = (extractComponentName fileName ++ ext)%string)
  /\ (forall fileName,
         isComponentFile fileName = false ->
         extractComponentName fileName = fileName).
Proof.
  split; [|split].
  - intros base ext Hext. unfold isComponentFile, extractComponentName.
    simpl in Hext.
    destruct Hext as [<-|[<-|[<-|[<-|[]]]]].
    + rewrite endsWith_append. simpl. split; [reflexivity|].
      apply (take_append base ".tsx").
    + assert (H1 : endsWith (base ++ ".ts") ".tsx" = false)
        by (unfold endsWith; rewrite reverse_append; reflexivity).
      assert (H2 : endsWith (base ++ ".ts") ".jsx" = false)
        by (unfold endsWith; rewrite reverse_append; reflexivity).
      rewrite H1, H2, endsWith_append. simpl. split; [reflexivity|].
      apply (take_append base ".ts").
    + assert (H1 : endsWith (base ++ ".jsx") ".tsx" = false)
        by (unfold endsWith; rewrite reverse_append; reflexivity).
      assert (H2 : endsWith (base ++ ".jsx") ".ts" = false)
        by (unfold endsWith; rewrite reverse_append; reflexivity).
      rewrite H1, H2, endsWith_append. simpl. split; [reflexivity|].
      apply (take_append base ".jsx").
    + assert (H1 : endsWith (base ++ ".js") ".tsx" = false)
        by (unfold endsWith; rewrite reverse_append; reflexivity).
      assert (H2 : endsWith (base ++ ".js") ".ts" = false)
        by (unfold endsWith; rewrite reverse_append; reflexivity).
      assert (H3 : endsWith (base ++ ".js") ".jsx" = false)
        by (unfold endsWith; rewrite reverse_append; reflexivity).
      rewrite H1, H2, H3, endsWith_append. simpl. split; [reflexivity|].
      apply (take_append base ".js").
  - intros f Hf. unfold isComponentFile in Hf. unfold extractComponentName.
    destruct (endsWith f ".tsx") eqn:E1.
    { apply endsWith_iff in E1 as [t ->]. exists ".tsx".
      split; [simpl; auto|].
      now rewrite (take_append t ".tsx"
                   : take (String.length (t ++ ".tsx") - 4) (t ++ ".tsx") = t). }
    destruct (endsWith f ".jsx") eqn:E3.
    { apply endsWith_iff in E3 as [t ->]. exists ".jsx".
      split; [simpl; auto|].
      now rewrite (take_append t ".jsx"
                   : take (String.length (t ++ ".jsx") - 4) (t ++ ".jsx") = t). }
    destruct (endsWith f ".ts") eqn:E2.
    { apply endsWith_iff in E2 as [t ->]. exists ".ts".
      split; [simpl; auto|].
      now rewrite (take_append t ".ts"
                   : take (String.length (t ++ ".ts") - 3) (t ++ ".ts") = t). }
    destruct (endsWith f ".js") eqn:E4; [|discriminate].
    apply endsWith_iff in E4 as [t ->]. exists ".js".
    split; [simpl; auto 6|].
    now rewrite (take_append t ".js"
                 : take (String.length (t ++ ".js") - 3) (t ++ ".js") = t).
  - intros f Hf. unfold isComponentFile in Hf. unfold extractComponentName.
    apply orb_false_iff in Hf as [Hf E4].
    apply orb_false_iff in Hf as [Hf E3].
    apply orb_false_iff in Hf as [E1 E2].
    now rewrite E1, E2, E3, E4.
Qed.

Lemma component_name_strips_extension_witness :
  extractComponentName "GlowButton.test.tsx" = "GlowButton.test"
  /\ extractComponentName "README.md" = "README.md".
Proof.
  destruct component_name_strips_extension as [Hstrip [_ Hother]].
  split.
  - apply (Hstrip "GlowButton.test" ".tsx"). simpl. auto.
  - apply Hother. reflexivity.
Defined.

(** ** The range of the categories *)

Lemma firstKeyword_In (entries : list (string * string)) (n c : string) :
  firstKeyword entries n = Some c ->
  exists k, In (k, c) entries /\ includes n k = true.
Proof.
  induction entries as [|[k c'] rest IH]; simpl; [discriminate|].
  destruct (includes n k) eqn:Hk.
  - intros H. injection H as ->. eauto.
  - intros H. destruct (IH H) as (k' & Hin & Hk'). eauto.
Qed.

(** X7.  [extractCategory] gives one of fifteen category names,
    whatever the name and the content; in particular the category is
    never empty.  A category other than "Components" comes from a
    keyword of the table found in the lower-cased name, or else from a
    marker found in the content. *)
Theorem category_is_known (componentName content : string) :
  In (extractCategory componentName content) knownCategories
  /\ extractCategory componentName content <> EmptyString
  /\ (extractCategory componentName content <> "Components" ->
      (exists k, In (k, extractCategory componentName content) categoryMap
                 /\ includes (toLowerCase componentName) k = true)
      \/ exists m, In m structuralMarkers /\ includes content m = true).
Proof.
  assert (Hknown : In (extractCategory componentName content) knownCategories).
  { unfold extractCategory.
    destruct (firstKeyword categoryMap (toLowerCase componentName))
      as [c|] eqn:Hc.
    - apply firstKeyword_In in Hc as (k & Hin & _).
      vm_compute in Hin.
      repeat (destruct Hin as [Hin|Hin];
              [injection Hin as <- <-; vm_compute; tauto|]).
      contradiction.
    - unfold inferFromCode.
      repeat match goal with
             | |- context [if ?b then _ else _] => destruct b
             end; vm_compute; tauto. }
  split; [exact Hknown|]. split.
  - intros Hempty. rewrite Hempty in Hknown. vm_compute in Hknown.
    repeat (destruct Hknown as [Hknown|Hknown]; [discriminate|]).
    contradiction.
  - unfold extractCategory.
    destruct (firstKeyword categoryMap (toLowerCase componentName))
      as [c|] eqn:Hc.
    + intros _. left. now apply firstKeyword_In.
    + unfold inferFromCode, structuralMarkers. intros Hne. right.
      destruct (includes content "Button") eqn:E1;
        [exists "Button"%string; split; [simpl; tauto|exact E1]|].
      destruct (includes content "btn") eqn:E2;
        [exists "btn"%string; split; [simpl; tauto|exact E2]|].
      destruct (includes content "Card") eqn:E3;
        [exists "Card"%string; split; [simpl; tauto|exact E3]|].
      destruct (includes content "Input") eqn:E4;
        [exists "Input"%string; split; [simpl; tauto|exact E4]|].
      destruct (includes content "Form") eqn:E5;
        [exists "Form"%string; split; [simpl; tauto|exact E5]|].
      destruct (includes content "Modal") eqn:E6;
        [exists "Modal"%string; split; [simpl; tauto|exact E6]|].
      destruct (includes content "Dialog") eqn:E7;
        [exists "Dialog"%string; split; [simpl; tauto|exact E7]|].
      destruct (includes content "Nav") eqn:E8;
        [exists "Nav"%string; split; [simpl; tauto|exact E8]|].
      simpl in Hne. contradiction.
Qed.

Lemma category_is_known_witness :
  exists m, In m structuralMarkers /\ includes "<Card/>" m = true.
Proof.
  destruct (category_is_known "Orb" "<Card/>") as [_ [_ H]].
  assert (Hne : extractCategory "Orb" "<Card/>" <> "Components")
    by (vm_compute; discriminate).
  destruct (H Hne) as [(k & Hin & Hk)|Hm]; [|exact Hm].
  vm_compute in Hin.
  repeat (destruct Hin as [Hin|Hin];
          [first [discriminate Hin
                 |injection Hin as <-; vm_compute in Hk; discriminate]|]).
  contradiction.
Defined.

(** ** Tags *)

Lemma extractTags_table (content : string) :
  extractTags content
  = map fst (filter (fun rule => existsb (includes content) (snd rule))
                    tagRules).
Proof.
  unfold extractTags, tagRules. simpl.
  rewrite !orb_false_r, !orb_assoc.
  generalize (includes content "@keyframes" || includes content "animation").
  generalize (includes content "transition" || includes content "transform").
  generalize (includes content "onClick" || includes content "onChange"
              || includes content "onHover").
  generalize (includes content "gradient").
  generalize (includes content "Tailwind" || includes content "className").
  generalize (includes content "styled").
  generalize (includes content "flex" || includes content "grid").
  generalize (includes content "responsive" || includes content "md:"
              || includes content "lg:").
  generalize (includes content "useRef" || includes content "useEffect"
              || includes content "useState").
  generalize (includes content "forwardRef").
  generalize (includes content "children").
  intros b11 b10 b9 b8 b7 b6 b5 b4 b3 b2 b1.
  destruct b1, b2, b3, b4, b5, b6, b7, b8, b9, b10, b11; reflexivity.
Qed.

Lemma extractTags_In (content t : string) :
  In t (extractTags content)
  <-> exists markers m,
        In (t, markers) tagRules /\ In m markers
        /\ includes content m = true.
Proof.
  rewrite extractTags_table, in_map_iff. split.
  - intros [[t' markers] [<- H]]. apply filter_In in H as [Hin H].
    apply existsb_exists in H as [m [Hm H]]. simpl in *. eauto 6.
  - intros (markers & m & Hin & Hm & H). exists (t, markers).
    split; [reflexivity|]. apply filter_In. split; [exact Hin|].
    apply existsb_exists. eauto.
Qed.

(** X8.  The tags of a content are exactly the tags of the rules one of
    whose substrings occurs in it, in the order of the rules.  Adding
    text before or after a content never takes a tag away; so a content
    with an "onClick" anywhere is tagged "interactive". *)
Theorem tags_follow_rules (content : string) :
  extractTags content
  = map fst (filter (fun rule => existsb (includes content) (snd rule))
                    tagRules)
  /\ (forall t,
         In t (extractTags content)
         <-> exists markers m,
               In (t, markers) tagRules /\ In m markers
               /\ includes content m = true)
  /\ (forall before after t,
         In t (extractTags content) ->
         In t (extractTags (before ++ content ++ after)))
  /\ (includes content "onClick" = true ->
      In "interactive" (extractTags content)).
Proof.
  split; [apply extractTags_table|]. split; [intros t; apply extractTags_In|].
  split.
  - intros before after t. rewrite !extractTags_In.
    intros (markers & m & Hin & Hm & H). exists markers, m.
    repeat split; try assumption.
    now apply includes_append_r, includes_append_l.
  - intros H. apply extractTags_In.
    exists ["onClick"; "onChange"; "onHover"], "onClick".
    repeat split; [|now left|exact H]. simpl. auto.
Qed.

Lemma tags_follow_rules_witness :
  In "interactive"
     (extractTags ("<div>" ++ "<button onClick={go}/>" ++ "</div>")).
Proof.
  destruct (tags_follow_rules "<button onClick={go}/>") as [_ [_ [Hmore Hclick]]].
  apply Hmore, Hclick. reflexivity.
Defined.

(** ** Captures *)

Lemma run_captures (r : regex) :
  forall (before : option string -> Prop) s cap k ans,
    before cap ->
    run r s cap k = Some ans ->
    exists u s' cap',
      s = (u ++ s')%string /\ lang r u /\ captured r before cap'
      /\ k s' cap' = Some ans.
Proof.
  induction r as [|p|a IHa b IHb|a IHa b IHb|g a IHa|a IHa];
    intros before s cap k ans Hcap H; simpl in H.
  - exists EmptyString, s, cap. repeat split; [constructor|exact Hcap|exact H].
  - destruct s as [|c s]; [discriminate|].
    destruct (p c) eqn:Hp; [|discriminate].
    exists (String c EmptyString), s, cap.
    repeat split; [now constructor|exact Hcap|exact H].
  - apply (IHa before) in H as (u & s1 & c1 & -> & La & Ca & H);
      [|exact Hcap].
    apply (IHb (captured a before)) in H as (v & s2 & c2 & -> & Lb & Cb & H);
      [|exact Ca].
    exists (u ++ v)%string, s2, c2.
    rewrite append_assoc. repeat split; [now constructor|exact Cb|exact H].
  - apply orElse_Some in H as [H|[_ H]].
    + apply (IHa before) in H as (u & s' & c' & -> & La & Ca & H);
        [|exact Hcap].
      exists u, s', c'.
      repeat split; [now apply lang_alt_l|now left|exact H].
    + apply (IHb before) in H as (u & s' & c' & -> & Lb & Cb & H);
        [|exact Hcap].
      exists u, s', c'.
      repeat split; [now apply lang_alt_r|now right|exact H].
  - remember (String.length s) as fuel eqn:Hfuel. clear Hfuel.
    assert (Hstar : forall fuel s cap ans,
               (before cap \/ captured a (fun _ => True) cap) ->
               star (run a) g (has_group a) k fuel s cap = Some ans ->
               exists u s' cap',
                 s = (u ++ s')%string /\ lang (Star g a) u
                 /\ (before cap' \/ captured a (fun _ => True) cap')
                 /\ k s' cap' = Some ans).
    { clear fuel s cap ans Hcap H.
      induction fuel as [|fuel IH]; intros s cap ans Hcap H; simpl in H.
      - exists EmptyString, s, cap.
        repeat split; [constructor|exact Hcap|exact H].
      - assert (Hagain : forall c0,
                   run a s c0
                       (fun s' cap' =>
                          if String.length s' <? String.length s
                          then star (run a) g (has_group a) k fuel s' cap'
                          else None) = Some ans ->
                   exists u s' cap',
                     s = (u ++ s')%string /\ lang (Star g a) u
                     /\ (before cap' \/ captured a (fun _ => True) cap')
                     /\ k s' cap' = Some ans).
        { intros c0 Hr.
          apply (IHa (fun _ => True)) in Hr
            as (u & s1 & c1 & -> & La & Ca & Hr); [|exact I].
          destruct (String.length s1 <? String.length (u ++ s1));
            [|discriminate].
          apply IH in Hr as (v & s2 & c2 & -> & Ls & Cs & Hr);
            [|now right].
          exists (u ++ v)%string, s2, c2.
          rewrite append_assoc.
          repeat split; [now constructor|exact Cs|exact Hr]. }
        assert (Hstop : k s cap = Some ans ->
                   exists u s' cap',
                     s = (u ++ s')%string /\ lang (Star g a) u
                     /\ (before cap' \/ captured a (fun _ => True) cap')
                     /\ k s' cap' = Some ans).
        { intros Hk. exists EmptyString, s, cap.
          repeat split; [constructor|exact Hcap|exact Hk]. }
        destruct g; apply orElse_Some in H as [H|[_ H]]; eauto. }
    apply (Hstar fuel s cap ans); [now left|exact H].
  - apply (IHa before) in H as (u & s' & c' & -> & La & _ & H);
      [|exact Hcap].
    exists u, s',
      (Some (take (String.length (u ++ s') - String.length s') (u ++ s'))).
    repeat split; [now constructor| |exact H].
    exists u. split; [now rewrite take_append|exact La].
Qed.

Lemma matchHere_captures (r : regex) (s : string) (m : MatchResult) :
  matchHere r s = Some m -> captured r (fun c => c = None) (group1 m).
Proof.
  unfold matchHere.
  destruct (run r s None (fun s' cap => Some (s', cap))) as [[s' cap]|] eqn:H;
    [|discriminate].
  apply (run_captures r (fun c => c = None)) in H
    as (u & s1 & c1 & -> & _ & C & H); [|reflexivity].
  injection H as -> ->. intros Hm. injection Hm as <-. exact C.
Qed.

Lemma matchAllFrom_In (r : regex) (s : string) (skip : nat) (m : MatchResult) :
  In m (matchAllFrom r s skip) ->
  exists s', matchHere r s' = Some m.
Proof.
  revert skip. induction s as [|c s IH]; intros skip; simpl.
  - destruct skip; [|contradiction].
    destruct (matchHere r EmptyString) eqn:H; [|contradiction].
    intros [<-|[]]. eauto.
  - destruct skip as [|skip]; [|apply IH].
    destruct (matchHere r (String c s)) eqn:H.
    + intros [<-|Hin]; [eauto|]. now apply IH in Hin.
    + apply IH.
Qed.

(** ** Dependencies are package names *)

Lemma allChars_append (p : ascii -> bool) (a b : string) :
  allChars p (a ++ b) = allChars p a && allChars p b.
Proof.
  induction a as [|c a IH]; simpl; [reflexivity|].
  now rewrite IH, andb_assoc.
Qed.

Lemma allChars_impl (p q : ascii -> bool) (s : string) :
  (forall c, p c = true -> q c = true) ->
  allChars p s = true -> allChars q s = true.
Proof.
  intros Hpq. induction s as [|c s IH]; simpl; [reflexivity|].
  rewrite !andb_true_iff. intros [Hc Hs]. auto.
Qed.

Lemma specifier_word (w : string) :
  lang (Seq (Opt (Chr "@")) (Plus (Class specifierChar))) w ->
  w <> EmptyString /\ allChars scopedChar w = true.
Proof.
  intros H.
  apply lang_Seq_inv in H as (u & v & -> & Hu & Hv).
  unfold Plus in Hv.
  apply lang_Seq_inv in Hv as (c & v' & -> & Hc & Hv').
  apply lang_star_class in Hv'.
  inversion Hc as [|p c0 Hc0| | | | | |]; subst.
  assert (Hscoped : forall x, specifierChar x = true -> scopedChar x = true).
  { intros x Hx. unfold scopedChar. now rewrite Hx. }
  assert (Hu' : u = "@" \/ u = EmptyString).
  { unfold Opt in Hu.
    inversion Hu as [| | |a b u' Ha|a b u' Hb| | |]; subst.
    - left. now apply lang_Chr_inv.
    - right. now inversion Hb. }
  split.
  - destruct Hu' as [->| ->]; discriminate.
  - rewrite allChars_append. apply andb_true_iff. split.
    + destruct Hu' as [->| ->]; reflexivity.
    + simpl. rewrite (Hscoped _ Hc0). simpl.
      now apply (allChars_impl specifierChar).
Qed.

Lemma captured_specifier (content d : string) :
  In d (capturedSpecifiers content) ->
  d <> EmptyString /\ allChars scopedChar d = true.
Proof.
  unfold capturedSpecifiers, importSpecifiers, requireSpecifiers, matchAll.
  rewrite in_app_iff, !in_map_iff.
  intros [[m [<- Hm]]|[m [<- Hm]]];
    apply matchAllFrom_In in Hm as [s' Hm];
    apply matchHere_captures in Hm;
    simpl in Hm; destruct Hm as (w & Hg & Hw);
    unfold capture; rewrite Hg; now apply specifier_word.
Qed.

Lemma scoped_external (d : string) :
  allChars scopedChar d = true ->
  external d = true /\ includes d "." = false /\ includes d ":" = false.
Proof.
  intros Hd.
  assert (Hno : forall x : string,
             allChars scopedChar x = false -> includes d x = false).
  { intros x Hx. destruct (includes d x) eqn:Hi; [|reflexivity].
    apply includes_iff in Hi as (a & b & ->).
    rewrite !allChars_append, Hx in Hd.
    rewrite andb_false_r in Hd. discriminate. }
  assert (Hstart : forall x : string,
             allChars scopedChar x = false -> startsWith d x = false).
  { intros x Hx. destruct (startsWith d x) eqn:Hs; [|reflexivity].
    apply startsWith_iff in Hs as [t ->].
    rewrite allChars_append, Hx in Hd. discriminate. }
  split; [|split]; [|now apply Hno|now apply Hno].
  unfold external. now rewrite !Hstart.
Qed.

(** X9.  Every specifier that the import and require patterns capture
    is a package name: not empty, made of letters, digits, "_", "/",
    "-" and "@" only.  So no dependency contains a dot or a colon, the
    test that leaves out specifiers starting with "." or "node:" never
    rejects anything, and the dependency list holds every captured
    specifier in the order of its first occurrence. *)
Theorem dependencies_are_package_names (content : string) :
  (forall d, In d (capturedSpecifiers content) ->
             d <> EmptyString
             /\ allChars scopedChar d = true
             /\ external d = true)
  /\ (forall d, In d (extractDependencies content) ->
                d <> EmptyString
                /\ includes d "." = false
                /\ includes d ":" = false)
  /\ extractDependencies content
     = firstOccurrences [] (capturedSpecifiers content).
Proof.
  assert (Hcap : forall d, In d (capturedSpecifiers content) ->
                           d <> EmptyString
                           /\ allChars scopedChar d = true
                           /\ external d = true).
  { intros d Hd. apply captured_specifier in Hd as [Hne Hall].
    repeat split; try assumption. now apply scoped_external. }
  assert (Hfilter : filter external (capturedSpecifiers content)
                    = capturedSpecifiers content).
  { generalize Hcap. generalize (capturedSpecifiers content) as l.
    induction l as [|x l IH]; intros H; simpl; [reflexivity|].
    destruct (H x (or_introl eq_refl)) as (_ & _ & ->).
    f_equal. apply IH. intros d Hd. apply H. now right. }
  split; [exact Hcap|]. split.
  - intros d Hd. rewrite extractDependencies_collect in Hd.
    apply collectDependencies_In in Hd as [Hd _].
    destruct (Hcap d Hd) as (Hne & Hall & _).
    split; [exact Hne|]. now apply scoped_external.
  - rewrite extractDependencies_collect. unfold collectDependencies.
    rewrite Hfilter. apply (addAll_firstOccurrences _ []).
Qed.

Lemma dependencies_are_package_names_witness :
  includes "@radix-ui/react-slot" "." = false.
Proof.
  destruct (dependencies_are_package_names
              "import { Slot } from '@radix-ui/react-slot'; import x from 'lodash.debounce';")
    as [_ [Hdeps _]].
  apply (Hdeps "@radix-ui/react-slot"). vm_compute. now left.
Defined.

(** ** Runs of the matcher *)

(** What the matcher returns, it returns for a run. *)
Lemma run_matches (r : regex) :
  forall s cap k ans,
    run r s cap k = Some ans ->
    exists u s' cap',
      s = (u ++ s')%string /\ matches r cap u cap' /\ k s' cap' = Some ans.
Proof.
  induction r as [|p|a IHa b IHb|a IHa b IHb|g a IHa|a IHa];
    intros s cap k ans H; simpl in H.
  - exists EmptyString, s, cap. repeat split; [constructor|exact H].
  - destruct s as [|c s]; [discriminate|].
    destruct (p c) eqn:Hp; [|discriminate].
    exists (String c EmptyString), s, cap.
    repeat split; [now constructor|exact H].
  - apply IHa in H as (u & s1 & c1 & -> & Ma & H).
    apply IHb in H as (v & s2 & c2 & -> & Mb & H).
    exists (u ++ v)%string, s2, c2.
    rewrite append_assoc. repeat split; [econstructor; eassumption|exact H].
  - apply orElse_Some in H as [H|[_ H]].
    + apply IHa in H as (u & s' & c' & -> & Ma & H).
      exists u, s', c'. repeat split; [now apply matches_alt_l|exact H].
    + apply IHb in H as (u & s' & c' & -> & Mb & H).
      exists u, s', c'. repeat split; [now apply matches_alt_r|exact H].
  - remember (String.length s) as fuel eqn:Hfuel. clear Hfuel.
    revert s cap ans H.
    induction fuel as [|fuel IH]; intros s cap ans H; simpl in H.
    + exists EmptyString, s, cap. repeat split; [constructor|exact H].
    + assert (Hagain :
                run a s (if has_group a then None else cap)
                    (fun s' cap' =>
                       if String.length s' <? String.length s
                       then star (run a) g (has_group a) k fuel s' cap'
                       else None) = Some ans ->
                exists u s' cap',
                  s = (u ++ s')%string /\ matches (Star g a) cap u cap'
                  /\ k s' cap' = Some ans).
      { intros Hr.
        apply IHa in Hr as (u & s1 & c1 & -> & Ma & Hr).
        destruct (String.length s1 <? String.length (u ++ s1)) eqn:Hlt;
          [|discriminate].
        apply Nat.ltb_lt in Hlt. rewrite length_append in Hlt.
        apply IH in Hr as (v & s2 & c2 & -> & Ms & Hr).
        exists (u ++ v)%string, s2, c2.
        rewrite append_assoc. repeat split; [|exact Hr].
        econstructor; [|eassumption|eassumption].
        intros ->. simpl in Hlt. lia. }
      assert (Hstop : k s cap = Some ans ->
                 exists u s' cap',
                   s = (u ++ s')%string /\ matches (Star g a) cap u cap'
                   /\ k s' cap' = Some ans).
      { intros Hk. exists EmptyString, s, cap.
        repeat split; [constructor|exact Hk]. }
      destruct g; apply orElse_Some in H as [H|[_ H]]; eauto.
  - apply IHa in H as (u & s' & c' & -> & Ma & H).
    rewrite take_append in H.
    exists u, s', (Some u). repeat split; [econstructor; eassumption|exact H].
Qed.

Lemma orElse_None (x y : option answer) :
  orElse x y = None <-> x = None /\ y = None.
Proof.
  destruct x; simpl; split; try tauto; try (intros [H _]; discriminate);
    discriminate.
Qed.

(** Where there is a run that the continuation accepts, the matcher
    returns something. *)
Lemma matches_run (r : regex) (cap : option string) (u : string)
      (cap' : option string) :
  matches r cap u cap' ->
  forall s' k, k s' cap' <> None -> run r (u ++ s') cap k <> None.
Proof.
  induction 1 as [cap|p c cap Hp|a b u v c0 c1 c2 _ IHa _ IHb
                  |a b u c0 c1 _ IHa|a b u c0 c1 _ IHb|g a cap
                  |g a u v c0 c1 c2 Hu _ IHa _ IHs|a u c0 c1 _ IHa];
    intros s' k Hk.
  - exact Hk.
  - simpl. now rewrite Hp.
  - rewrite append_assoc. simpl. apply IHa. now apply IHb.
  - simpl. intros Hn. apply orElse_None in Hn as [Hn _]. revert Hn.
    now apply IHa.
  - simpl. intros Hn. apply orElse_None in Hn as [_ Hn]. revert Hn.
    now apply IHb.
  - simpl.
    destruct (String.length s') as [|fuel] eqn:Hlen; simpl; [exact Hk|].
    intros Hn. destruct g; apply orElse_None in Hn as [H1 H2]; contradiction.
  - rewrite append_assoc.
    assert (Hlen : String.length (u ++ v ++ s')
                   = S (String.length (u ++ v ++ s') - 1)).
    { rewrite length_append. destruct u; [contradiction|simpl; lia]. }
    cbn [run]. rewrite Hlen. cbn [star].
    assert (Hagain :
              run a (u ++ v ++ s') (if has_group a then None else c0)
                  (fun s1 cap1 =>
                     if String.length s1 <? String.length (u ++ v ++ s')
                     then star (run a) g (has_group a) k
                               (String.length (u ++ v ++ s') - 1) s1 cap1
                     else None) <> None).
    { apply IHa.
      replace (String.length (v ++ s') <? String.length (u ++ v ++ s'))
        with true.
      - rewrite (star_fuel_enough a g (has_group a) k _
                   (String.length (v ++ s'))).
        + apply (IHs s' k Hk).
        + rewrite (length_append u). destruct u; [contradiction|simpl; lia].
        + lia.
      - symmetry. apply Nat.ltb_lt. rewrite (length_append u).
        destruct u; [contradiction|simpl; lia]. }
    intros Hn. destruct g; apply orElse_None in Hn as [H1 H2]; contradiction.
  - simpl. apply IHa. now rewrite take_append.
Qed.

(** The runs of a pattern are among its words. *)
Lemma matches_lang (r : regex) (c0 : option string) (u : string)
      (c1 : option string) :
  matches r c0 u c1 -> lang r u.
Proof.
  induction 1; try (now constructor).
Qed.

(** A pattern without a group leaves the capture as it is. *)
Lemma matches_no_group (r : regex) (c0 : option string) (u : string)
      (c1 : option string) :
  matches r c0 u c1 -> has_group r = false -> c1 = c0.
Proof.
  induction 1 as [cap|p c cap Hp|a b u v c0 c1 c2 _ IHa _ IHb
                  |a b u c0 c1 _ IHa|a b u c0 c1 _ IHb|g a cap
                  |g a u v c0 c1 c2 Hu _ IHa _ IHs|a u c0 c1 _ IHa];
    simpl; intros Hg; try reflexivity.
  - apply orb_false_iff in Hg as [Ha Hb]. now rewrite IHb, IHa.
  - apply orb_false_iff in Hg as [Ha Hb]. now apply IHa.
  - apply orb_false_iff in Hg as [Ha Hb]. now apply IHb.
  - rewrite (IHs Hg), (IHa Hg), Hg. reflexivity.
  - discriminate.
Qed.

(** The equation of a lazy [[..]*?]: the continuation first, one more
    code unit of the class only when it refuses. *)
Lemma run_lazy_class (p : ascii -> bool) (s : string) (cap : option string)
      (k : cont) :
  run (Star false (Class p)) s cap k
  = orElse (k s cap)
           match s with
           | String c s' =>
               if p c then run (Star false (Class p)) s' cap k else None
           | EmptyString => None
           end.
Proof.
  destruct s as [|c s]; simpl.
  - now destruct (k EmptyString cap).
  - destruct (p c); [|reflexivity].
    replace (String.length s <? S (String.length s)) with true
      by (symmetry; apply Nat.ltb_lt; lia).
    reflexivity.
Qed.

(** So the continuation has refused every shorter run. *)
Lemma lazy_class_first (p : ascii -> bool) (k : cont) (cap : option string)
      (ans : answer) :
  forall s,
    run (Star false (Class p)) s cap k = Some ans ->
    exists u s',
      s = (u ++ s')%string /\ allChars p u = true /\ k s' cap = Some ans
      /\ (forall u1 u2, u = (u1 ++ u2)%string -> u2 <> EmptyString ->
                        k (u2 ++ s')%string cap = None).
Proof.
  induction s as [|c s IH]; intros H; rewrite run_lazy_class in H.
  - apply orElse_Some in H as [H|[_ H]]; [|discriminate].
    exists EmptyString, EmptyString. repeat split; [exact H|].
    intros u1 u2 Hu Hne. destruct u1, u2; try discriminate. contradiction.
  - apply orElse_Some in H as [H|[Hk H]].
    + exists EmptyString, (String c s). repeat split; [exact H|].
      intros u1 u2 Hu Hne. destruct u1, u2; try discriminate. contradiction.
    + destruct (p c) eqn:Hp; [|discriminate].
      apply IH in H as (u & s' & -> & Hu & Hans & Hmin).
      exists (String c u), s'. simpl. rewrite Hp.
      repeat split; [exact Hu|exact Hans|].
      intros u1 u2 Heq Hne. destruct u1 as [|x u1]; simpl in Heq.
      * subst u2. exact Hk.
      * injection Heq as _ Heq. now apply (Hmin u1 u2).
Qed.

(** ** Declarations that the patterns capture *)

Lemma append_eq_split (a b c d : string) :
  (a ++ b = c ++ d)%string ->
  (exists t, c = (a ++ t)%string /\ b = (t ++ d)%string)
  \/ (exists t, t <> EmptyString /\ a = (c ++ t)%string
                /\ d = (t ++ b)%string).
Proof.
  revert c. induction a as [|x a IH]; intros c H; simpl in H.
  - left. exists c. auto.
  - destruct c as [|y c]; simpl in H.
    + right. exists (String x a). repeat split; [discriminate|now symmetry].
    + injection H as -> H.
      destruct (IH c H) as [(t & -> & ->)|(t & Hne & -> & ->)].
      * left. exists t. auto.
      * right. exists t. auto.
Qed.

Lemma allChars_false_middle (p : ascii -> bool) (u : string) (c : ascii)
      (v : string) :
  p c = false -> allChars p (u ++ String c v) = false.
Proof.
  intros Hc. rewrite allChars_append. simpl. rewrite Hc.
  apply andb_false_r.
Qed.

(** Where a run of code units of a class stops is determined. *)
Lemma first_stop_unique (p : ascii -> bool) (u v : string) (a b : ascii)
      (x y : string) :
  allChars p u = true -> allChars p v = true ->
  p a = false -> p b = false ->
  (u ++ String a x = v ++ String b y)%string ->
  u = v /\ a = b /\ x = y.
Proof.
  intros Hu Hv Ha Hb. revert v Hv.
  induction u as [|c u IH]; intros [|c' v] Hv H; simpl in *.
  - injection H as -> ->. auto.
  - injection H as -> _. apply andb_true_iff in Hv as [Hv _]. congruence.
  - injection H as -> _. apply andb_true_iff in Hu as [Hu _]. congruence.
  - injection H as -> H.
    apply andb_true_iff in Hu as [_ Hu]. apply andb_true_iff in Hv as [_ Hv].
    destruct (IH Hu v Hv H) as (-> & -> & ->). auto.
Qed.

Lemma last_char (a b z : string) (c : ascii) :
  (a ++ String c EmptyString = b ++ z)%string -> z <> EmptyString ->
  exists z', z = (z' ++ String c EmptyString)%string.
Proof.
  intros H Hz. apply append_eq_split in H as [(t & -> & H)|(t & _ & -> & ->)].
  - destruct t as [|x t]; simpl in H.
    + exists EmptyString. now symmetry.
    + injection H as _ H. destruct t, z; try discriminate. contradiction.
  - now exists t.
Qed.

Ltac ascii_cases c :=
  destruct c as [[] [] [] [] [] [] [] []]; vm_compute; intros; congruence.

Lemma space_not_quote (c : ascii) : is_space c = true -> isQuote c = false.
Proof. ascii_cases c. Qed.

Lemma space_not_i (c : ascii) : is_space c = true -> Ascii.eqb c "i" = false.
Proof. ascii_cases c. Qed.

Lemma scoped_not_quote (c : ascii) : scopedChar c = true -> isQuote c = false.
Proof. ascii_cases c. Qed.

Lemma scoped_not_space (c : ascii) : scopedChar c = true -> is_space c = false.
Proof. ascii_cases c. Qed.

Lemma scoped_not_paren (c : ascii) :
  scopedChar c = true -> Ascii.eqb c "(" = false.
Proof. ascii_cases c. Qed.

Lemma quote_not_space (c : ascii) : isQuote c = true -> is_space c = false.
Proof. ascii_cases c. Qed.

Lemma quote_not_paren (c : ascii) :
  isQuote c = true -> Ascii.eqb c "(" = false /\ Ascii.eqb c ")" = false.
Proof.
  destruct c as [[] [] [] [] [] [] [] []]; vm_compute; intros; split;
    congruence.
Qed.

Lemma allChars_not (p q : ascii -> bool) (s : string) :
  (forall c, p c = true -> q c = false) ->
  allChars p s = true -> allChars (fun c => negb (q c)) s = true.
Proof.
  intros H. apply allChars_impl. intros c Hc. now rewrite (H c Hc).
Qed.

Lemma packageName_scoped (d : string) :
  isPackageName d = true -> d <> EmptyString /\ allChars scopedChar d = true.
Proof.
  unfold isPackageName, unscoped. intros H.
  apply andb_true_iff in H as [Hne Hall].
  assert (Hsc : forall w, allChars specifierChar w = true ->
                          allChars scopedChar w = true).
  { intros w. apply allChars_impl. intros c Hc. unfold scopedChar.
    now rewrite Hc. }
  destruct d as [|c w]; [discriminate|]. split; [discriminate|].
  destruct (Ascii.eqb c "@") eqn:Hc.
  - apply Ascii.eqb_eq in Hc as ->. simpl. now apply Hsc.
  - now apply Hsc.
Qed.

Lemma blank_spec (w : string) :
  blank w = true <-> w <> EmptyString /\ allChars is_space w = true.
Proof.
  unfold blank. rewrite andb_true_iff, negb_true_iff, String.eqb_neq. tauto.
Qed.

(** *** The runs of the pieces the two patterns are made of *)

Lemma matches_Seq_inv a b c0 w c2 :
  matches (Seq a b) c0 w c2 ->
  exists u v c1,
    w = (u ++ v)%string /\ matches a c0 u c1 /\ matches b c1 v c2.
Proof. inversion 1; subst; eauto 7. Qed.

Lemma matches_Lit (s : string) (c : option string) : matches (Lit s) c s c.
Proof.
  induction s as [|x s IH]; simpl; [constructor|].
  change (String x s) with (String x EmptyString ++ s)%string.
  econstructor; [|exact IH]. constructor. apply Ascii.eqb_refl.
Qed.

Lemma matches_Lit_inv (s u : string) (c0 c1 : option string) :
  matches (Lit s) c0 u c1 -> u = s /\ c1 = c0.
Proof.
  intros H. split.
  - now apply matches_lang, lang_Lit_inv in H.
  - apply (matches_no_group _ _ _ _ H). clear H.
    induction s; [reflexivity|exact IHs].
Qed.

Lemma matches_star_class g (p : ascii -> bool) (w : string) (c : option string) :
  allChars p w = true -> matches (Star g (Class p)) c w c.
Proof.
  induction w as [|x w IH]; simpl; intros H; [constructor|].
  apply andb_true_iff in H as [Hx Hw].
  change (String x w) with (String x EmptyString ++ w)%string.
  econstructor; [discriminate| |exact (IH Hw)].
  simpl. now constructor.
Qed.

Lemma matches_Plus_class (p : ascii -> bool) (w : string) (c : option string) :
  w <> EmptyString -> allChars p w = true ->
  matches (Plus (Class p)) c w c.
Proof.
  destruct w as [|x w]; [contradiction|]. simpl. intros _ H.
  apply andb_true_iff in H as [Hx Hw].
  change (String x w) with (String x EmptyString ++ w)%string.
  unfold Plus. econstructor; [now constructor|now apply matches_star_class].
Qed.

Lemma matches_Plus_class_inv (p : ascii -> bool) (w : string)
      (c0 c1 : option string) :
  matches (Plus (Class p)) c0 w c1 ->
  w <> EmptyString /\ allChars p w = true /\ c1 = c0.
Proof.
  intros H.
  assert (Hc : c1 = c0) by (apply (matches_no_group _ _ _ _ H); reflexivity).
  apply matches_lang in H. unfold Plus in H.
  apply lang_Seq_inv in H as (u & v & -> & Hu & Hv).
  apply lang_star_class in Hv.
  inversion Hu as [|q x Hx| | | | | |]; subst. simpl. rewrite Hx.
  repeat split; [discriminate|exact Hv].
Qed.

Lemma matches_Class_inv (p : ascii -> bool) (w : string)
      (c0 c1 : option string) :
  matches (Class p) c0 w c1 ->
  exists x, w = String x EmptyString /\ p x = true /\ c1 = c0.
Proof. inversion 1; subst; eauto. Qed.

Lemma matches_specifier (d : string) (c : option string) :
  isPackageName d = true -> matches specifier c d (Some d).
Proof.
  unfold isPackageName, unscoped. intros H.
  apply andb_true_iff in H as [Hne Hall].
  apply negb_true_iff, String.eqb_neq in Hne.
  unfold specifier. constructor 8 with (c1 := c).
  destruct d as [|x w]; [contradiction|].
  destruct (Ascii.eqb x "@") eqn:Hx.
  - apply Ascii.eqb_eq in Hx as ->.
    change (String "@" w) with ("@" ++ w)%string.
    econstructor.
    + apply matches_alt_l. constructor. reflexivity.
    + now apply (matches_Plus_class specifierChar).
  - change (String x w) with (EmptyString ++ String x w)%string.
    econstructor.
    + apply matches_alt_r. constructor.
    + now apply (matches_Plus_class specifierChar).
Qed.

Lemma matches_specifier_inv (d : string) (c0 c1 : option string) :
  matches specifier c0 d c1 -> c1 = Some d /\ isPackageName d = true.
Proof.
  unfold specifier. intros H.
  inversion H as [| | | | | | |a u c c' Ha]; subst.
  split; [reflexivity|].
  apply matches_lang in Ha.
  apply lang_Seq_inv in Ha as (u & v & -> & Hu & Hv).
  change (lang (Plus (Class specifierChar)) v) in Hv.
  unfold Plus in Hv.
  apply lang_Seq_inv in Hv as (x & v' & -> & Hx & Hv').
  apply lang_star_class in Hv'.
  inversion Hx as [|p x0 Hx0| | | | | |]; subst.
  assert (Hat : Ascii.eqb x0 "@" = false).
  { destruct (Ascii.eqb x0 "@") eqn:E; [|reflexivity].
    apply Ascii.eqb_eq in E. subst. discriminate. }
  unfold Opt in Hu.
  inversion Hu as [| | |a b u' Ha|a b u' Hb| | |]; subst.
  - apply lang_Chr_inv in Ha as ->.
    unfold isPackageName. simpl. now rewrite Hx0, Hv'.
  - inversion Hb; subst.
    unfold isPackageName. simpl. rewrite Hat. simpl. now rewrite Hx0, Hv'.
Qed.

Lemma matches_fromClause (w2 w3 : string) (q1 : ascii) (d : string)
      (q2 : ascii) (c : option string) :
  blank w2 = true -> blank w3 = true ->
  isQuote q1 = true -> isQuote q2 = true -> isPackageName d = true ->
  matches fromClause c
          (w2 ++ "from" ++ w3 ++ String q1 (d ++ String q2 EmptyString))
          (Some d).
Proof.
  intros [Hn2 Hw2]%blank_spec [Hn3 Hw3]%blank_spec Hq1 Hq2 Hd.
  unfold fromClause.
  econstructor; [now apply (matches_Plus_class is_space)|].
  econstructor; [apply matches_Lit|].
  econstructor; [now apply (matches_Plus_class is_space)|].
  change (String q1 (d ++ String q2 EmptyString))
    with (String q1 EmptyString ++ (d ++ String q2 EmptyString))%string.
  econstructor; [constructor; exact Hq1|].
  econstructor; [now apply matches_specifier|].
  constructor. exact Hq2.
Qed.

Lemma fromClause_shape (R : string) (c0 c1 : option string) :
  matches fromClause c0 R c1 ->
  exists w2 w3 q1 d q2,
    R = (w2 ++ "from" ++ w3 ++ String q1 (d ++ String q2 EmptyString))%string
    /\ blank w2 = true /\ blank w3 = true
    /\ isQuote q1 = true /\ isQuote q2 = true /\ isPackageName d = true
    /\ c1 = Some d.
Proof.
  unfold fromClause. intros H.
  apply matches_Seq_inv in H as (w2 & r1 & a1 & -> & H2 & H).
  apply matches_Seq_inv in H as (f & r2 & a2 & -> & Hf & H).
  apply matches_Seq_inv in H as (w3 & r3 & a3 & -> & H3 & H).
  apply matches_Seq_inv in H as (x1 & r4 & a4 & -> & Hx1 & H).
  apply matches_Seq_inv in H as (d & x2 & a5 & -> & Hd & Hx2).
  apply matches_Plus_class_inv in H2 as (Hn2 & Hw2 & ->).
  apply matches_Lit_inv in Hf as (-> & ->).
  apply matches_Plus_class_inv in H3 as (Hn3 & Hw3 & ->).
  apply matches_Class_inv in Hx1 as (q1 & -> & Hq1 & ->).
  apply matches_specifier_inv in Hd as (-> & Hd).
  apply matches_Class_inv in Hx2 as (q2 & -> & Hq2 & ->).
  exists w2, w3, q1, d, q2.
  repeat split; try assumption; now apply blank_spec.
Qed.

(** *** The import pattern *)

(** What a successful attempt of the import pattern has consumed: the
    keyword, white space, a run of code units of one line that is the
    shortest for which the rest of the pattern matches, and the rest. *)
Lemma import_run_shape (s : string) (k : cont) (ans : answer) :
  run importPattern s None k = Some ans ->
  exists w1 mid R s' c',
    s = ("import" ++ w1 ++ mid ++ R ++ s')%string
    /\ blank w1 = true /\ allChars is_dot mid = true
    /\ matches fromClause None R c' /\ k s' c' = Some ans
    /\ (forall u1 u2, mid = (u1 ++ u2)%string -> u2 <> EmptyString ->
                      run fromClause (u2 ++ R ++ s') None k = None).
Proof.
  change importPattern
    with (Seq (Lit "import") (Seq (Plus space) (Seq (Star false dot)
                                                     fromClause))).
  rewrite run_Seq_eq. intros H.
  apply run_matches in H as (u & s1 & c1 & -> & Hu & H).
  apply matches_Lit_inv in Hu as (-> & ->).
  rewrite run_Seq_eq in H.
  apply run_matches in H as (w1 & s2 & c2 & -> & Hw1 & H).
  apply matches_Plus_class_inv in Hw1 as (Hn1 & Hw1 & ->).
  rewrite run_Seq_eq in H.
  apply lazy_class_first in H as (mid & s3 & -> & Hmid & H & Hmin).
  pose proof H as Hrest.
  apply run_matches in H as (R & s' & c' & -> & HR & H).
  exists w1, mid, R, s', c'.
  repeat split; try assumption. now apply blank_spec.
Qed.

Lemma matchHere_import (s : string) (m : MatchResult) :
  matchHere importPattern s = Some m ->
  exists w1 mid w2 w3 q1 d q2,
    whole m = ("import" ++ w1 ++ mid
               ++ w2 ++ "from" ++ w3
               ++ String q1 (d ++ String q2 EmptyString))%string
    /\ s = (whole m ++ after m)%string
    /\ group1 m = Some d
    /\ blank w1 = true /\ allChars is_dot mid = true
    /\ blank w2 = true /\ blank w3 = true
    /\ isQuote q1 = true /\ isQuote q2 = true /\ isPackageName d = true
    /\ (forall u1 u2, mid = (u1 ++ u2)%string -> u2 <> EmptyString ->
          run fromClause
              (u2 ++ (w2 ++ "from" ++ w3
                      ++ String q1 (d ++ String q2 EmptyString))
                  ++ after m)
              None (fun s' cap => Some (s', cap)) = None).
Proof.
  unfold matchHere.
  destruct (run importPattern s None (fun s' cap => Some (s', cap)))
    as [[s' cap]|] eqn:H; [|discriminate].
  intros Hm. injection Hm as <-. simpl.
  apply import_run_shape in H
    as (w1 & mid & R & s1 & c1 & -> & Hw1 & Hmid & HR & Hk & Hmin).
  injection Hk as -> ->.
  apply fromClause_shape in HR
    as (w2 & w3 & q1 & d & q2 & -> & Hw2 & Hw3 & Hq1 & Hq2 & Hd & ->).
  exists w1, mid, w2, w3, q1, d, q2.
  assert (Hs : ("import" ++ w1 ++ mid
                ++ (w2 ++ "from" ++ w3
                    ++ String q1 (d ++ String q2 EmptyString)) ++ s')%string
               = (("import" ++ w1 ++ mid
                   ++ w2 ++ "from" ++ w3
                   ++ String q1 (d ++ String q2 EmptyString)) ++ s')%string).
  { now rewrite !append_assoc. }
  rewrite Hs, take_append.
  repeat split; assumption.
Qed.

Section ImportDeclaration.

Context (w1 clause w2 w3 : string) (q1 q2 : ascii) (d post : string).
Context (Hw1 : blank w1 = true) (Hclause : plainClause clause = true).
Context (Hw2 : blank w2 = true) (Hw3 : blank w3 = true).
Context (Hq1 : isQuote q1 = true) (Hq2 : isQuote q2 = true).
Context (Hd : isPackageName d = true).

Let notQuote (c : ascii) : bool := negb (isQuote c).
Let head : string := ("import" ++ w1 ++ clause ++ w2 ++ "from" ++ w3)%string.
Let tail : string := String q1 (d ++ String q2 post).

Lemma importDeclaration_split :
  (importDeclaration w1 clause w2 w3 q1 d q2 ++ post)%string
  = (head ++ tail)%string.
Proof.
  unfold importDeclaration, head, tail.
  rewrite !append_assoc. simpl. now rewrite !append_assoc.
Qed.

Lemma blank_not_quote (w : string) :
  blank w = true -> allChars notQuote w = true.
Proof.
  intros [_ H]%blank_spec. revert H. apply allChars_not, space_not_quote.
Qed.

Lemma packageName_not_quote (x : string) :
  isPackageName x = true -> allChars notQuote x = true.
Proof.
  intros [_ H]%packageName_scoped. revert H.
  apply allChars_not, scoped_not_quote.
Qed.

Lemma head_not_quote : allChars notQuote head = true.
Proof.
  unfold head. unfold plainClause in Hclause.
  apply andb_true_iff in Hclause as [[_ Hnq]%andb_true_iff _].
  rewrite !allChars_append.
  rewrite (blank_not_quote w1 Hw1), (blank_not_quote w2 Hw2),
    (blank_not_quote w3 Hw3).
  fold notQuote in Hnq. rewrite Hnq. reflexivity.
Qed.

(** The rest of the pattern matches where the clause ends. *)
Lemma fromClause_at_clause_end :
  run fromClause (w2 ++ "from" ++ w3 ++ tail) None
      (fun s' cap => Some (s', cap)) <> None.
Proof.
  replace (w2 ++ "from" ++ w3 ++ tail)%string
    with ((w2 ++ "from" ++ w3 ++ String q1 (d ++ String q2 EmptyString))
          ++ post)%string.
  - apply (matches_run fromClause None _ (Some d)).
    + now apply matches_fromClause.
    + discriminate.
  - unfold tail. rewrite !append_assoc. simpl. now rewrite !append_assoc.
Qed.

Lemma import_at_declaration :
  matchHere importPattern (head ++ tail) <> None.
Proof.
  unfold matchHere.
  assert (H : run importPattern (head ++ tail) None
                  (fun s' cap => Some (s', cap)) <> None).
  { replace (head ++ tail)%string
      with (("import" ++ w1 ++ clause
             ++ (w2 ++ "from" ++ w3 ++ String q1 (d ++ String q2 EmptyString)))
            ++ post)%string.
    - apply (matches_run importPattern None _ (Some d)); [|discriminate].
      change importPattern
        with (Seq (Lit "import") (Seq (Plus space) (Seq (Star false dot)
                                                         fromClause))).
      apply blank_spec in Hw1 as [Hn1 Hs1].
      unfold plainClause in Hclause.
      apply andb_true_iff in Hclause as [[Hdot _]%andb_true_iff _].
      econstructor; [apply matches_Lit|].
      econstructor; [now apply (matches_Plus_class is_space)|].
      econstructor; [now apply (matches_star_class false is_dot)|].
      now apply matches_fromClause.
    - unfold head, tail. rewrite !append_assoc. simpl.
      now rewrite !append_assoc. }
  destruct (run importPattern (head ++ tail) None
                (fun s' cap => Some (s', cap))) as [[s' cap]|];
    [discriminate|contradiction].
Qed.

(** A match of the import pattern that reaches into the declaration,
    from wherever it starts, captures the specifier of the
    declaration. *)
Lemma import_overlap (pre : string) (m : MatchResult) :
  matchHere importPattern (pre ++ head ++ tail) = Some m ->
  pre = EmptyString \/ String.length pre < String.length (whole m) ->
  group1 m = Some d.
Proof.
  intros Hm Hov.
  apply matchHere_import in Hm
    as (w1' & mid & w2' & w3' & q1' & d' & q2' & Hwhole & Hs & -> & Hw1'
        & Hmid & Hw2' & Hw3' & Hq1' & Hq2' & Hd' & Hmin).
  f_equal.
  pose proof head_not_quote as Hhead.
  assert (Hnq : notQuote q1 = false) by (unfold notQuote; now rewrite Hq1).
  assert (Hnq' : notQuote q1' = false) by (unfold notQuote; now rewrite Hq1').
  assert (Hnq2 : notQuote q2 = false) by (unfold notQuote; now rewrite Hq2).
  assert (Hnq2' : notQuote q2' = false) by (unfold notQuote; now rewrite Hq2').
  assert (Hfrom' : allChars notQuote (w2' ++ "from" ++ w3') = true).
  { rewrite !allChars_append, (blank_not_quote w2' Hw2'),
      (blank_not_quote w3' Hw3'). reflexivity. }
  (* the input, read in the two ways *)
  set (X := ("import" ++ w1' ++ mid)%string).
  set (W := (w2' ++ "from" ++ w3')%string) in *.
  assert (Heq : (X ++ (W ++ String q1' (d' ++ String q2' (after m))))%string
                = ((pre ++ head) ++ tail)%string).
  { rewrite append_assoc, Hs, Hwhole. unfold X, W.
    rewrite !append_assoc. simpl. now rewrite !append_assoc. }
  assert (Hlen : String.length (whole m)
                 = String.length X + String.length W
                   + S (String.length d' + 1)).
  { rewrite Hwhole. unfold X, W. rewrite !length_append. simpl.
    rewrite !length_append. simpl. lia. }
  apply append_eq_split in Heq as [(t & Hy & Hr)|(t & Ht & Hx & Ht')].
  - apply append_eq_split in Hy as [(t' & Hx & Hh)|(t' & Hne & Hpre & Ht)].
    + (* the rest of the pattern starts inside the declaration *)
      assert (Htq : allChars notQuote t = true).
      { rewrite Hh, allChars_append in Hhead.
        now apply andb_true_iff in Hhead as [_ Hhead]. }
      unfold tail in Hr.
      apply first_stop_unique with (p := notQuote) in Hr
        as (_ & _ & Hr); try assumption.
      apply first_stop_unique with (p := notQuote) in Hr
        as (Hr & _); try assumption; now apply packageName_not_quote.
    + (* it starts before the declaration *)
      exfalso.
      assert (Hlt : String.length pre < String.length (whole m)).
      { destruct Hov as [->|Hov]; [|exact Hov].
        unfold X in Hpre. discriminate. }
      rewrite Hlen, Hpre, length_append in Hlt.
      set (R := (W ++ String q1' (d' ++ String q2' EmptyString))%string).
      assert (HR : (R ++ after m)%string = (t' ++ head ++ tail)%string).
      { unfold R. rewrite append_assoc. simpl. rewrite append_assoc. simpl.
        rewrite Hr, Ht. now rewrite append_assoc. }
      assert (HlenR : String.length R
                      = String.length W + S (String.length d' + 1)).
      { unfold R. rewrite length_append. simpl. rewrite length_append.
        reflexivity. }
      apply append_eq_split in HR as [(z & Hz & _)|(z & Hz & HRz & Hhz)].
      { rewrite Hz, length_append in Hlt. lia. }
      assert (Hlast : exists z', z = (z' ++ String q2' EmptyString)%string).
      { apply (last_char (W ++ String q1' d') t'); [|exact Hz].
        rewrite <- HRz. unfold R. rewrite append_assoc. reflexivity. }
      destruct Hlast as (z' & Hz').
      apply append_eq_split in Hhz as [(y & Hzy & _)|(y & _ & Hhy & _)].
      2:{ rewrite Hhy, allChars_append, Hz' in Hhead.
          rewrite (allChars_false_middle notQuote z' q2' EmptyString Hnq2')
            in Hhead. discriminate. }
      (* the match would have to hold "import" and the blank after it *)
      apply blank_spec in Hw1 as [Hn1 Hs1].
      destruct w1 as [|x w1r]; [contradiction|].
      simpl in Hs1. apply andb_true_iff in Hs1 as [Hx _].
      assert (HR' : (W ++ String q1' (d' ++ String q2' EmptyString))%string
                    = ((t' ++ "import")
                       ++ String x (w1r ++ clause ++ w2 ++ "from" ++ w3 ++ y))%string).
      { fold R. rewrite HRz, Hzy. unfold head.
        rewrite !append_assoc. reflexivity. }
      apply append_eq_split in HR' as [(tt & Htt & Hq)|(tt & _ & HW & _)].
      * destruct tt as [|q tt']; simpl in Hq.
        -- injection Hq as -> _. apply quote_not_space in Hq1'. congruence.
        -- injection Hq as _ Hq.
           assert (Hns : allChars (fun c => negb (is_space c))
                                  (d' ++ String q2' EmptyString) = true).
           { rewrite allChars_append. apply andb_true_iff. split.
             - apply packageName_scoped in Hd' as [_ Hd'].
               revert Hd'. apply allChars_not, scoped_not_space.
             - simpl. now rewrite (quote_not_space _ Hq2'). }
           rewrite Hq in Hns.
           rewrite allChars_false_middle in Hns; [discriminate|].
           now rewrite Hx.
      * assert (Hni : allChars (fun c => negb (Ascii.eqb c "i")) W = true).
        { unfold W. rewrite !allChars_append.
          apply blank_spec in Hw2' as [_ Hw2'].
          apply blank_spec in Hw3' as [_ Hw3'].
          rewrite (allChars_not _ _ _ space_not_i Hw2'),
            (allChars_not _ _ _ space_not_i Hw3'). reflexivity. }
        rewrite HW, !allChars_append in Hni. simpl in Hni.
        rewrite andb_false_r in Hni. discriminate.
  - (* the lazy run holds the opening quote of the declaration *)
    exfalso.
    assert (HX : (("import" ++ w1') ++ mid)%string
                 = ((pre ++ "import" ++ w1 ++ clause)
                    ++ (w2 ++ "from" ++ w3 ++ t))%string).
    { rewrite append_assoc. fold X. rewrite Hx. unfold head.
      rewrite !append_assoc. reflexivity. }
    apply append_eq_split in HX as [(v & HC & Hv)|(v & Hv & HZ & _)].
    + apply fromClause_at_clause_end.
      rewrite Ht'.
      specialize (Hmin v (w2 ++ "from" ++ w3 ++ t)%string Hv).
      replace (w2 ++ "from" ++ w3
               ++ t ++ W ++ String q1' (d' ++ String q2' (after m)))%string
        with ((w2 ++ "from" ++ w3 ++ t)
              ++ (w2' ++ "from" ++ w3'
                  ++ String q1' (d' ++ String q2' EmptyString))
              ++ after m)%string.
      * apply Hmin. apply blank_spec in Hw2 as [Hn2 _].
        destruct w2; [contradiction|discriminate].
      * unfold W. rewrite !append_assoc. simpl. rewrite !append_assoc.
        reflexivity.
    + apply blank_spec in Hw1' as [_ Hs1'].
      destruct pre as [|a pre']; simpl in HZ.
      * injection HZ as HZ.
        rewrite HZ, !allChars_append in Hs1'.
        unfold plainClause in Hclause.
        apply andb_true_iff in Hclause as [_ Hc].
        apply negb_true_iff in Hc. rewrite Hc in Hs1'.
        rewrite andb_false_r in Hs1'. discriminate.
      * injection HZ as _ HZ.
        assert (Hni : allChars (fun c => negb (Ascii.eqb c "i"))
                               ((pre' ++ "import" ++ w1 ++ clause) ++ v)
                      = true).
        { replace ((pre' ++ "import" ++ w1 ++ clause) ++ v)%string
            with ("mport" ++ w1')%string by exact HZ.
          simpl. apply (allChars_not _ _ _ space_not_i Hs1'). }
        change ((pre' ++ "import" ++ w1 ++ clause) ++ v)%string
          with ((pre' ++ String "i" ("mport" ++ w1 ++ clause)) ++ v)%string
          in Hni.
        rewrite allChars_append, allChars_false_middle in Hni;
          [discriminate|reflexivity].
Qed.

End ImportDeclaration.

(** *** The require pattern *)

Lemma matchHere_require (s : string) (m : MatchResult) :
  matchHere requirePattern s = Some m ->
  exists q1 d q2,
    whole m = requireCall q1 d q2
    /\ s = (whole m ++ after m)%string
    /\ group1 m = Some d
    /\ isQuote q1 = true /\ isQuote q2 = true /\ isPackageName d = true.
Proof.
  unfold matchHere.
  destruct (run requirePattern s None (fun s' cap => Some (s', cap)))
    as [[s' cap]|] eqn:H; [|discriminate].
  intros Hm. injection Hm as <-. simpl.
  apply run_matches in H as (u & s1 & c1 & -> & Hu & Hk).
  injection Hk as -> ->. rewrite take_append.
  unfold requirePattern in Hu.
  apply matches_Seq_inv in Hu as (l & r1 & a1 & -> & Hl & H).
  apply matches_Seq_inv in H as (x1 & r2 & a2 & -> & Hx1 & H).
  apply matches_Seq_inv in H as (d & r3 & a3 & -> & Hd & H).
  apply matches_Seq_inv in H as (x2 & r4 & a4 & -> & Hx2 & Hp).
  apply matches_Lit_inv in Hl as (-> & ->).
  apply matches_Class_inv in Hx1 as (q1 & -> & Hq1 & ->).
  apply matches_specifier_inv in Hd as (-> & Hd).
  apply matches_Class_inv in Hx2 as (q2 & -> & Hq2 & ->).
  apply matches_Class_inv in Hp as (p & -> & Hp & ->).
  apply Ascii.eqb_eq in Hp as <-.
  exists q1, d, q2. repeat split; assumption.
Qed.

Lemma require_at_call (q1 : ascii) (d : string) (q2 : ascii) (post : string) :
  isQuote q1 = true -> isQuote q2 = true -> isPackageName d = true ->
  matchHere requirePattern (requireCall q1 d q2 ++ post) <> None.
Proof.
  intros Hq1 Hq2 Hd. unfold matchHere.
  assert (H : run requirePattern (requireCall q1 d q2 ++ post) None
                  (fun s' cap => Some (s', cap)) <> None).
  { apply (matches_run requirePattern None _ (Some d)); [|discriminate].
    unfold requirePattern, requireCall.
    econstructor; [apply matches_Lit|].
    change (String q1 (d ++ String q2 ")"))
      with (String q1 EmptyString ++ (d ++ String q2 ")"))%string.
    econstructor; [constructor; exact Hq1|].
    econstructor; [now apply matches_specifier|].
    change (String q2 ")") with (String q2 EmptyString ++ ")")%string.
    econstructor; [constructor; exact Hq2|].
    constructor. reflexivity. }
  destruct (run requirePattern (requireCall q1 d q2 ++ post) None
                (fun s' cap => Some (s', cap))) as [[s' cap]|];
    [discriminate|contradiction].
Qed.

(** A match of the require pattern cannot start before a call and
    reach into it. *)
Lemma require_overlap (q1 : ascii) (d : string) (q2 : ascii)
      (pre post : string) (m : MatchResult) :
  isQuote q1 = true -> isQuote q2 = true -> isPackageName d = true ->
  matchHere requirePattern (pre ++ requireCall q1 d q2 ++ post) = Some m ->
  pre = EmptyString \/ String.length pre < String.length (whole m) ->
  group1 m = Some d.
Proof.
  intros Hq1 Hq2 Hd Hm Hov.
  apply matchHere_require in Hm
    as (q1' & d' & q2' & Hwhole & Hs & -> & Hq1' & Hq2' & Hd').
  f_equal.
  set (notQuote := fun c => negb (isQuote c)).
  assert (Hnq : forall x, isPackageName x = true ->
                          allChars notQuote x = true).
  { intros x [_ H]%packageName_scoped. revert H.
    apply allChars_not, scoped_not_quote. }
  destruct pre as [|a pre'].
  - simpl in Hs. rewrite Hwhole in Hs. unfold requireCall in Hs.
    simpl in Hs. injection Hs as -> Hs.
    rewrite !append_assoc in Hs. simpl in Hs.
    apply first_stop_unique with (p := notQuote) in Hs as (Hs & _);
      try (now apply Hnq); [now symmetry| |]; unfold notQuote;
      [now rewrite Hq2|now rewrite Hq2'].
  - exfalso.
    destruct Hov as [Hov|Hov]; [discriminate|].
    symmetry in Hs.
    apply append_eq_split in Hs as [(t & Ht & _)|(t & Ht & Hw & Hc)].
    { rewrite Ht, length_append in Hov. lia. }
    assert (Hc' : ("require(" ++ String q1 (d ++ String q2 (")" ++ post)))%string
                  = (t ++ after m)%string).
    { rewrite <- Hc. unfold requireCall. rewrite !append_assoc. simpl.
      now rewrite !append_assoc. }
    apply append_eq_split in Hc' as [(y & Hy & _)|(y & _ & Hy & _)].
    + (* the match would hold a second opening parenthesis *)
      assert (Hnp : allChars (fun c => negb (Ascii.eqb c "("))
                             (String q1' (d' ++ String q2' ")")) = true).
      { simpl. rewrite (proj1 (quote_not_paren _ Hq1')). simpl.
        rewrite allChars_append. apply andb_true_iff. split.
        - apply packageName_scoped in Hd' as [_ Hd'].
          revert Hd'. apply allChars_not, scoped_not_paren.
        - simpl. now rewrite (proj1 (quote_not_paren _ Hq2')). }
      assert (HM : ("require(" ++ String q1' (d' ++ String q2' ")"))%string
                   = ((String a pre' ++ "require") ++ String "(" y)%string).
      { change ("require(" ++ String q1' (d' ++ String q2' ")"))%string
          with (requireCall q1' d' q2').
        rewrite <- Hwhole, Hw, Hy. rewrite !append_assoc. reflexivity. }
      apply append_eq_split in HM as [(z & _ & Hz)|(z & Hz & Hlen & _)].
      * rewrite Hz in Hnp. rewrite allChars_false_middle in Hnp;
          [discriminate|reflexivity].
      * apply (f_equal String.length) in Hlen.
        rewrite !length_append in Hlen. simpl in Hlen.
        destruct z; [contradiction|simpl in Hlen; lia].
    + (* or end inside the keyword *)
      assert (Hlast : exists z', t = (z' ++ ")")%string).
      { apply (last_char ("require(" ++ String q1' (d' ++ String q2' ""))
                         (String a pre')); [|exact Ht].
        rewrite <- Hw, Hwhole. unfold requireCall.
        rewrite !append_assoc. simpl. rewrite !append_assoc. reflexivity. }
      destruct Hlast as (z' & ->).
      assert (Hk : allChars (fun c => negb (Ascii.eqb c ")")) "require("
                   = true) by reflexivity.
      rewrite Hy, !allChars_append in Hk. simpl in Hk.
      rewrite !andb_false_r in Hk. discriminate.
Qed.

(** *** All the matches of a pattern *)

(** A match that [matchAll] lists is a match at some index. *)
Lemma matchAllFrom_suffix (r : regex) (s : string) (skip : nat)
      (m : MatchResult) :
  In m (matchAllFrom r s skip) ->
  exists before s',
    s = (before ++ s')%string /\ matchHere r s' = Some m.
Proof.
  revert skip. induction s as [|c s IH]; intros skip; simpl.
  - destruct skip; [|contradiction].
    destruct (matchHere r EmptyString) eqn:H; [|contradiction].
    intros [<-|[]]. exists EmptyString, EmptyString. auto.
  - assert (Hrest : forall k,
               In m (matchAllFrom r s k) ->
               exists before s',
                 String c s = (before ++ s')%string
                 /\ matchHere r s' = Some m).
    { intros k Hin. apply IH in Hin as (before & s' & -> & Hm).
      exists (String c before), s'. auto. }
    destruct skip as [|skip]; [|apply Hrest].
    destruct (matchHere r (String c s)) eqn:H.
    + intros [<-|Hin]; [|now apply Hrest in Hin].
      exists EmptyString, (String c s). auto.
    + apply Hrest.
Qed.

(** [matchAll] lists a capture when the pattern matches at some index
    and every match that reaches that index has this capture. *)
Lemma matchAllFrom_reaches (r : regex) (target : string)
      (g : option string) :
  matchHere r target <> None ->
  (forall pre m,
      matchHere r (pre ++ target) = Some m ->
      pre = EmptyString \/ String.length pre < String.length (whole m) ->
      group1 m = g) ->
  forall pre skip,
    skip <= String.length pre ->
    In g (map group1 (matchAllFrom r (pre ++ target) skip)).
Proof.
  intros Hex Hcap.
  induction pre as [|c pre IH]; intros skip Hskip.
  - simpl in Hskip. assert (skip = 0) as -> by lia. simpl.
    destruct (matchHere r target) as [m|] eqn:Hm; [|contradiction].
    assert (Hg : group1 m = g) by (apply (Hcap EmptyString); auto).
    destruct target; simpl; rewrite Hm; simpl; auto.
  - simpl. destruct skip as [|skip].
    + destruct (matchHere r (String c (pre ++ target))) as [m|] eqn:Hm.
      * destruct (le_lt_dec (String.length (whole m)) (S (String.length pre)))
          as [Hle|Hgt].
        -- simpl. right. apply IH. lia.
        -- simpl. left. apply (Hcap (String c pre)); [exact Hm|].
           right. simpl. lia.
      * apply IH. lia.
    + apply IH. simpl in Hskip. lia.
Qed.

Lemma capture_group1 (l : list MatchResult) (d : string) :
  In (Some d) (map group1 l) -> In d (map capture l).
Proof.
  rewrite !in_map_iff. intros (m & Hm & Hin). exists m.
  split; [|exact Hin]. unfold capture. now rewrite Hm.
Qed.

(** Every import declaration with a plain clause is found, wherever it
    stands in the content. *)
Lemma import_declaration_found (before after w1 clause w2 w3 : string)
      (q1 : ascii) (d : string) (q2 : ascii) :
  blank w1 = true -> plainClause clause = true ->
  blank w2 = true -> blank w3 = true ->
  isQuote q1 = true -> isQuote q2 = true -> isPackageName d = true ->
  In d (importSpecifiers
          (before ++ importDeclaration w1 clause w2 w3 q1 d q2 ++ after)).
Proof.
  intros Hw1 Hc Hw2 Hw3 Hq1 Hq2 Hd.
  unfold importSpecifiers, matchAll. apply capture_group1.
  rewrite importDeclaration_split.
  apply matchAllFrom_reaches; [now apply import_at_declaration| |lia].
  intros pre m. now apply import_overlap.
Qed.

(** So is every require call. *)
Lemma require_call_found (before after : string) (q1 : ascii) (d : string)
      (q2 : ascii) :
  isQuote q1 = true -> isQuote q2 = true -> isPackageName d = true ->
  In d (requireSpecifiers (before ++ requireCall q1 d q2 ++ after)).
Proof.
  intros Hq1 Hq2 Hd.
  unfold requireSpecifiers, matchAll. apply capture_group1.
  apply matchAllFrom_reaches; [now apply require_at_call| |lia].
  intros pre m. now apply require_overlap.
Qed.

(** And nothing else is found. *)
Lemma importSpecifiers_In (content d : string) :
  In d (importSpecifiers content) ->
  exists before after w1 mid w2 w3 q1 q2,
    content = (before ++ importDeclaration w1 mid w2 w3 q1 d q2
               ++ after)%string
    /\ blank w1 = true /\ allChars is_dot mid = true
    /\ blank w2 = true /\ blank w3 = true
    /\ isQuote q1 = true /\ isQuote q2 = true /\ isPackageName d = true.
Proof.
  unfold importSpecifiers, matchAll. rewrite in_map_iff.
  intros (m & <- & Hin).
  apply matchAllFrom_suffix in Hin as (before & s' & -> & Hm).
  apply matchHere_import in Hm
    as (w1 & mid & w2 & w3 & q1 & d & q2 & Hwhole & -> & Hg & H).
  exists before, (after m), w1, mid, w2, w3, q1, q2.
  unfold capture. rewrite Hg, Hwhole. unfold importDeclaration.
  repeat split; try tauto.
Qed.

Lemma requireSpecifiers_In (content d : string) :
  In d (requireSpecifiers content)
  <-> exists before after q1 q2,
        content = (before ++ requireCall q1 d q2 ++ after)%string
        /\ isQuote q1 = true /\ isQuote q2 = true /\ isPackageName d = true.
Proof.
  split.
  - unfold requireSpecifiers, matchAll. rewrite in_map_iff.
    intros (m & <- & Hin).
    apply matchAllFrom_suffix in Hin as (before & s' & -> & Hm).
    apply matchHere_require in Hm
      as (q1 & d & q2 & Hwhole & -> & Hg & H).
    exists before, (after m), q1, q2.
    unfold capture. rewrite Hg, Hwhole. tauto.
  - intros (before & after & q1 & q2 & -> & Hq1 & Hq2 & Hd).
    now apply require_call_found.
Qed.

Lemma packageName_external (d : string) :
  isPackageName d = true ->
  external d = true /\ includes d "." = false /\ includes d ":" = false.
Proof.
  intros [_ H]%packageName_scoped. now apply scoped_external.
Qed.

Lemma extractDependencies_In (content d : string) :
  In d (extractDependencies content)
  <-> In d (capturedSpecifiers content)
      /\ startsWith d "." = false /\ startsWith d "node:" = false.
Proof.
  now rewrite extractDependencies_collect, collectDependencies_In,
    external_iff.
Qed.

Lemma captured_dependency (content d : string) :
  isPackageName d = true ->
  In d (capturedSpecifiers content) -> In d (extractDependencies content).
Proof.
  intros Hd Hin. apply extractDependencies_In. split; [exact Hin|].
  apply external_iff. now apply packageName_external.
Qed.




(** ** Files without comments *)

Lemma exec_position (r : regex) (s : string) (m : MatchResult) :
  exec r s = Some m ->
  exists before, s = (before ++ whole m ++ after m)%string.
Proof.
  induction s as [|c s IH]; simpl; intros H.
  - destruct (matchHere r EmptyString) eqn:Hm; [|discriminate].
    injection H as ->. apply matchHere_sound in Hm as [Hm _].
    exists EmptyString. exact Hm.
  - destruct (matchHere r (String c s)) eqn:Hm.
    + injection H as ->. apply matchHere_sound in Hm as [Hm _].
      exists EmptyString. exact Hm.
    + destruct (IH H) as [before ->]. exists (String c before). reflexivity.
Qed.

Lemma exec_needs_literal (lit : string) (r : regex) (s : string) :
  includes s lit = false -> exec (Seq (Lit lit) r) s = None.
Proof.
  intros Hno. destruct (exec (Seq (Lit lit) r) s) as [m|] eqn:Hm;
    [|reflexivity].
  destruct (exec_position _ _ _ Hm) as [before Hs].
  apply exec_sound, lang_Seq_inv in Hm as (u & v & Hw & Hu & _).
  apply lang_Lit_inv in Hu as ->.
  assert (Hin : includes s lit = true).
  { apply includes_iff. exists before, (v ++ after m)%string.
    now rewrite Hs, Hw, !append_assoc. }
  congruence.
Qed.

(** X10.  A content that holds neither "//" nor "/**" has no comment
    for [extractDescription] to read, and its description is the
    generated sentence, which is never empty. *)
Theorem uncommented_file_description (content componentName : string) :
  includes content "//" = false ->
  includes content "/**" = false ->
  extractDescription content componentName
  = (componentName ++ " component from VengeanceUI")%string
  /\ extractDescription content componentName <> EmptyString.
Proof.
  intros Hline Hblock.
  assert (H : extractDescription content componentName
              = (componentName ++ " component from VengeanceUI")%string).
  { unfold extractDescription, fromComment, jsdocPattern, commentPattern.
    now rewrite (exec_needs_literal "/**" _ _ Hblock),
      (exec_needs_literal "//" _ _ Hline). }
  split; [exact H|]. rewrite H.
  destruct componentName; discriminate.
Qed.

Lemma uncommented_file_description_witness :
  extractDescription "export const Orb = () => null;" "Orb"
  = "Orb component from VengeanceUI".
Proof.
  apply (uncommented_file_description "export const Orb = () => null;" "Orb");
    reflexivity.
Defined.

(** ** Categories *)

Lemma has_eqb (k : string) (ks : list string) :
  has k ks = existsb (fun k' => String.eqb k' k) ks.
Proof.
  unfold has. induction ks as [|x ks IH]; simpl; [reflexivity|].
  now rewrite IH, String.eqb_sym.
Qed.

Lemma hasKey_map (F : string -> list ComponentMetadata) (k : string)
      (ks : list string) :
  hasKey k (map (fun k' => (k', F k')) ks) = has k ks.
Proof.
  rewrite has_eqb. unfold hasKey.
  induction ks as [|x ks IH]; simpl; [reflexivity|]. now rewrite IH.
Qed.

Lemma categoriesOf_snoc (l : list ComponentMetadata) (c : ComponentMetadata) :
  categoriesOf (l ++ [c]) = add (category c) (categoriesOf l).
Proof.
  unfold categoriesOf. now rewrite map_app, fold_left_app.
Qed.

Lemma categoriesOf_In (l : list ComponentMetadata) (k : string) :
  In k (categoriesOf l) <-> exists c, In c l /\ category c = k.
Proof.
  unfold categoriesOf. rewrite addAll_In, in_map_iff. simpl.
  split; [intros [[]|(c & H1 & H2)]; eauto|intros (c & H1 & H2); eauto].
Qed.

Lemma categoriesOf_NoDup (l : list ComponentMetadata) :
  NoDup (categoriesOf l).
Proof. apply addAll_NoDup. constructor. Qed.

Lemma members_snoc (l : list ComponentMetadata) (c : ComponentMetadata)
      (k : string) :
  members (l ++ [c]) k
  = if String.eqb k (category c) then members l k ++ [c] else members l k.
Proof.
  unfold members. rewrite filter_app. simpl.
  rewrite (String.eqb_sym k). destruct (String.eqb (category c) k).
  - reflexivity.
  - apply app_nil_r.
Qed.

Lemma pushInto_map (F : string -> list ComponentMetadata) (k : string)
      (c : ComponentMetadata) (ks : list string) :
  NoDup ks ->
  pushInto k c (map (fun k' => (k', F k')) ks)
  = map (fun k' => (k', if String.eqb k' k then F k' ++ [c] else F k')) ks.
Proof.
  induction 1 as [|x ks Hx Hnd IH]; simpl; [reflexivity|].
  destruct (String.eqb x k) eqn:Hxk.
  - f_equal. apply map_ext_in. intros y Hy.
    destruct (String.eqb y k) eqn:Hyk; [|reflexivity].
    apply String.eqb_eq in Hxk, Hyk. subst. contradiction.
  - now rewrite IH.
Qed.

Lemma groupStep_spec (l : list ComponentMetadata) (c : ComponentMetadata) :
  groupStep (map (fun k => (k, members l k)) (categoriesOf l)) c
  = map (fun k => (k, members (l ++ [c]) k)) (categoriesOf (l ++ [c])).
Proof.
  unfold groupStep.
  assert (Hensure :
            (if negb (hasKey (category c)
                        (map (fun k => (k, members l k)) (categoriesOf l)))
             then map (fun k => (k, members l k)) (categoriesOf l)
                  ++ [(category c, [])]
             else map (fun k => (k, members l k)) (categoriesOf l))
            = map (fun k => (k, members l k)) (categoriesOf (l ++ [c]))).
  { rewrite categoriesOf_snoc, hasKey_map. unfold add.
    destruct (has (category c) (categoriesOf l)) eqn:Hhas; simpl;
      [reflexivity|].
    rewrite map_app. simpl. do 3 f_equal.
    unfold members.
    destruct (filter (fun c0 => String.eqb (category c0) (category c)) l)
      as [|x xs] eqn:Hf; [reflexivity|].
    assert (Hx : In x (filter (fun c0 => String.eqb (category c0) (category c)) l))
      by (rewrite Hf; now left).
    apply filter_In in Hx as [Hx Hc]. apply String.eqb_eq in Hc.
    assert (Hin : In (category c) (categoriesOf l))
      by (apply categoriesOf_In; eauto).
    apply has_In in Hin. congruence. }
  rewrite Hensure, pushInto_map by apply categoriesOf_NoDup.
  apply map_ext. intros k. now rewrite members_snoc.
Qed.

Lemma groupByCategory_spec (loaded : list ComponentMetadata) :
  groupByCategory loaded
  = map (fun k => (k, members loaded k)) (categoriesOf loaded).
Proof.
  unfold groupByCategory.
  assert (H : forall l2 l1,
             fold_left groupStep l2
                       (map (fun k => (k, members l1 k)) (categoriesOf l1))
             = map (fun k => (k, members (l1 ++ l2) k))
                   (categoriesOf (l1 ++ l2))).
  { induction l2 as [|c l2 IH]; intros l1; simpl.
    - now rewrite app_nil_r.
    - rewrite groupStep_spec, IH, <- app_assoc. reflexivity. }
  apply (H loaded []).
Qed.

Lemma pushInto_total (k : string) (c : ComponentMetadata) (groups : Groups) :
  hasKey k groups = true ->
  list_sum (map (fun e => List.length (snd e)) (pushInto k c groups))
  = S (list_sum (map (fun e => List.length (snd e)) groups)).
Proof.
  unfold hasKey.
  induction groups as [|[k' ms] rest IH]; simpl; [discriminate|].
  destruct (String.eqb k' k); simpl.
  - intros _. rewrite length_app. simpl. lia.
  - intros H. rewrite (IH H). lia.
Qed.

Lemma groupStep_total (groups : Groups) (c : ComponentMetadata) :
  list_sum (map (fun e => List.length (snd e)) (groupStep groups c))
  = S (list_sum (map (fun e => List.length (snd e)) groups)).
Proof.
  unfold groupStep.
  destruct (hasKey (category c) groups) eqn:Hhas; simpl.
  - now apply pushInto_total.
  - rewrite pushInto_total.
    + rewrite map_app, list_sum_app. simpl. lia.
    + unfold hasKey. rewrite existsb_app. simpl.
      now rewrite String.eqb_refl, orb_true_r.
Qed.

Lemma groupByCategory_total (loaded : list ComponentMetadata) :
  list_sum (map (fun e => List.length (snd e)) (groupByCategory loaded))
  = List.length loaded.
Proof.
  unfold groupByCategory.
  assert (H : forall l g,
             list_sum (map (fun e => List.length (snd e)) (fold_left groupStep l g))
             = List.length l
               + list_sum (map (fun e => List.length (snd e)) g)).
  { induction l as [|c l IH]; intros g; simpl; [reflexivity|].
    rewrite IH, groupStep_total. lia. }
  rewrite H. simpl. lia.
Qed.

Lemma getCategories_names (loaded : list ComponentMetadata) :
  map infoName (getCategories loaded) = categoriesOf loaded.
Proof.
  unfold getCategories. rewrite groupByCategory_spec, !map_map. simpl.
  apply map_id.
Qed.

Lemma getCategories_In (loaded : list ComponentMetadata) (info : CategoryInfo) :
  In info (getCategories loaded) ->
  In (infoName info) (categoriesOf loaded)
  /\ infoCount info = List.length (members loaded (infoName info)).
Proof.
  unfold getCategories. rewrite groupByCategory_spec, map_map, in_map_iff.
  intros [k [<- Hk]]. simpl. auto.
Qed.

(** X11.  [getCategories] gives one entry per category of the record
    list, in the order in which the categories first appear; the count
    of an entry is the number of records of that very category, at
    least 1; the counts add up to the number of records; and there is
    no entry, and [list_categories] answers "No categories found",
    only for an empty record list. *)
Theorem categories_partition_records (loaded : list ComponentMetadata) :
  map infoName (getCategories loaded)
  = firstOccurrences [] (map category loaded)
  /\ NoDup (map infoName (getCategories loaded))
  /\ (forall info,
         In info (getCategories loaded) ->
         infoCount info = List.length (members loaded (infoName info))
         /\ 1 <= infoCount info)
  /\ list_sum (map infoCount (getCategories loaded)) = List.length loaded
  /\ (getCategories loaded = [] <-> loaded = [])
  /\ (list_categories loaded = "No categories found" <-> loaded = []).
Proof.
  assert (Hnil : getCategories loaded = [] <-> loaded = []).
  { split.
    - intros H. destruct loaded as [|c l]; [reflexivity|].
      assert (Hin : In (category c) (categoriesOf (c :: l)))
        by (apply categoriesOf_In; exists c; simpl; auto).
      rewrite <- getCategories_names, H in Hin. contradiction.
    - intros ->. reflexivity. }
  split; [|split; [|split; [|split; [|split]]]].
  - rewrite getCategories_names. apply (addAll_firstOccurrences _ []).
  - rewrite getCategories_names. apply categoriesOf_NoDup.
  - intros info Hin. apply getCategories_In in Hin as [Hk Hn].
    split; [exact Hn|]. rewrite Hn.
    apply categoriesOf_In in Hk as (c & Hc & Hcat).
    assert (Hm : In c (members loaded (infoName info))).
    { apply filter_In. split; [exact Hc|]. now apply String.eqb_eq. }
    destruct (members loaded (infoName info)); [contradiction|simpl; lia].
  - rewrite <- groupByCategory_total. unfold getCategories.
    now rewrite map_map.
  - exact Hnil.
  - rewrite <- Hnil. unfold list_categories.
    destruct (getCategories loaded) as [|info infos]; [tauto|].
    split; [|discriminate]. unfold join. simpl. discriminate.
Qed.

Lemma categories_partition_records_witness :
  1 <= infoCount {| infoName := "Cards"; infoCount := 2;
                    infoDescription := "2 cards components" |}.
Proof.
  apply (categories_partition_records
           [sample "A" "Cards" [] ""; sample "B" "Buttons" [] "";
            sample "C" "Cards" [] ""]).
  vm_compute. now left.
Defined.

(** ** Lower case and trimming *)

Lemma is_space_lower_char (c : ascii) :
  is_space (lower_char c) = is_space c.
Proof.
  destruct c as [[] [] [] [] [] [] [] []]; reflexivity.
Qed.

Lemma lower_char_idempotent (c : ascii) :
  lower_char (lower_char c) = lower_char c.
Proof.
  destruct c as [[] [] [] [] [] [] [] []]; reflexivity.
Qed.

Lemma toLowerCase_idempotent (s : string) :
  toLowerCase (toLowerCase s) = toLowerCase s.
Proof.
  induction s as [|c s IH]; simpl; [reflexivity|].
  now rewrite lower_char_idempotent, IH.
Qed.

Lemma toLowerCase_append (a b : string) :
  toLowerCase (a ++ b) = (toLowerCase a ++ toLowerCase b)%string.
Proof.
  induction a as [|c a IH]; simpl; [reflexivity|]. now rewrite IH.
Qed.

Lemma allChars_space_lower (s : string) :
  allChars is_space (toLowerCase s) = allChars is_space s.
Proof.
  induction s as [|c s IH]; simpl; [reflexivity|].
  now rewrite is_space_lower_char, IH.
Qed.

Lemma trimStart_lower (s : string) :
  trimStart (toLowerCase s) = toLowerCase (trimStart s).
Proof.
  induction s as [|c s IH]; simpl; [reflexivity|].
  rewrite is_space_lower_char. now destruct (is_space c).
Qed.

Lemma trimEnd_lower (s : string) :
  trimEnd (toLowerCase s) = toLowerCase (trimEnd s).
Proof.
  induction s as [|c s IH]; simpl; [reflexivity|].
  rewrite IH, is_space_lower_char.
  destruct (trimEnd s); simpl; [now destruct (is_space c)|reflexivity].
Qed.

Lemma trim_lower (s : string) :
  trim (toLowerCase s) = toLowerCase (trim s).
Proof.
  unfold trim. now rewrite trimStart_lower, trimEnd_lower.
Qed.

Lemma trimStart_spaces (p : string) :
  allChars is_space p = true -> trimStart p = EmptyString.
Proof.
  induction p as [|c p IH]; simpl; [reflexivity|].
  intros H. apply andb_true_iff in H as [-> Hp]. auto.
Qed.

Lemma trimStart_pad (p s : string) :
  allChars is_space p = true -> trimStart (p ++ s) = trimStart s.
Proof.
  induction p as [|c p IH]; simpl; [reflexivity|].
  intros H. apply andb_true_iff in H as [-> Hp]. auto.
Qed.

Lemma trimStart_append (s p : string) :
  allChars is_space s = false ->
  trimStart (s ++ p) = (trimStart s ++ p)%string.
Proof.
  induction s as [|c s IH]; simpl; [discriminate|].
  destruct (is_space c); simpl; [exact IH|reflexivity].
Qed.

Lemma trimEnd_pad (s p : string) :
  allChars is_space p = true -> trimEnd (s ++ p) = trimEnd s.
Proof.
  intros Hp. induction s as [|c s IH]; simpl.
  - now apply trimEnd_spaces.
  - now rewrite IH.
Qed.

Lemma trim_pad (before s after : string) :
  allChars is_space before = true ->
  allChars is_space after = true ->
  trim (before ++ s ++ after) = trim s.
Proof.
  intros Hb Ha. unfold trim. rewrite (trimStart_pad _ _ Hb).
  destruct (allChars is_space s) eqn:Hs.
  - rewrite (trimStart_spaces s Hs), trimStart_spaces; [reflexivity|].
    now rewrite allChars_append, Hs, Ha.
  - now rewrite (trimStart_append _ _ Hs), (trimEnd_pad _ _ Ha).
Qed.

Lemma trimEnd_idempotent (s : string) : trimEnd (trimEnd s) = trimEnd s.
Proof.
  induction s as [|c s IH]; simpl; [reflexivity|].
  destruct (trimEnd s) as [|k kept] eqn:Hk.
  - destruct (is_space c) eqn:Hc; simpl; [reflexivity|now rewrite Hc].
  - simpl in *. now rewrite IH.
Qed.

Lemma trimStart_head (s : string) :
  trimStart s = EmptyString
  \/ exists c r, trimStart s = String c r /\ is_space c = false.
Proof.
  induction s as [|c s IH]; simpl; [now left|].
  destruct (is_space c) eqn:Hc; [exact IH|right; eauto].
Qed.

Lemma trim_idempotent (s : string) : trim (trim s) = trim s.
Proof.
  unfold trim.
  destruct (trimStart_head s) as [->|(c & r & -> & Hc)]; [reflexivity|].
  assert (Hhead : exists r', trimEnd (String c r) = String c r').
  { simpl. destruct (trimEnd r); [rewrite Hc|]; eauto. }
  destruct Hhead as [r' Hr]. rewrite Hr at 1. simpl trimStart. rewrite Hc.
  rewrite <- Hr. apply trimEnd_idempotent.
Qed.

Lemma normalize_idempotent (q : string) : normalize (normalize q) = normalize q.
Proof.
  unfold normalize.
  rewrite !(trim_lower q), toLowerCase_idempotent, trim_lower.
  now rewrite trim_idempotent.
Qed.

(** X14.  A search depends on its query only up to letter case and
    surrounding white space: the query in lower case, the normalised
    query, and the query padded with white space all give the response
    of the query itself; a query of white space alone is answered with
    the request for a query. *)
Theorem search_ignores_case_and_padding
        (q : string) (limit : option Number)
        (loaded : list ComponentMetadata) :
  search_components {| searchQuery := normalize q; searchLimit := limit |}
                    loaded
  = search_components {| searchQuery := q; searchLimit := limit |} loaded
  /\ search_components {| searchQuery := toLowerCase q; searchLimit := limit |}
                       loaded
     = search_components {| searchQuery := q; searchLimit := limit |} loaded
  /\ (forall before after,
         allChars is_space before = true ->
         allChars is_space after = true ->
         search_components
           {| searchQuery := before ++ q ++ after; searchLimit := limit |}
           loaded
         = search_components {| searchQuery := q; searchLimit := limit |}
                             loaded)
  /\ (allChars is_space q = true ->
      search_components {| searchQuery := q; searchLimit := limit |} loaded
      = PleaseProvideQuery).
Proof.
  unfold search_components; simpl.
  split; [now rewrite normalize_idempotent|].
  split; [unfold normalize; now rewrite toLowerCase_idempotent|].
  split.
  - intros before after Hb Ha.
    assert (H : normalize (before ++ q ++ after) = normalize q).
    { unfold normalize. rewrite !toLowerCase_append.
      apply trim_pad; now rewrite allChars_space_lower. }
    now rewrite H.
  - intros Hq.
    assert (H : normalize q = EmptyString).
    { unfold normalize, trim.
      rewrite trimStart_spaces; [reflexivity|].
      now rewrite allChars_space_lower. }
    now rewrite H.
Qed.

Lemma search_ignores_case_and_padding_witness :
  search_components {| searchQuery := "  card "; searchLimit := None |}
                    [sample "GlowCard" "Cards" [] ""]
  = search_components {| searchQuery := "card"; searchLimit := None |}
                      [sample "GlowCard" "Cards" [] ""].
Proof.
  apply (search_ignores_case_and_padding "card" None
           [sample "GlowCard" "Cards" [] ""]); reflexivity.
Defined.

(** ** Looking a component up *)

Lemma append_cancel_l (a x y : string) :
  (a ++ x)%string = (a ++ y)%string -> x = y.
Proof.
  induction a as [|c a IH]; simpl; [auto|].
  intros H. injection H as H. auto.
Qed.

Lemma find_first {A : Type} (f : A -> bool) (l : list A) (x : A) :
  find f l = Some x
  <-> exists l1 l2,
        l = l1 ++ x :: l2 /\ f x = true /\ forall y, In y l1 -> f y = false.
Proof.
  induction l as [|a l IH]; simpl.
  - split; [discriminate|]. intros (l1 & l2 & H & _). now destruct l1.
  - destruct (f a) eqn:Ha.
    + split.
      * intros H. injection H as ->. exists [], l. simpl. tauto.
      * intros (l1 & l2 & H & Hx & Hl1). destruct l1 as [|b l1]; simpl in H.
        -- now injection H as ->.
        -- injection H as -> _. rewrite (Hl1 b) in Ha by now left.
           discriminate.
    + rewrite IH. split.
      * intros (l1 & l2 & -> & Hx & Hl1). exists (a :: l1), l2.
        repeat split; [exact Hx|]. intros y [<-|Hy]; auto.
      * intros (l1 & l2 & H & Hx & Hl1). destruct l1 as [|b l1]; simpl in H.
        -- injection H as -> _. congruence.
        -- injection H as _ ->. exists l1, l2. repeat split; [exact Hx|].
           intros y Hy. apply Hl1. now right.
Qed.

Lemma codePage_heading (c : ComponentMetadata) (includeMetadata : bool) :
  startsWith (codePage c includeMetadata) "# " = true.
Proof.
  apply startsWith_iff. unfold codePage.
  destruct includeMetadata; [|eexists; simpl; reflexivity].
  destruct (dependencies c) as [[|d ds]|]; eexists; simpl; reflexivity.
Qed.

Lemma notFound_not_didYouMean (n : string) (similar : list ComponentMetadata) :
  didYouMean n similar <> notFound n.
Proof.
  unfold didYouMean, notFound, DQ. intros H.
  apply (append_cancel_l "Component ") in H.
  simpl in H. injection H as H.
  apply append_cancel_l in H. simpl in H. discriminate.
Qed.

Lemma similarTo_spec (n : string) (loaded : list ComponentMetadata) :
  similarTo n loaded
  = firstn 5 (filter (fun c => includes (toLowerCase (name c)) (toLowerCase n))
                     loaded).
Proof. reflexivity. Qed.

Lemma firstn_nil_iff {A : Type} (k : nat) (l : list A) :
  firstn (S k) l = [] <-> l = [].
Proof. destruct l; simpl; split; (reflexivity || discriminate). Qed.

Lemma filter_nil_iff {A : Type} (f : A -> bool) (l : list A) :
  filter f l = [] <-> forall x, In x l -> f x = false.
Proof.
  induction l as [|a l IH]; simpl; [tauto|].
  destruct (f a) eqn:Ha.
  - split; [discriminate|]. intros H. rewrite (H a) in Ha by now left.
    discriminate.
  - rewrite IH. split.
    + intros H x [<-|Hx]; auto.
    + intros H x Hx. apply H. now right.
Qed.

(** X12.  [get_component_code] on a name that is not blank.  It shows
    a code page exactly when some record has the name, letter case and
    surrounding white space aside, and the page is that of the first
    such record in the list.  It gives the plain not-found answer
    exactly when no record name contains the name; in between, it
    proposes names: at most five, in the order of the list, each a
    record whose name contains the one asked for. *)
Theorem component_lookup_outcomes
        (params : CodeParams) (loaded : list ComponentMetadata) :
  let wanted := trim (component_name params) in
  let response := get_component_code params loaded in
  wanted <> EmptyString ->
  (startsWith response "# " = true
   <-> exists c, In c loaded /\ toLowerCase (name c) = toLowerCase wanted)
  /\ (forall c,
         findByName wanted loaded = Some c ->
         exists l1 l2,
           loaded = l1 ++ c :: l2
           /\ (forall y, In y l1 ->
                         toLowerCase (name y) <> toLowerCase wanted)
           /\ exists includeMetadata, response = codePage c includeMetadata)
  /\ (response = notFound wanted
      <-> forall c, In c loaded ->
                    includes (toLowerCase (name c)) (toLowerCase wanted)
                    = false)
  /\ (findByName wanted loaded = None ->
      similarTo wanted loaded <> [] ->
      response = didYouMean wanted (similarTo wanted loaded)
      /\ List.length (similarTo wanted loaded) <= 5
      /\ forall c, In c (similarTo wanted loaded) ->
                   In c loaded
                   /\ includes (toLowerCase (name c)) (toLowerCase wanted)
                      = true).
Proof.
  intros wanted response Hwanted.
  assert (Hne : String.eqb wanted EmptyString = false)
    by now apply String.eqb_neq.
  assert (Hresp : response
                  = match findByName wanted loaded with
                    | None =>
                        match similarTo wanted loaded with
                        | [] => notFound wanted
                        | similar => didYouMean wanted similar
                        end
                    | Some c =>
                        codePage c match include_metadata params with
                                   | Some b => b
                                   | None => true
                                   end
                    end).
  { subst response. unfold get_component_code. fold wanted. now rewrite Hne. }
  split; [|split; [|split]].
  - rewrite Hresp. destruct (findByName wanted loaded) as [c|] eqn:Hfind.
    + split; [intros _|intros _; apply codePage_heading].
      apply find_some in Hfind as [Hin Heq].
      apply String.eqb_eq in Heq. eauto.
    + split.
      * destruct (similarTo wanted loaded); intros H; vm_compute in H;
          discriminate.
      * intros (c & Hin & Heq).
        apply (find_none _ _ Hfind) in Hin.
        rewrite Heq, String.eqb_refl in Hin. discriminate.
  - intros c Hfind. rewrite Hresp, Hfind.
    apply find_first in Hfind as (l1 & l2 & Hl & _ & Hl1).
    exists l1, l2. repeat split; [exact Hl| |eauto].
    intros y Hy Heq. apply Hl1 in Hy. rewrite Heq, String.eqb_refl in Hy.
    discriminate.
  - rewrite Hresp. destruct (findByName wanted loaded) as [c|] eqn:Hfind.
    + split.
      * intros H. pose proof (codePage_heading c
                                match include_metadata params with
                                | Some b => b
                                | None => true
                                end) as Hh.
        rewrite H in Hh. vm_compute in Hh. discriminate.
      * intros Hnone. apply find_some in Hfind as [Hin Heq].
        specialize (Hnone c Hin).
        rewrite (includes_of_eqb _ _ Heq) in Hnone. discriminate.
    + rewrite similarTo_spec.
      destruct (firstn 5 (filter _ loaded)) as [|s similar] eqn:Hs.
      * split; [intros _|reflexivity].
        apply firstn_nil_iff in Hs. now apply filter_nil_iff.
      * split.
        -- intros H. now apply notFound_not_didYouMean in H.
        -- intros Hnone. apply filter_nil_iff in Hnone.
           rewrite Hnone in Hs. discriminate.
  - intros Hfind Hsim. rewrite Hresp, Hfind.
    split; [now destruct (similarTo wanted loaded)|].
    rewrite similarTo_spec. split; [apply firstn_le_length|].
    intros c Hc.
    assert (Hin : In c (filter (fun c => includes (toLowerCase (name c))
                                                 (toLowerCase wanted)) loaded)).
    { rewrite <- (firstn_skipn 5). apply in_or_app. now left. }
    now apply filter_In in Hin.
Qed.

Lemma component_lookup_outcomes_witness :
  get_component_code {| component_name := "Butt"; include_metadata := None |}
                     [sample "Card" "Cards" [] "";
                      sample "AnimatedButton" "Buttons" [] ""]
  = didYouMean "Butt" [sample "AnimatedButton" "Buttons" [] ""].
Proof.
  destruct (component_lookup_outcomes
              {| component_name := "Butt"; include_metadata := None |}
              [sample "Card" "Cards" [] "";
               sample "AnimatedButton" "Buttons" [] ""])
    as [_ [_ [_ H]]]; [vm_compute; discriminate|].
  apply H; [reflexivity|vm_compute; discriminate].
Defined.

(** ** Components of a category *)

Lemma filter_length_mono {A : Type} (f g : A -> bool) (l : list A) :
  (forall x, f x = true -> g x = true) ->
  List.length (filter f l) <= List.length (filter g l).
Proof.
  intros Hfg. induction l as [|a l IH]; simpl; [lia|].
  destruct (f a) eqn:Hf.
  - rewrite (Hfg a Hf). simpl. lia.
  - destruct (g a); simpl; lia.
Qed.

Lemma categoryPage_heading (wanted : string) (results : list ComponentMetadata) :
  startsWith (categoryPage wanted results) "## " = true.
Proof.
  apply startsWith_iff. unfold categoryPage, join. simpl.
  destruct (flat_map categoryLines results); eexists; simpl; reflexivity.
Qed.



(** ** Bounds on what search and list return *)

Lemma component_scoreComponent (query : string) (c : ComponentMetadata) :
  component (scoreComponent query c) = c.
Proof.
  unfold scoreComponent.
  destruct (includes (toLowerCase (name c)) query),
    (includes (toLowerCase (category c)) query),
    (existsb (fun tag => includes (toLowerCase tag) query) (tags c)),
    (includes (toLowerCase (description c)) query),
    (String.eqb (toLowerCase (name c)) query); reflexivity.
Qed.

Lemma score_range (query : string) (c : ComponentMetadata) :
  (0 < score (scoreComponent query c))%Z ->
  (10 <= score (scoreComponent query c) <= 140)%Z.
Proof.
  rewrite score_formula. unfold weightIf.
  repeat match goal with |- context [if ?b then _ else _] => destruct b end;
    lia.
Qed.

Lemma slice0_length {A : Type} (l : list A) (n : Z) :
  List.length (slice0 l n)
  = if (n <? 0)%Z
    then Z.to_nat (Z.of_nat (List.length l) + n)
    else Nat.min (Z.to_nat n) (List.length l).
Proof.
  unfold slice0. destruct (n <? 0)%Z eqn:Hn.
  - apply Z.ltb_lt in Hn. rewrite length_firstn. lia.
  - apply length_firstn.
Qed.

Lemma sortedResults_length (query : string) (loaded : list ComponentMetadata) :
  List.length (sortedResults query loaded) <= List.length loaded.
Proof.
  unfold sortedResults.
  rewrite (Permutation_length (sort_perm score _)), collectResults_filter.
  rewrite <- (length_map (scoreComponent query) loaded).
  apply filter_length_le.
Qed.

Lemma truncate_lower (q : Q) (z : Z) :
  (inject_Z z <= q)%Q -> (0 <= z)%Z -> (z <= truncate q)%Z.
Proof.
  unfold Qle, truncate. simpl. intros H Hz.
  apply Z.quot_le_lower_bound; lia.
Qed.

(** Between -1 and 1 nothing is left of a number. *)
Lemma truncate_small (q : Q) :
  (-1 < q)%Q -> (q < 1)%Q -> truncate q = 0%Z.
Proof.
  unfold Qlt, truncate. simpl. intros H1 H2.
  destruct (Z_le_gt_dec 0 (Qnum q)) as [Hn|Hn].
  - apply Z.quot_small. lia.
  - replace (Qnum q) with (- (- Qnum q))%Z by lia.
    rewrite Z.quot_opp_l by lia.
    rewrite Z.quot_small; lia.
Qed.

Lemma truncate_upper (q : Q) :
  (q <= -1)%Q -> (truncate q <= -1)%Z.
Proof.
  unfold Qle, truncate. simpl. intros H.
  replace (Qnum q) with (- (- Qnum q))%Z by lia.
  rewrite Z.quot_opp_l by lia.
  assert (1 <= Z.quot (- Qnum q) (Z.pos (Qden q)))%Z; [|lia].
  apply Z.quot_le_lower_bound; lia.
Qed.

(** Dropping the fraction moves a number towards zero, by less than
    one. *)
Lemma truncate_spec (q : Q) :
  ((0 <= q)%Q ->
   (inject_Z (truncate q) <= q)%Q /\ (q < inject_Z (truncate q + 1))%Q)
  /\ ((q <= 0)%Q ->
      (inject_Z (truncate q - 1) < q)%Q /\ (q <= inject_Z (truncate q))%Q).
Proof.
  unfold Qle, Qlt, truncate. simpl. rewrite !Z.mul_1_r.
  split; intros H.
  - pose proof (Z.mul_quot_le (Qnum q) (Z.pos (Qden q))) as H1.
    pose proof (Z.mul_succ_quot_gt (Qnum q) (Z.pos (Qden q))) as H2.
    nia.
  - replace (Qnum q) with (- (- Qnum q))%Z by lia.
    rewrite Z.quot_opp_l by lia.
    pose proof (Z.mul_quot_le (- Qnum q) (Z.pos (Qden q))) as H1.
    pose proof (Z.mul_succ_quot_gt (- Qnum q) (Z.pos (Qden q))) as H2.
    nia.
Qed.

Lemma slice_length_le {A : Type} (l : list A) (n : Number) :
  List.length (slice l n) <= List.length l.
Proof.
  destruct (slice_prefix l n) as [k ->]. rewrite length_firstn. lia.
Qed.

Lemma slice_length_nonneg {A : Type} (l : list A) (q : Q) :
  (0 <= q)%Q ->
  List.length (slice l (Finite q))
  = Nat.min (Z.to_nat (truncate q)) (List.length l).
Proof.
  intros H. rewrite slice_nonneg by exact H. apply length_firstn.
Qed.

Lemma slice_length_negative {A : Type} (l : list A) (q : Q) :
  (q <= -1)%Q ->
  List.length (slice l (Finite q))
  = List.length l - Z.to_nat (- truncate q).
Proof.
  intros H. apply truncate_upper in H. simpl. rewrite slice0_length.
  destruct (truncate q <? 0)%Z eqn:Hn; [lia|apply Z.ltb_ge in Hn; lia].
Qed.

Lemma slice_small {A : Type} (l : list A) (q : Q) :
  (-1 < q)%Q -> (q < 1)%Q -> slice l (Finite q) = [].
Proof.
  intros H1 H2. simpl. now rewrite truncate_small.
Qed.

(** X15.  What a search returns.  Never more results than there are
    records, and for a limit that is not negative never more than the
    limit: as many as the limit without its fraction says, if there are
    that many.  A limit of -1 or below leaves out, at the end of the
    ranking, as many results as the limit without its fraction says;
    a limit strictly between -1 and 1 gives no result at all, and so
    does the negative infinity; the positive infinity gives the whole
    ranking.  Every result is the scoring of a record of the list, and
    its score lies between 10 and 140.  A limit without its fraction is
    the whole number next to it towards zero. *)
Theorem search_results_bounded
        (query : string) (limit : Number) (loaded : list ComponentMetadata) :
  List.length (topResults query limit loaded) <= List.length loaded
  /\ List.length (topResults query limit loaded)
     <= List.length (sortedResults query loaded)
  /\ (forall q, limit = Finite q -> (0 <= q)%Q ->
        List.length (topResults query limit loaded)
        = Nat.min (Z.to_nat (truncate q))
                  (List.length (sortedResults query loaded))
        /\ (Z.of_nat (List.length (topResults query limit loaded))
            <= truncate q)%Z
        /\ (inject_Z (Z.of_nat (List.length (topResults query limit loaded)))
            <= q)%Q)
  /\ (forall n, limit = ofZ n -> (0 <= n)%Z ->
        List.length (topResults query limit loaded) <= Z.to_nat n)
  /\ (forall q, limit = Finite q -> (q <= -1)%Q ->
        List.length (topResults query limit loaded)
        = List.length (sortedResults query loaded) - Z.to_nat (- truncate q))
  /\ (forall n, limit = ofZ n -> (n < 0)%Z ->
        List.length (topResults query limit loaded)
        = List.length (sortedResults query loaded) - Z.to_nat (- n))
  /\ (forall q, limit = Finite q -> (-1 < q)%Q -> (q < 1)%Q ->
        topResults query limit loaded = [])
  /\ (limit = PlusInfinity ->
      topResults query limit loaded = sortedResults query loaded)
  /\ (limit = MinusInfinity -> topResults query limit loaded = [])
  /\ (forall r,
         In r (topResults query limit loaded) ->
         In (component r) loaded
         /\ r = scoreComponent query (component r)
         /\ (10 <= score r <= 140)%Z)
  /\ (forall q,
         ((0 <= q)%Q ->
          (inject_Z (truncate q) <= q)%Q
          /\ (q < inject_Z (truncate q + 1))%Q)
         /\ ((q <= 0)%Q ->
             (inject_Z (truncate q - 1) < q)%Q
             /\ (q <= inject_Z (truncate q))%Q)).
Proof.
  pose proof (sortedResults_length query loaded) as Hlen.
  pose proof (slice_length_le (sortedResults query loaded) limit) as Hle.
  split; [unfold topResults; lia|]. split; [exact Hle|].
  split; [|split; [|split; [|split; [|split; [|split; [|split;
    [|split; [|exact truncate_spec]]]]]]]].
  - intros q -> Hq. unfold topResults.
    rewrite slice_length_nonneg by exact Hq.
    pose proof (truncate_nonneg q Hq) as Ht.
    assert (Hz : (Z.of_nat (Nat.min (Z.to_nat (truncate q))
                              (List.length (sortedResults query loaded)))
                  <= truncate q)%Z) by lia.
    split; [reflexivity|]. split; [exact Hz|].
    eapply Qle_trans; [rewrite <- Zle_Qle; exact Hz|].
    unfold Qle, truncate. simpl. rewrite Z.mul_1_r, Z.mul_comm.
    apply Z.mul_quot_le; [|lia].
    unfold Qle in Hq. simpl in Hq. lia.
  - intros n -> Hn. unfold topResults.
    rewrite slice_ofZ, slice0_nonneg by lia. rewrite length_firstn. lia.
  - intros q -> Hq. unfold topResults. now apply slice_length_negative.
  - intros n -> Hn. unfold topResults. rewrite slice_ofZ, slice0_length.
    destruct (n <? 0)%Z eqn:H; [lia|apply Z.ltb_ge in H; lia].
  - intros q -> H1 H2. unfold topResults. now apply slice_small.
  - now intros ->.
  - now intros ->.
  - intros r Hr. apply topResults_in in Hr as (c & Hc & -> & Hpos).
    rewrite component_scoreComponent.
    repeat split; try assumption; now apply score_range.
Qed.

Lemma search_results_bounded_witness :
  List.length (topResults "card" (Finite (3 # 2))
                 [sample "Card" "Cards" [] ""; sample "GlowCard" "Cards" [] ""])
  = 1
  /\ topResults "card" (Finite (-1 # 2))
                [sample "Card" "Cards" [] ""; sample "GlowCard" "Cards" [] ""]
     = []
  /\ List.length (topResults "card" (Finite (-3 # 2))
                    [sample "Card" "Cards" [] "";
                     sample "GlowCard" "Cards" [] ""])
     = 1.
Proof.
  split; [|split].
  - destruct (search_results_bounded "card" (Finite (3 # 2))
                [sample "Card" "Cards" [] ""; sample "GlowCard" "Cards" [] ""])
      as (_ & _ & H & _).
    destruct (H (3 # 2) eq_refl) as [Hlen _]; [discriminate|].
    rewrite Hlen. reflexivity.
  - destruct (search_results_bounded "card" (Finite (-1 # 2))
                [sample "Card" "Cards" [] ""; sample "GlowCard" "Cards" [] ""])
      as (_ & _ & _ & _ & _ & _ & H & _).
    apply (H (-1 # 2) eq_refl); reflexivity.
  - destruct (search_results_bounded "card" (Finite (-3 # 2))
                [sample "Card" "Cards" [] ""; sample "GlowCard" "Cards" [] ""])
      as (_ & _ & _ & _ & H & _).
    rewrite (H (-3 # 2) eq_refl); [reflexivity|discriminate].
Defined.

(** X16.  Lookup and search agree.  A record that [get_component_code]
    finds for a name is scored at least 80 by a search for that name,
    is among the ranked results, and is returned whenever the limit,
    whole or not, is not below the number of records. *)
Theorem found_component_ranks_high
        (wantedParam : string) (loaded : list ComponentMetadata)
        (c : ComponentMetadata) :
  findByName (trim wantedParam) loaded = Some c ->
  let query := normalize wantedParam in
  (80 <= score (scoreComponent query c))%Z
  /\ In (scoreComponent query c) (sortedResults query loaded)
  /\ (forall limit,
         (Z.of_nat (List.length loaded) <= limit)%Z ->
         In (scoreComponent query c) (topResults query (ofZ limit) loaded))
  /\ (forall q,
         (inject_Z (Z.of_nat (List.length loaded)) <= q)%Q ->
         In (scoreComponent query c) (topResults query (Finite q) loaded))
  /\ In (scoreComponent query c) (topResults query PlusInfinity loaded).
Proof.
  intros Hfind query.
  apply find_some in Hfind as [Hin Heq]. apply String.eqb_eq in Heq.
  assert (Hq : toLowerCase (name c) = query).
  { subst query. unfold normalize. now rewrite trim_lower. }
  pose proof (score_exact_name query c Hq) as Hscore.
  assert (Hsorted : In (scoreComponent query c) (sortedResults query loaded)).
  { unfold sortedResults.
    apply (Permutation_in _ (Permutation_sym (sort_perm score _))).
    rewrite collectResults_filter. apply filter_In. split.
    - now apply in_map.
    - apply Z.ltb_lt. lia. }
  pose proof (sortedResults_length query loaded) as Hlen.
  split; [exact Hscore|]. split; [exact Hsorted|].
  split; [|split; [|exact Hsorted]].
  - intros limit Hlimit. unfold topResults.
    rewrite slice_ofZ, slice0_nonneg by lia.
    rewrite firstn_all2; [exact Hsorted|lia].
  - intros q Hge. unfold topResults.
    pose proof (truncate_lower q _ Hge (Nat2Z.is_nonneg _)) as Ht.
    assert (H0 : (0 <= q)%Q).
    { eapply Qle_trans; [|exact Hge].
      rewrite <- (Zle_Qle 0). apply Nat2Z.is_nonneg. }
    rewrite slice_nonneg by exact H0.
    rewrite firstn_all2; [exact Hsorted|lia].
Qed.

Lemma found_component_ranks_high_witness :
  (80 <= score (scoreComponent (normalize " GlowCard ")
                               (sample "GlowCard" "Cards" [] "")))%Z.
Proof.
  assert (Hfind : findByName (trim " GlowCard ")
                    [sample "Card" "Cards" [] "";
                     sample "GlowCard" "Cards" [] ""]
                  = Some (sample "GlowCard" "Cards" [] ""))
    by (vm_compute; reflexivity).
  destruct (found_component_ranks_high " GlowCard " _ _ Hfind) as [H _].
  exact H.
Defined.

(** X17.  What [list_components] returns.  The total is the number of
    summaries, never more than there are records.  For a limit of 1 or
    more it is the smaller of the limit without its fraction and the
    number of records that pass the category filter; a limit of -1 or
    below leaves out, at the end, as many records as the limit without
    its fraction says; a limit strictly between -1 and 1 other than 0
    gives a total of 0 and no summary, and so does the negative
    infinity.  The summaries are those of the first records that pass
    the category filter, in the order of the list, and the filter does
    not depend on the letter case of the category asked for. *)
Theorem list_components_bounded
        (params : ListParams) (loaded : list ComponentMetadata) :
  let response := list_components params loaded in
  let filtered := filterByCategory (listCategory params) loaded in
  total response = List.length (components response)
  /\ total response <= List.length filtered
  /\ List.length filtered <= List.length loaded
  /\ (forall q, listLimit params = Some (Finite q) -> (1 <= q)%Q ->
        total response
        = Nat.min (Z.to_nat (truncate q)) (List.length filtered))
  /\ (forall n, listLimit params = Some (ofZ n) -> (0 < n)%Z ->
        total response = Nat.min (Z.to_nat n) (List.length filtered))
  /\ (forall q, listLimit params = Some (Finite q) -> (q <= -1)%Q ->
        total response = List.length filtered - Z.to_nat (- truncate q))
  /\ (forall n, listLimit params = Some (ofZ n) -> (n < 0)%Z ->
        total response = List.length filtered - Z.to_nat (- n))
  /\ (forall q, listLimit params = Some (Finite q) ->
        (-1 < q)%Q -> (q < 1)%Q -> ~ (q == 0)%Q ->
        total response = 0 /\ components response = [])
  /\ (listLimit params = Some PlusInfinity ->
      total response = List.length filtered)
  /\ (listLimit params = Some MinusInfinity ->
      total response = 0 /\ components response = [])
  /\ (exists k, components response
                = map formatComponentSummary (firstn k filtered))
  /\ (forall wanted,
         filterByCategory (Some (toLowerCase wanted)) loaded
         = filterByCategory (Some wanted) loaded).
Proof.
  intros response filtered. subst response. unfold list_components.
  fold filtered. simpl.
  assert (Hlimit : forall q, ~ (q == 0)%Q ->
             applyLimit (Some (Finite q)) filtered = slice filtered (Finite q)).
  { intros q Hq. unfold applyLimit, truthyNumber, isZero.
    destruct (Qnum q =? 0)%Z eqn:H0; [|reflexivity].
    apply Z.eqb_eq in H0. exfalso. apply Hq.
    unfold Qeq. simpl. rewrite H0. reflexivity. }
  assert (Hnz : forall q, (1 <= q)%Q \/ (q <= -1)%Q -> ~ (q == 0)%Q).
  { intros q [H|H] H0; rewrite H0 in H; now apply H. }
  assert (HofZ : forall n, n <> 0%Z ->
             applyLimit (Some (ofZ n)) filtered = slice0 filtered n).
  { intros n Hn. unfold ofZ. rewrite Hlimit, <- slice_ofZ; [reflexivity|].
    unfold Qeq. simpl. lia. }
  split; [now rewrite length_map|].
  split; [|split; [|split; [|split; [|split; [|split; [|split;
    [|split; [|split; [|split]]]]]]]]].
  - unfold applyLimit. destruct (truthyNumber (listLimit params)) as [n|];
      [apply slice_length_le|lia].
  - subst filtered. unfold filterByCategory.
    destruct (truthyString (listCategory params)); [apply filter_length_le|lia].
  - intros q -> Hq. rewrite Hlimit by (apply Hnz; now left).
    apply slice_length_nonneg.
    eapply Qle_trans; [|exact Hq]. discriminate.
  - intros n -> Hn. rewrite HofZ by lia. rewrite slice0_length.
    destruct (n <? 0)%Z eqn:H; [apply Z.ltb_lt in H; lia|reflexivity].
  - intros q -> Hq. rewrite Hlimit by (apply Hnz; now right).
    now apply slice_length_negative.
  - intros n -> Hn. rewrite HofZ by lia. rewrite slice0_length.
    destruct (n <? 0)%Z eqn:H; [lia|apply Z.ltb_ge in H; lia].
  - intros q -> H1 H2 H0. rewrite Hlimit by exact H0.
    rewrite slice_small by assumption. split; reflexivity.
  - intros ->. reflexivity.
  - intros ->. split; reflexivity.
  - unfold applyLimit. destruct (truthyNumber (listLimit params)) as [n|].
    + destruct (slice_prefix filtered n) as [k ->]. eauto.
    + exists (List.length filtered). now rewrite firstn_all.
  - intros wanted. unfold filterByCategory.
    destruct wanted as [|a w]; [reflexivity|].
    simpl truthyString. cbv iota.
    change (String (lower_char a) (toLowerCase w))
      with (toLowerCase (String a w)).
    now rewrite toLowerCase_idempotent.
Qed.

Lemma list_components_bounded_witness :
  total (list_components
           {| listCategory := None; listLimit := Some (Finite (1 # 2)) |}
           [sample "Card" "Cards" [] ""; sample "Toggle" "Forms" [] ""])
  = 0
  /\ total (list_components
              {| listCategory := None; listLimit := Some (Finite (-3 # 2)) |}
              [sample "Card" "Cards" [] ""; sample "Toggle" "Forms" [] ""])
     = 1
  /\ total (list_components
              {| listCategory := None; listLimit := Some (ofZ (-1)) |}
              [sample "Card" "Cards" [] ""; sample "Toggle" "Forms" [] ""])
     = 1.
Proof.
  split; [|split].
  - destruct (list_components_bounded
                {| listCategory := None; listLimit := Some (Finite (1 # 2)) |}
                [sample "Card" "Cards" [] ""; sample "Toggle" "Forms" [] ""])
      as (_ & _ & _ & _ & _ & _ & _ & H & _).
    apply (H (1 # 2) eq_refl); [reflexivity|reflexivity|discriminate].
  - destruct (list_components_bounded
                {| listCategory := None; listLimit := Some (Finite (-3 # 2)) |}
                [sample "Card" "Cards" [] ""; sample "Toggle" "Forms" [] ""])
      as (_ & _ & _ & _ & _ & H & _).
    rewrite (H (-3 # 2) eq_refl); [reflexivity|discriminate].
  - destruct (list_components_bounded
                {| listCategory := None; listLimit := Some (ofZ (-1)) |}
                [sample "Card" "Cards" [] ""; sample "Toggle" "Forms" [] ""])
      as (_ & _ & _ & _ & _ & _ & H & _).
    rewrite (H (-1)%Z eq_refl); [reflexivity|lia].
Defined.

(** ** Refreshing *)

(** X18.  [refresh_cache] never fails: whatever the remote answers, it
    reports success with the number of records the cache holds
    afterwards, and the cache carries the instant of the call.  When
    GitHub cannot be reached at all it reports success with 0
    components and the cache is empty. *)
Theorem refresh_always_reports_success
        (now : Z) (remote : Remote) (cache : Cache) :
  let after := fst (refresh_cache now remote cache) in
  Fetch.outcome (snd (refresh_cache now remote cache))
  = Some ("Successfully refreshed component cache. Loaded "
          ++ numberToString (List.length (componentsCache after))
          ++ " components from VengeanceUI.")%string
  /\ lastCacheUpdate after = now
  /\ (remote = offline ->
      componentsCache after = []
      /\ Fetch.outcome (snd (refresh_cache now remote cache))
         = Some "Successfully refreshed component cache. Loaded 0 components from VengeanceUI.").
Proof.
  unfold refresh_cache.
  destruct (loadComponents_refresh true now remote cache eq_refl)
    as [log [found [Hload ->]]].
  simpl. split; [reflexivity|]. split; [reflexivity|].
  intros ->. vm_compute in Hload. injection Hload as <- <-.
  split; reflexivity.
Qed.

Lemma refresh_always_reports_success_witness :
  componentsCache (fst (refresh_cache 9%Z offline populated)) = [].
Proof.
  apply (refresh_always_reports_success 9%Z offline populated). reflexivity.
Defined.
